(** * Frame sampling, periodic-image rendering and GIF assembly of [plotting.py]

    A shallow embedding of the functions [GIF_2D], [GIF_3D], [plot_pos_2D]
    and [plot_pos_3D] of [plotting.py], together with the properties of the
    frame sampler, of the replica geometry and of the frame-file ordering;
    and of the charts [E_vs_t], [E_conservation] and [reldist_vs_t], with
    their curves and their failures on short or empty trajectories.

    Conventions of the embedding.
    - Python integers are [Z]; the indices of [range] and [enumerate] are
      naturals injected into [Z] where the source does arithmetic on them.
    - Floating-point values (coordinates, the box length, time values and
      the frame duration) are exact rationals [Q].  The one place where the
      source converts a float back to an integer, [int(a / b)] in the frame
      sampler, is embedded with its rounding: the quotient is rounded to
      the nearest binary64 number before [int] truncates it.  The result is
      the rounded-down exact quotient as long as the numerator stays below
      [2^53], and can differ from it beyond.
    - Exceptions are values of [exn]; a computation that may raise returns a
      [result].  Code that touches the file system runs in [M], a state and
      exception monad over [world].
    - matplotlib's axes object is the record [canvas]: the list of plot
      calls in drawing order, the axis limits, the labels and the title.
      The axes of a chart is the record [chart]: its curves, legend, x range
      and labels.
    - The trajectory provider [sim] and [np.linalg.norm] are parameters of
      the embedding: total functions that do not raise. *)

From Stdlib Require Import ZArith QArith Qabs Lia Lqa.
From Stdlib Require Import String Ascii Decimal DecimalString DecimalNat.
From stdpp Require Import gmap strings list fin_maps.

Local Open Scope Z_scope.

(** ** Exceptions and results *)

Inductive exn : Type :=
| ZeroDivisionError
| IndexError
| FileNotFoundError (path : string)
| AttributeError
| ValueError.

Inductive result (A : Type) : Type :=
| Ok (a : A)
| Raise (e : exn).

Arguments Ok {A} a.
Arguments Raise {A} e.

Definition rbind {A B : Type} (r : result A) (k : A -> result B) : result B :=
  match r with
  | Ok a => k a
  | Raise e => Raise e
  end.

Declare Scope result_scope.
Delimit Scope result_scope with result.
Bind Scope result_scope with result.
Notation "x <- r ;; k" := (rbind r (fun x => k))
  (at level 100, r at next level, right associativity) : result_scope.

(** A list comprehension whose element expression may raise. *)
Fixpoint comprehension {A B : Type} (f : A -> result B) (xs : list A)
  : result (list B) :=
  match xs with
  | [] => Ok []
  | x :: xs' =>
      (y <- f x ;; ys <- comprehension f xs' ;; Ok (y :: ys))%result
  end.

(** ** Python primitives used by the sampler *)

(** [range(n)]: empty when [n <= 0]. *)
Definition range (n : Z) : list Z := map Z.of_nat (seq 0 (Z.to_nat n)).

(** *** True division of integers

    [a / b] on two integers is a float: the exact quotient rounded to the
    nearest binary64 number, ties to even.  [int] truncates that float.  The
    definitions below compute this for [a >= 0] and [b > 0]; the quotients
    of the sampler are smaller than the trajectory is long, so the exponent
    range of binary64 plays no part and is left unbounded. *)

(** [n / d] rounded to the nearest integer, ties to even. *)
Definition round_half_even (n d : Z) : Z :=
  let q := n / d in
  let r := n mod d in
  if 2 * r <? d then q
  else if d <? 2 * r then q + 1
  else if Z.even q then q else q + 1.

(** [a / b] scaled by [2^s], as a fraction of integers. *)
Definition scaled_num (a s : Z) : Z := if 0 <=? s then a * 2 ^ s else a.
Definition scaled_den (b s : Z) : Z := if 0 <=? s then b else b * 2 ^ (- s).

(** The scale that leaves 53 bits before the binary point. *)
Definition scale (a b : Z) : Z :=
  let s := 52 - (Z.log2 a - Z.log2 b) in
  if scaled_num a s / scaled_den b s <? 2 ^ 52 then s + 1 else s.

(** The 53-bit significand of the float [a / b]. *)
Definition significand (a b : Z) : Z :=
  round_half_even (scaled_num a (scale a b)) (scaled_den b (scale a b)).

(** [int(a / b)] for [a >= 0] and [b > 0]. *)
Definition int_truediv_binary64 (a b : Z) : Z :=
  if a =? 0 then 0
  else
    let s := scale a b in
    if 0 <=? s then significand a b / 2 ^ s else significand a b * 2 ^ (- s).

(** [int(a / b)] on integers [a], [b]: true division raises on a zero
    divisor; rounding is symmetric about zero and [int] truncates toward
    zero, so the signs are set aside and put back. *)
Definition int_truediv (a b : Z) : result Z :=
  if b =? 0 then Raise ZeroDivisionError
  else Ok (Z.sgn a * Z.sgn b * int_truediv_binary64 (Z.abs a) (Z.abs b)).

(** Subscription [l[t]] of a sequence with a Python integer: negative
    indices count from the end, anything outside [-len, len) raises. *)
Definition getitem {A : Type} (l : list A) (t : Z) : result A :=
  let n := Z.of_nat (length l) in
  if (0 <=? t) && (t <? n) then
    match l !! Z.to_nat t with Some a => Ok a | None => Raise IndexError end
  else if (- n <=? t) && (t <? 0) then
    match l !! Z.to_nat (n + t) with Some a => Ok a | None => Raise IndexError end
  else Raise IndexError.

(** ** The frame sampler (lines 32 and 86)

    [save_frame = [int(i*(num_tsteps-1)/(num_frames-1))
                   for i in range(num_frames-1)] + [int(num_tsteps)-1]] *)
Definition save_frame (num_tsteps num_frames : Z) : result (list Z) :=
  (sampled <- comprehension
                (fun i => int_truediv (i * (num_tsteps - 1)) (num_frames - 1))
                (range (num_frames - 1)) ;;
   Ok (sampled ++ [num_tsteps - 1]))%result.

(** ** The canvas

    The state of a matplotlib axes object, as far as the renderers set it. *)

(** Format strings of the [ax.plot] calls: [".", color="black"], ["r."],
    ["g-"] and ["b--"]. *)
Inductive style : Type :=
| Black_dot
| Red_dot
| Green_line
| Blue_dashed.

Definition is_marker (s : style) : bool :=
  match s with
  | Black_dot | Red_dot => true
  | Green_line | Blue_dashed => false
  end.

(** One [ax.plot] call.  A scalar coordinate is a one-element list, as
    matplotlib treats it. [Plot2] is the call with two data arguments,
    [Plot3] the call with three.  The canvas keeps the calls; what a call
    shows depends on the axes it was made on. *)
Inductive artist : Type :=
| Plot2 (xs ys : list Q) (s : style)
| Plot3 (xs ys zs : list Q) (s : style).

(** [fig.add_subplot(111)] and [fig.add_subplot(111, projection='3d')]. *)
Inductive projection : Type :=
| Rectilinear
| ThreeD.

Record canvas : Type := mk_canvas {
  proj : projection;
  artists : list artist;
  xlim : option (Q * Q);
  ylim : option (Q * Q);
  zlim : option (Q * Q);
  xlabel : option string;
  ylabel : option string;
  zlabel : option string;
  title : option Q;
  ticks_in : list string;
  ticks_both : list string
}.

Definition add_subplot (p : projection) : canvas :=
  mk_canvas p [] None None None None None None None [] [].

(** [plt.cla()]: the axes are emptied and keep their projection. *)
Definition cla (ax : canvas) : canvas := add_subplot (proj ax).

Definition plot (ax : canvas) (a : artist) : canvas :=
  mk_canvas (proj ax) (artists ax ++ [a]) (xlim ax) (ylim ax) (zlim ax)
    (xlabel ax) (ylabel ax) (zlabel ax) (title ax) (ticks_in ax) (ticks_both ax).

(** *** Axis limits

    [ax.set_xlim(v0, v1)] does not store a degenerate interval.  matplotlib
    passes the two values through [nonsingular] with [expander=0.05] and
    [tiny=1e-15]: an interval whose ends are both closer to zero than
    [(1e6 / tiny) * np.finfo(float).tiny] becomes [(-0.05, 0.05)], an
    interval narrower than [tiny] times its larger end is widened by 5% of
    each end, and any other interval is kept; ends given in decreasing order
    stay in decreasing order. *)
Definition expander : Q := 5 # 100.
Definition tiny : Q := 1 # (10 ^ 15).
Definition float_tiny : Q := 1 # (2 ^ 1022).

(** The magnitude below which both ends count as zero. *)
Definition singular_below : Q := ((inject_Z (10 ^ 6) / tiny) * float_tiny)%Q.

Definition Qlt_bool (a b : Q) : bool := negb (Qle_bool b a).

Definition nonsingular (v0 v1 : Q) : Q * Q :=
  let swapped := Qlt_bool v1 v0 in
  let vmin := if swapped then v1 else v0 in
  let vmax := if swapped then v0 else v1 in
  let maxabsvalue :=
    if Qle_bool (Qabs vmin) (Qabs vmax) then Qabs vmax else Qabs vmin in
  (if Qlt_bool maxabsvalue singular_below then (- expander, expander)
   else if Qle_bool (vmax - vmin) (maxabsvalue * tiny) then
     if Qeq_bool vmax 0 && Qeq_bool vmin 0 then (- expander, expander)
     else (vmin - expander * Qabs vmin, vmax + expander * Qabs vmax)
   else (vmin, vmax))%Q.

(** The limits an axis holds after [set_xlim(v0, v1)]. *)
Definition limits (v0 v1 : Q) : Q * Q :=
  let reverse := Qlt_bool v1 v0 in
  let '(lo, hi) := nonsingular v0 v1 in
  if reverse then (hi, lo) else (lo, hi).

Definition set_xlim (ax : canvas) (lo hi : Q) : canvas :=
  mk_canvas (proj ax) (artists ax) (Some (limits lo hi)) (ylim ax) (zlim ax)
    (xlabel ax) (ylabel ax) (zlabel ax) (title ax) (ticks_in ax) (ticks_both ax).

Definition set_ylim (ax : canvas) (lo hi : Q) : canvas :=
  mk_canvas (proj ax) (artists ax) (xlim ax) (Some (limits lo hi)) (zlim ax)
    (xlabel ax) (ylabel ax) (zlabel ax) (title ax) (ticks_in ax) (ticks_both ax).

(** The z axis belongs to three-dimensional axes.  The axes of
    [fig.add_subplot(111)] have no [set_zlim], no [set_zlabel] and no
    [zaxis]: looking the attribute up raises [AttributeError]. *)
Definition set_zlim (ax : canvas) (lo hi : Q) : result canvas :=
  match proj ax with
  | ThreeD =>
      Ok (mk_canvas (proj ax) (artists ax) (xlim ax) (ylim ax)
            (Some (limits lo hi)) (xlabel ax) (ylabel ax) (zlabel ax)
            (title ax) (ticks_in ax) (ticks_both ax))
  | Rectilinear => Raise AttributeError
  end.

Definition set_xlabel (ax : canvas) (l : string) : canvas :=
  mk_canvas (proj ax) (artists ax) (xlim ax) (ylim ax) (zlim ax)
    (Some l) (ylabel ax) (zlabel ax) (title ax) (ticks_in ax) (ticks_both ax).

Definition set_ylabel (ax : canvas) (l : string) : canvas :=
  mk_canvas (proj ax) (artists ax) (xlim ax) (ylim ax) (zlim ax)
    (xlabel ax) (Some l) (zlabel ax) (title ax) (ticks_in ax) (ticks_both ax).

Definition set_zlabel (ax : canvas) (l : string) : result canvas :=
  match proj ax with
  | ThreeD =>
      Ok (mk_canvas (proj ax) (artists ax) (xlim ax) (ylim ax) (zlim ax)
            (xlabel ax) (ylabel ax) (Some l) (title ax) (ticks_in ax)
            (ticks_both ax))
  | Rectilinear => Raise AttributeError
  end.

(** [ax.set_title("dimensionless t={:0.3f}".format(t))]: the canvas keeps
    the time value; its rendering to three decimals is not embedded. *)
Definition set_title (ax : canvas) (t : Q) : canvas :=
  mk_canvas (proj ax) (artists ax) (xlim ax) (ylim ax) (zlim ax)
    (xlabel ax) (ylabel ax) (zlabel ax) (Some t) (ticks_in ax) (ticks_both ax).

(** [ax.tick_params(axis=a, direction="in")] for [a] one of ["x"], ["y"]. *)
Definition tick_params_in (ax : canvas) (a : string) : canvas :=
  mk_canvas (proj ax) (artists ax) (xlim ax) (ylim ax) (zlim ax)
    (xlabel ax) (ylabel ax) (zlabel ax) (title ax) (ticks_in ax ++ [a])
    (ticks_both ax).

(** [ax.tick_params(axis="z", direction="in")]: two-dimensional axes reject
    the axis name with [ValueError]. *)
Definition tick_params_in_z (ax : canvas) : result canvas :=
  match proj ax with
  | ThreeD => Ok (tick_params_in ax "z")
  | Rectilinear => Raise ValueError
  end.

(** [ax.<a>axis.set_ticks_position('both')] for [a] one of ["x"], ["y"]. *)
Definition set_ticks_position_both (ax : canvas) (a : string) : canvas :=
  mk_canvas (proj ax) (artists ax) (xlim ax) (ylim ax) (zlim ax)
    (xlabel ax) (ylabel ax) (zlabel ax) (title ax) (ticks_in ax)
    (ticks_both ax ++ [a]).

(** [ax.zaxis.set_ticks_position('both')]. *)
Definition zaxis_set_ticks_position_both (ax : canvas) : result canvas :=
  match proj ax with
  | ThreeD => Ok (set_ticks_position_both ax "z")
  | Rectilinear => Raise AttributeError
  end.

(** ** Position arrays

    A numpy array of shape (N, d) is the list of its N rows. [pos[i,k]]
    raises [IndexError] outside the array. *)
Definition item (pos : list (list Q)) (i k : nat) : result Q :=
  match pos !! i with
  | Some row =>
      match row !! k with
      | Some v => Ok v
      | None => Raise IndexError
      end
  | None => Raise IndexError
  end.

(** Arithmetic on an operand that may have raised. *)
Definition radd (a : result Q) (b : Q) : result Q :=
  (x <- a ;; Ok (x + b)%Q)%result.

Definition rsub (a : result Q) (b : Q) : result Q :=
  (x <- a ;; Ok (x - b)%Q)%result.

Notation "a +. b" := (radd a b) (at level 50, left associativity) : result_scope.
Notation "a -. b" := (rsub a b) (at level 50, left associativity) : result_scope.

(** [ax.plot(x, y, fmt)] and [ax.plot(x, y, z, fmt)] on scalars: the
    arguments are evaluated left to right, then the artist is added. *)
Definition plot_xy (ax : canvas) (x y : result Q) (s : style) : result canvas :=
  (x' <- x ;; y' <- y ;; Ok (plot ax (Plot2 [x'] [y'] s)))%result.

Definition plot_xyz (ax : canvas) (x y z : result Q) (s : style)
  : result canvas :=
  (x' <- x ;; y' <- y ;; z' <- z ;; Ok (plot ax (Plot3 [x'] [y'] [z'] s)))%result.

(** [ax.plot([x0, x1], [y0, y1], fmt)] and its three-coordinate form. *)
Definition plot_segment_xy (ax : canvas) (x0 x1 y0 y1 : result Q) (s : style)
  : result canvas :=
  (a0 <- x0 ;; a1 <- x1 ;; b0 <- y0 ;; b1 <- y1 ;;
   Ok (plot ax (Plot2 [a0; a1] [b0; b1] s)))%result.

Definition plot_segment_xyz (ax : canvas) (x0 x1 y0 y1 z0 z1 : result Q)
    (s : style) : result canvas :=
  (a0 <- x0 ;; a1 <- x1 ;; b0 <- y0 ;; b1 <- y1 ;; c0 <- z0 ;; c1 <- z1 ;;
   Ok (plot ax (Plot3 [a0; a1] [b0; b1] [c0; c1] s)))%result.

(** A [for] loop that threads the canvas and stops at the first exception. *)
Fixpoint for_each {A S : Type} (xs : list A) (s : S)
    (body : S -> A -> result S) : result S :=
  match xs with
  | [] => Ok s
  | x :: xs' => (s' <- body s x ;; for_each xs' s' body)%result
  end.

(** ** The renderers *)

Section Renderers.

(** The trajectory provider, [sim.atomic_distances(pos, L)], is outside this
    file.  [rel_pos pos L j i k] stands for the entry [rel_pos[j,i,k]] of the
    first array it returns. *)
Variable rel_pos : list (list Q) -> Q -> nat -> nat -> nat -> Q.

(** Lines 141-153: the markers of particle [i]. *)
Definition plot_pos_2D_particle (pos : list (list Q)) (L : Q)
    (central_box : bool) (ax : canvas) (i : nat) : result canvas :=
  (ax <- (if central_box
          then plot_xy ax (item pos i 0) (item pos i 1) Black_dot
          else plot_xy ax (item pos i 0) (item pos i 1) Red_dot) ;;
   ax <- plot_xy ax (item pos i 0 +. L) (item pos i 1) Red_dot ;;
   ax <- plot_xy ax (item pos i 0) (item pos i 1 +. L) Red_dot ;;
   ax <- plot_xy ax (item pos i 0 +. L) (item pos i 1 +. L) Red_dot ;;
   ax <- plot_xy ax (item pos i 0 -. L) (item pos i 1) Red_dot ;;
   ax <- plot_xy ax (item pos i 0) (item pos i 1 -. L) Red_dot ;;
   ax <- plot_xy ax (item pos i 0 -. L) (item pos i 1 -. L) Red_dot ;;
   ax <- plot_xy ax (item pos i 0 -. L) (item pos i 1 +. L) Red_dot ;;
   plot_xy ax (item pos i 0 +. L) (item pos i 1 -. L) Red_dot)%result.

(** Lines 160-163: the pair lines that start at particle [i]. *)
Definition plot_pos_2D_pairs (pos : list (list Q)) (L : Q)
    (ax : canvas) (i : nat) : result canvas :=
  for_each (seq 0 (length pos)) ax (fun ax j =>
    if Nat.eqb i j then Ok ax
    else plot_segment_xy ax
           (item pos i 0) (item pos i 0 +. rel_pos pos L j i 0)
           (item pos i 1) (item pos i 1 +. rel_pos pos L j i 1)
           Blue_dashed).

Definition plot_pos_2D (ax : canvas) (pos : list (list Q)) (L : Q)
    (central_box relative_pos : bool) : result canvas :=
  (ax <- for_each (seq 0 (length pos)) ax
           (plot_pos_2D_particle pos L central_box) ;;
   ax <- Ok (if central_box
             then plot ax (Plot2 [0; 0; L; L; 0] [0; L; L; 0; 0] Green_line)%Q
             else ax) ;;
   ax <- (if relative_pos
          then for_each (seq 0 (length pos)) ax (plot_pos_2D_pairs pos L)
          else Ok ax) ;;
   let ax := set_xlim ax (- L / 2)%Q (3 * L / 2)%Q in
   let ax := set_ylim ax (- L / 2)%Q (3 * L / 2)%Q in
   let ax := set_xlabel ax "dimensionless x coordinate" in
   let ax := set_ylabel ax "dimensionless y coordinate" in
   let ax := tick_params_in ax "y" in
   let ax := tick_params_in ax "x" in
   let ax := set_ticks_position_both ax "y" in
   let ax := set_ticks_position_both ax "x" in
   Ok ax)%result.

(** Lines 203-246: the markers of particle [i].  With [central_box] the
    true position is plotted by the two-coordinate call. *)
Definition plot_pos_3D_particle (pos : list (list Q)) (L : Q)
    (central_box outer_boxes : bool) (ax : canvas) (i : nat) : result canvas :=
  (ax <- (if central_box
          then plot_xy ax (item pos i 0) (item pos i 1) Black_dot
          else plot_xyz ax (item pos i 0) (item pos i 1) (item pos i 2) Red_dot) ;;
   if outer_boxes then
     ax <- plot_xyz ax (item pos i 0 +. L) (item pos i 1) (item pos i 2) Red_dot ;;
     ax <- plot_xyz ax (item pos i 0) (item pos i 1 +. L) (item pos i 2) Red_dot ;;
     ax <- plot_xyz ax (item pos i 0) (item pos i 1) (item pos i 2 +. L) Red_dot ;;

     ax <- plot_xyz ax (item pos i 0 +. L) (item pos i 1 +. L) (item pos i 2) Red_dot ;;
     ax <- plot_xyz ax (item pos i 0) (item pos i 1 +. L) (item pos i 2 +. L) Red_dot ;;
     ax <- plot_xyz ax (item pos i 0 +. L) (item pos i 1) (item pos i 2 +. L) Red_dot ;;

     ax <- plot_xyz ax (item pos i 0 +. L) (item pos i 1 +. L) (item pos i 2 +. L) Red_dot ;;

     ax <- plot_xyz ax (item pos i 0 -. L) (item pos i 1) (item pos i 2) Red_dot ;;
     ax <- plot_xyz ax (item pos i 0) (item pos i 1 -. L) (item pos i 2) Red_dot ;;
     ax <- plot_xyz ax (item pos i 0) (item pos i 1) (item pos i 2 -. L) Red_dot ;;

     ax <- plot_xyz ax (item pos i 0 -. L) (item pos i 1 -. L) (item pos i 2) Red_dot ;;
     ax <- plot_xyz ax (item pos i 0 -. L) (item pos i 1) (item pos i 2 -. L) Red_dot ;;
     ax <- plot_xyz ax (item pos i 0) (item pos i 1 -. L) (item pos i 2 -. L) Red_dot ;;

     ax <- plot_xyz ax (item pos i 0 -. L) (item pos i 1 -. L) (item pos i 2 -. L) Red_dot ;;

     ax <- plot_xyz ax (item pos i 0 -. L) (item pos i 1 +. L) (item pos i 2) Red_dot ;;
     ax <- plot_xyz ax (item pos i 0 +. L) (item pos i 1 -. L) (item pos i 2) Red_dot ;;
     ax <- plot_xyz ax (item pos i 0 -. L) (item pos i 1) (item pos i 2 +. L) Red_dot ;;
     ax <- plot_xyz ax (item pos i 0 +. L) (item pos i 1) (item pos i 2 -. L) Red_dot ;;
     ax <- plot_xyz ax (item pos i 0) (item pos i 1 +. L) (item pos i 2 -. L) Red_dot ;;
     ax <- plot_xyz ax (item pos i 0) (item pos i 1 -. L) (item pos i 2 +. L) Red_dot ;;

     ax <- plot_xyz ax (item pos i 0 +. L) (item pos i 1 -. L) (item pos i 2 -. L) Red_dot ;;
     ax <- plot_xyz ax (item pos i 0 -. L) (item pos i 1 +. L) (item pos i 2 -. L) Red_dot ;;
     ax <- plot_xyz ax (item pos i 0 -. L) (item pos i 1 -. L) (item pos i 2 +. L) Red_dot ;;

     ax <- plot_xyz ax (item pos i 0 -. L) (item pos i 1 +. L) (item pos i 2 +. L) Red_dot ;;
     ax <- plot_xyz ax (item pos i 0 +. L) (item pos i 1 -. L) (item pos i 2 +. L) Red_dot ;;
     ax <- plot_xyz ax (item pos i 0 +. L) (item pos i 1 +. L) (item pos i 2 -. L) Red_dot ;;

     let ax := set_xlim ax (- L)%Q (2 * L)%Q in
     let ax := set_ylim ax (- L)%Q (2 * L)%Q in
     set_zlim ax (- L)%Q (2 * L)%Q
   else Ok ax)%result.

(** Lines 260-263. *)
Definition plot_pos_3D_pairs (pos : list (list Q)) (L : Q)
    (ax : canvas) (i : nat) : result canvas :=
  for_each (seq 0 (length pos)) ax (fun ax j =>
    if Nat.eqb i j then Ok ax
    else plot_segment_xyz ax
           (item pos i 0) (item pos i 0 +. rel_pos pos L j i 0)
           (item pos i 1) (item pos i 1 +. rel_pos pos L j i 1)
           (item pos i 2) (item pos i 2 +. rel_pos pos L j i 2)
           Blue_dashed).

(** Lines 252-256: the edges of the central cube. *)
Definition plot_cube (ax : canvas) (L : Q) : canvas :=
  let ax := plot ax (Plot3 [0; L; L; 0; 0] [0; 0; L; L; 0] [0; 0; 0; 0; 0] Green_line)%Q in
  let ax := plot ax (Plot3 [0; 0; L; L] [0; 0; 0; 0] [0; L; L; 0] Green_line)%Q in
  let ax := plot ax (Plot3 [0; 0; 0] [0; L; L] [L; L; 0] Green_line)%Q in
  let ax := plot ax (Plot3 [0; L; L] [L; L; L] [L; L; 0] Green_line)%Q in
  plot ax (Plot3 [L; L] [0; L] [L; L] Green_line)%Q.

Definition plot_pos_3D (ax : canvas) (pos : list (list Q)) (L : Q)
    (central_box relative_pos outer_boxes : bool) : result canvas :=
  (ax <- for_each (seq 0 (length pos)) ax
           (plot_pos_3D_particle pos L central_box outer_boxes) ;;
   let ax := set_xlim ax 0%Q L in
   let ax := set_ylim ax 0%Q L in
   ax <- set_zlim ax 0%Q L ;;
   ax <- Ok (if central_box then plot_cube ax L else ax) ;;
   ax <- (if relative_pos
          then for_each (seq 0 (length pos)) ax (plot_pos_3D_pairs pos L)
          else Ok ax) ;;
   let ax := set_xlabel ax "$x/\sigma$" in
   let ax := set_ylabel ax "$y/\sigma$" in
   ax <- set_zlabel ax "($z/\sigma$)" ;;
   let ax := tick_params_in ax "x" in
   let ax := tick_params_in ax "y" in
   ax <- tick_params_in_z ax ;;
   let ax := set_ticks_position_both ax "x" in
   let ax := set_ticks_position_both ax "y" in
   zaxis_set_ticks_position_both ax)%result.

End Renderers.

(** ** The file system and the GIF writer

    [GIF_2D] and [GIF_3D] act on the working directory: they list it, create
    [tmp-plot], save one picture per frame, read the pictures back and
    append them to the GIF that [imageio.get_writer] opened.  The world keeps
    the entries of the working directory, the saved pictures by path, the
    GIFs by path and the trace of the calls.  A picture file holds the canvas
    it was saved from.  Progress messages and [fig.tight_layout()] leave no
    mark on the world. *)

Record animation : Type := mk_animation {
  frames : list canvas;
  duration : Q
}.

Inductive event : Type :=
| Ev_mkdir (d : string)
| Ev_savefig (path : string)
| Ev_imread (path : string)
| Ev_append (gif : string).

Record world : Type := mk_world {
  entries : gset string;
  files : gmap string canvas;
  gifs : gmap string animation;
  events : list event
}.

(** State and exception monad: a raised exception keeps the world reached. *)
Definition M (A : Type) : Type := world -> result A * world.

Definition mret {A : Type} (a : A) : M A := fun w => (Ok a, w).

Definition mbind {A B : Type} (m : M A) (k : A -> M B) : M B :=
  fun w =>
    match m w with
    | (Ok a, w') => k a w'
    | (Raise e, w') => (Raise e, w')
    end.

Definition lift {A : Type} (r : result A) : M A := fun w => (r, w).

Declare Scope M_scope.
Delimit Scope M_scope with M.
Bind Scope M_scope with M.
Notation "x <- m ;; k" := (mbind m (fun x => k))
  (at level 100, m at next level, right associativity) : M_scope.
Notation "m ;; k" := (mbind m (fun _ => k))
  (at level 100, right associativity) : M_scope.

Fixpoint for_each_M {A S : Type} (xs : list A) (s : S)
    (body : S -> A -> M S) : M S :=
  match xs with
  | [] => mret s
  | x :: xs' => (s' <- body s x ;; for_each_M xs' s' body)%M
  end.

Definition log (e : event) (w : world) : world :=
  mk_world (entries w) (files w) (gifs w) (events w ++ [e]).

(** [os.listdir()]. *)
Definition os_listdir : M (gset string) := fun w => (Ok (entries w), w).

(** [os.mkdir(d)]; the program calls it only for an absent entry. *)
Definition os_mkdir (d : string) : M unit :=
  fun w =>
    (Ok tt, log (Ev_mkdir d)
              (mk_world ({[d]} ∪ entries w) (files w) (gifs w) (events w))).

(** [fig.savefig(path)].  Every path the program saves to lies in
    [tmp-plot]; without that directory the call raises.  An entry named
    [tmp-plot] is taken to be a directory. *)
Definition savefig (ax : canvas) (path : string) : M unit :=
  fun w =>
    if decide ("tmp-plot" ∈ entries w)
    then (Ok tt, log (Ev_savefig path)
                   (mk_world (entries w) (<[path := ax]> (files w)) (gifs w)
                      (events w)))
    else (Raise (FileNotFoundError path), w).

(** [imageio.imread(path)]: a missing file raises [FileNotFoundError]. *)
Definition imread (path : string) : M canvas :=
  fun w =>
    match files w !! path with
    | Some image => (Ok image, log (Ev_imread path) w)
    | None => (Raise (FileNotFoundError path), log (Ev_imread path) w)
    end.

(** [imageio.get_writer(gif_name, mode='I', duration=d)]: the file is
    created at once, empty, so the working directory lists it from then on.
    [gif_name] is taken to name a file of the working directory. *)
Definition get_writer (gif_name : string) (d : Q) : M unit :=
  fun w =>
    (Ok tt, mk_world ({[gif_name]} ∪ entries w) (files w)
              (<[gif_name := mk_animation [] d]> (gifs w)) (events w)).

(** [writer.append_data(image)]. *)
Definition append_data (gif_name : string) (image : canvas) : M unit :=
  fun w =>
    (Ok tt, log (Ev_append gif_name)
              (mk_world (entries w) (files w)
                 (alter (fun a => mk_animation (frames a ++ [image]) (duration a))
                    gif_name (gifs w))
                 (events w))).

(** [FileNotFoundError] is a subclass of [OSError], Python's class of
    input/output failures. *)
Definition is_OSError (e : exn) : bool :=
  match e with
  | FileNotFoundError _ => true
  | ZeroDivisionError | IndexError | AttributeError | ValueError => false
  end.

(** ** Formatting

    ["{:05d}".format(f)]: the decimal digits of [f], padded with zeros on
    the left to five characters. *)
Definition decimal (f : nat) : string :=
  NilEmpty.string_of_uint (Nat.to_uint f).

Fixpoint zeros (n : nat) : string :=
  match n with
  | O => EmptyString
  | S n' => String "0" (zeros n')
  end.

Definition format_05d (f : nat) : string :=
  let digits := decimal f in
  String.append (zeros (5 - String.length digits)) digits.

(** [a / b] on integers. *)
Definition truediv (a b : Z) : result Q :=
  if b =? 0 then Raise ZeroDivisionError
  else Ok (inject_Z a / inject_Z b)%Q.

(** [enumerate(l)]. *)
Definition enumerate {A : Type} (l : list A) : list (nat * A) :=
  zip (seq 0 (length l)) l.

(** ** The pipelines *)

Section Pipelines.

Variable rel_pos : list (list Q) -> Q -> nat -> nat -> nat -> Q.

(** [sim.load_data(data_file)] of the trajectory provider: the time values,
    the positions per timestep and the velocities per timestep. *)
Variable load_data :
  string -> list Q * list (list (list Q)) * list (list (list Q)).

(** Lines 34-35 and 88-89. *)
Definition ensure_tmp_plot : M unit :=
  (listing <- os_listdir ;;
   if decide ("tmp-plot" ∈ listing) then mret tt else os_mkdir "tmp-plot")%M.

(** Lines 42-49: one iteration of the loop over [enumerate(save_frame)]. *)
Definition save_one_frame_2D (time : list Q) (pos : list (list (list Q)))
    (box_dim : Q) (ax : canvas) (ft : nat * Z) : M canvas :=
  let '(f, t) := ft in
  (pos_t <- lift (getitem pos t) ;;
   ax <- lift (plot_pos_2D rel_pos ax pos_t box_dim true false) ;;
   time_t <- lift (getitem time t) ;;
   let ax := set_title ax time_t in
   savefig ax ("tmp-plot/pair_int_2D" +:+ format_05d f +:+ ".png") ;;
   mret (cla ax))%M.

(** Lines 55-58: the writer is opened with the frame duration, then the
    files are read in the order of [range(len(save_frame))]. *)
Definition build_gif_2D (gif_name : string) (num_frames : Z) (n : nat)
  : M unit :=
  (d <- lift (truediv 3 num_frames) ;;
   get_writer gif_name d ;;
   for_each_M
     (map (fun f => "tmp-plot/pair_int_2D" +:+ format_05d f +:+ ".png")
        (seq 0 n))
     tt
     (fun _ filename =>
        image <- imread filename ;; append_data gif_name image))%M.

Definition GIF_2D (gif_name data_file : string) (num_frames : Z) (box_dim : Q)
  : M unit :=
  let '(time, pos, vel) := load_data data_file in
  let num_tsteps := Z.of_nat (length time) in
  (plan <- lift (save_frame num_tsteps num_frames) ;;
   ensure_tmp_plot ;;
   let ax := add_subplot Rectilinear in
   for_each_M (enumerate plan) ax (save_one_frame_2D time pos box_dim) ;;
   build_gif_2D gif_name num_frames (length plan))%M.

(** Lines 96-103. *)
Definition save_one_frame_3D (time : list Q) (pos : list (list (list Q)))
    (box_dim : Q) (ax : canvas) (ft : nat * Z) : M canvas :=
  let '(f, t) := ft in
  (pos_t <- lift (getitem pos t) ;;
   ax <- lift (plot_pos_3D rel_pos ax pos_t box_dim true false false) ;;
   time_t <- lift (getitem time t) ;;
   let ax := set_title ax time_t in
   savefig ax ("tmp-plot/pair_int_3D" +:+ format_05d f +:+ ".png") ;;
   mret (cla ax))%M.

(** Lines 109-112. *)
Definition build_gif_3D (gif_name : string) (num_frames : Z) (n : nat)
  : M unit :=
  (d <- lift (truediv 3 num_frames) ;;
   get_writer gif_name d ;;
   for_each_M
     (map (fun f => "tmp-plot/pair_int_3D" +:+ format_05d f +:+ ".png")
        (seq 0 n))
     tt
     (fun _ filename =>
        image <- imread filename ;; append_data gif_name image))%M.

Definition GIF_3D (gif_name data_file : string) (num_frames : Z) (box_dim : Q)
  : M unit :=
  let '(time, pos, vel) := load_data data_file in
  let num_tsteps := Z.of_nat (length time) in
  (plan <- lift (save_frame num_tsteps num_frames) ;;
   ensure_tmp_plot ;;
   let ax := add_subplot ThreeD in
   for_each_M (enumerate plan) ax (save_one_frame_3D time pos box_dim) ;;
   build_gif_3D gif_name num_frames (length plan))%M.

End Pipelines.

(** ** The two pipelines as one

    [GIF_2D] and [GIF_3D] have the same text up to the projection of the
    axes, the renderer called and the tag in the file names.  [GIF_with]
    takes the three as parameters; it is compared with the two embeddings
    above. *)

Definition frame_name (tag : string) (f : nat) : string :=
  "tmp-plot/pair_int_" +:+ tag +:+ format_05d f +:+ ".png".

Section Generic.

Variable load_data :
  string -> list Q * list (list (list Q)) * list (list (list Q)).
Variable p : projection.
Variable render : canvas -> list (list Q) -> Q -> result canvas.
Variable tag : string.

Definition save_one_frame_with (time : list Q) (pos : list (list (list Q)))
    (box_dim : Q) (ax : canvas) (ft : nat * Z) : M canvas :=
  let '(f, t) := ft in
  (pos_t <- lift (getitem pos t) ;;
   ax <- lift (render ax pos_t box_dim) ;;
   time_t <- lift (getitem time t) ;;
   let ax := set_title ax time_t in
   savefig ax (frame_name tag f) ;;
   mret (cla ax))%M.

Definition build_gif_with (gif_name : string) (num_frames : Z) (n : nat)
  : M unit :=
  (d <- lift (truediv 3 num_frames) ;;
   get_writer gif_name d ;;
   for_each_M (map (frame_name tag) (seq 0 n)) tt
     (fun _ filename =>
        image <- imread filename ;; append_data gif_name image))%M.

Definition GIF_with (gif_name data_file : string) (num_frames : Z) (box_dim : Q)
  : M unit :=
  let '(time, pos, vel) := load_data data_file in
  let num_tsteps := Z.of_nat (length time) in
  (plan <- lift (save_frame num_tsteps num_frames) ;;
   ensure_tmp_plot ;;
   let ax := add_subplot p in
   for_each_M (enumerate plan) ax (save_one_frame_with time pos box_dim) ;;
   build_gif_with gif_name num_frames (length plan))%M.

(** The picture of timestep [t]: what one iteration of the frame loop
    saves, starting from empty axes. *)
Definition frame_with (time : list Q) (pos : list (list (list Q)))
    (box_dim : Q) (t : Z) : result canvas :=
  (pos_t <- getitem pos t ;;
   ax <- render (add_subplot p) pos_t box_dim ;;
   time_t <- getitem time t ;;
   Ok (set_title ax time_t))%result.

End Generic.

(** The renderers as the pipelines call them, with the default flags. *)
Definition render_2D (rel_pos : list (list Q) -> Q -> nat -> nat -> nat -> Q)
    (ax : canvas) (pos_t : list (list Q)) (box_dim : Q) : result canvas :=
  plot_pos_2D rel_pos ax pos_t box_dim true false.

Definition render_3D (rel_pos : list (list Q) -> Q -> nat -> nat -> nat -> Q)
    (ax : canvas) (pos_t : list (list Q)) (box_dim : Q) : result canvas :=
  plot_pos_3D rel_pos ax pos_t box_dim true false false.

(** Successive writes to the picture files. *)
Definition write_all (m : gmap string canvas) (kvs : list (string * canvas))
  : gmap string canvas :=
  foldl (fun m kv => <[fst kv := snd kv]> m) m kvs.

(** Reading a frame number back from its five or more digits. *)
Definition parse_index (s : string) : option nat :=
  option_map Nat.of_uint (NilEmpty.uint_of_string s).

(** The paths given to [savefig] and to [imread], in call order. *)
Definition saved (evs : list event) : list string :=
  omap (fun e => match e with Ev_savefig path => Some path | _ => None end) evs.

Definition read (evs : list event) : list string :=
  omap (fun e => match e with Ev_imread path => Some path | _ => None end) evs.

(** The body of the read loop of the assemblers (lines 57-58, 111-112). *)
Definition read_and_append (gif_name : string) (_ : unit) (filename : string)
  : M unit :=
  (image <- imread filename ;; append_data gif_name image)%M.

(** The picture of timestep [t] is rendered and its axes keep the
    projection they were created with. *)
Definition frame_ok (p : projection)
    (render : canvas -> list (list Q) -> Q -> result canvas)
    (time : list Q) (pos : list (list (list Q))) (box_dim : Q)
    (t : Z) (c : canvas) : Prop :=
  frame_with p render time pos box_dim t = Ok c /\ proj c = p.

(** ** The time-series charts (lines 281-422)

    [E_vs_t], [E_conservation] and [reldist_vs_t] build one chart each and
    show it.  The embedding returns the chart that [plt.show()] displays.
    Besides [IndexError] these functions can raise the [ValueError] of
    [np.max] on an empty array. *)

(** One [ax.plot(x, y, "-", color=..., label=...)] call.  A plotted value
    is [None] where the float is not finite. *)
Record curve : Type := mk_curve {
  curve_x : list Q;
  curve_y : list (option Q);
  curve_color : string;
  curve_label : option string
}.

Record chart : Type := mk_chart {
  curves : list curve;
  legend : bool;
  chart_xlim : option (Q * Q);
  chart_xlabel : option string;
  chart_ylabel : option string;
  chart_ticks_in : list string;
  chart_ticks_both : list string
}.

Definition empty_chart : chart := mk_chart [] false None None None [] [].

Definition chart_plot (ax : chart) (c : curve) : chart :=
  mk_chart (curves ax ++ [c]) (legend ax) (chart_xlim ax) (chart_xlabel ax)
    (chart_ylabel ax) (chart_ticks_in ax) (chart_ticks_both ax).

Definition chart_legend (ax : chart) : chart :=
  mk_chart (curves ax) true (chart_xlim ax) (chart_xlabel ax)
    (chart_ylabel ax) (chart_ticks_in ax) (chart_ticks_both ax).

Definition chart_set_xlim (ax : chart) (lo hi : Q) : chart :=
  mk_chart (curves ax) (legend ax) (Some (limits lo hi)) (chart_xlabel ax)
    (chart_ylabel ax) (chart_ticks_in ax) (chart_ticks_both ax).

(** The labels and ticks every chart ends with: [set_xlabel], [set_ylabel],
    [tick_params] for y then x, [set_ticks_position('both')] for y then x. *)
Definition chart_decorate (ax : chart) (xl yl : string) : chart :=
  mk_chart (curves ax) (legend ax) (chart_xlim ax) (Some xl) (Some yl)
    (chart_ticks_in ax ++ ["y"; "x"]) (chart_ticks_both ax ++ ["y"; "x"]).

(** [a[k]] for the [k] of an [enumerate]. *)
Definition at_index {A : Type} (l : list A) (k : nat) : result A :=
  match l !! k with
  | Some a => Ok a
  | None => Raise IndexError
  end.

(** [np.max(a)]: the largest entry; an empty array raises [ValueError]. *)
Definition np_max (l : list Q) : result Q :=
  match l with
  | [] => Raise ValueError
  | x :: l' => Ok (fold_left (fun m y => if Qle_bool m y then y else m) l' x)
  end.

(** [np.average(a)]: the mean; of an empty array it is not a number. *)
Definition np_average (l : list Q) : option Q :=
  match l with
  | [] => None
  | _ => Some (fold_right Qplus 0%Q l / inject_Z (Z.of_nat (length l)))%Q
  end.

(** [(E - avg) / E] on arrays: entry by entry, not finite where the divisor
    is zero or the average is not a number. *)
Definition relative_deviation (avg : option Q) (E : list Q) : list (option Q) :=
  map (fun e =>
         match avg with
         | Some a => if Qeq_bool e 0 then None else Some ((e - a) / e)%Q
         | None => None
         end) E.

(** ["{}".format(i)] on an integer. *)
Definition format_int (i : Z) : string := NilEmpty.string_of_int (Z.to_int i).

Section Charts.

(** The trajectory provider: [sim.load_data], [sim.kinetic_energy],
    [sim.potential_energy], [sim.total_energy]; and [np.linalg.norm]. *)
Variable load_data :
  string -> list Q * list (list (list Q)) * list (list (list Q)).
Variable kinetic_energy : list (list Q) -> Q.
Variable potential_energy : list (list Q) -> Q -> Q.
Variable total_energy : list (list Q) -> list (list Q) -> Q -> Q.
Variable norm : list Q -> Q.

(** Lines 304-307: one iteration, on the lists
    [(E_total, E_kinetic, E_potential)]. *)
Definition E_vs_t_step (pos vel : list (list (list Q))) (box_dim : Q)
    (acc : list Q * list Q * list Q) (k : nat)
  : result (list Q * list Q * list Q) :=
  let '(E_total, E_kinetic, E_potential) := acc in
  (vel_k <- at_index vel k ;;
   let E_kinetic := E_kinetic ++ [kinetic_energy vel_k] in
   pos_k <- at_index pos k ;;
   let E_potential := E_potential ++ [potential_energy pos_k box_dim] in
   ek <- getitem E_kinetic (-1) ;;
   ep <- getitem E_potential (-1) ;;
   Ok (E_total ++ [(ek + ep)%Q], E_kinetic, E_potential))%result.

Definition E_vs_t (data_file : string) (box_dim : Q) (kinetic_potential : bool)
  : result chart :=
  let '(time, pos, vel) := load_data data_file in
  (series <- for_each (seq 0 (length time)) ([], [], [])
               (E_vs_t_step pos vel box_dim) ;;
   let '(E_total, E_kinetic, E_potential) := series in
   let ax := empty_chart in
   let ax := chart_plot ax
               (mk_curve time (map Some E_total) "black" (Some "total E")) in
   let ax :=
     if kinetic_potential then
       let ax := chart_plot ax
                   (mk_curve time (map Some E_kinetic) "red" (Some "kinetic E")) in
       let ax := chart_plot ax
                   (mk_curve time (map Some E_potential) "blue"
                      (Some "potential E")) in
       chart_legend ax
     else ax in
   latest <- np_max time ;;
   let ax := chart_set_xlim ax 0%Q latest in
   Ok (chart_decorate ax "dimensionless time" "dimensionless energy"))%result.

(** Lines 353-354. *)
Definition E_conservation_step (pos vel : list (list (list Q))) (box_dim : Q)
    (E_total : list Q) (k : nat) : result (list Q) :=
  (pos_k <- at_index pos k ;;
   vel_k <- at_index vel k ;;
   Ok (E_total ++ [total_energy pos_k vel_k box_dim]))%result.

Definition E_conservation (data_file : string) (box_dim : Q) : result chart :=
  let '(time, pos, vel) := load_data data_file in
  (E_total <- for_each (seq 0 (length time)) []
                (E_conservation_step pos vel box_dim) ;;
   let rel_AE := relative_deviation (np_average E_total) E_total in
   let ax := empty_chart in
   let ax := chart_plot ax (mk_curve time rel_AE "black" None) in
   latest <- np_max time ;;
   let ax := chart_set_xlim ax 0%Q latest in
   Ok (chart_decorate ax "dimensionless time" "relative energy difference"))%result.

(** Lines 403-404: [pos[k, i, :] - pos[k, j, :]], then its norm. *)
Definition reldist_vs_t_step (pos : list (list (list Q))) (i j : Z)
    (rel_dist : list Q) (k : nat) : result (list Q) :=
  (pos_k <- at_index pos k ;;
   row_i <- getitem pos_k i ;;
   row_j <- getitem pos_k j ;;
   Ok (rel_dist ++ [norm (zip_with Qminus row_i row_j)]))%result.

Definition reldist_vs_t (data_file : string) (i j : Z) (box_dim : Q)
  : result chart :=
  let '(time, pos, vel) := load_data data_file in
  (rel_dist <- for_each (seq 0 (length time)) []
                 (reldist_vs_t_step pos i j) ;;
   let ax := empty_chart in
   let ax := chart_plot ax (mk_curve time (map Some rel_dist) "black" None) in
   Ok (chart_decorate ax "dimensionless time"
           ("relative_distance(i=" +:+ format_int i +:+ ",j=" +:+ format_int j
              +:+ ")/$\sigma$")))%result.

End Charts.

(** ** Closed forms used in the statements *)

(** One entry of the sample plan: the value of
    [int(i*(num_tsteps-1)/(num_frames-1))]. *)
Definition sample (num_tsteps num_frames i : Z) : Z :=
  let a := i * (num_tsteps - 1) in
  let b := num_frames - 1 in
  Z.sgn a * Z.sgn b * int_truediv_binary64 (Z.abs a) (Z.abs b).

Definition plan_of (num_tsteps num_frames : Z) : list Z :=
  map (sample num_tsteps num_frames) (range (num_frames - 1))
    ++ [num_tsteps - 1].

(** The plan in the words of the specification: the quotients rounded down,
    then the final index. *)
Definition floor_plan (num_tsteps num_frames : Z) : list Z :=
  map (fun i => i * (num_tsteps - 1) / (num_frames - 1))
    (range (num_frames - 1))
    ++ [num_tsteps - 1].

(** Column [k] of a row. *)
Definition col (k : nat) (row : list Q) : Q := nth k row 0%Q.

(** The canvas after a sequence of [ax.plot] calls. *)
Definition plot_all (ax : canvas) (l : list artist) : canvas :=
  mk_canvas (proj ax) (artists ax ++ l) (xlim ax) (ylim ax) (zlim ax)
    (xlabel ax) (ylabel ax) (zlabel ax) (title ax) (ticks_in ax) (ticks_both ax).

(** The artists each renderer adds for one particle, in drawing order. *)
Definition particle_artists_2D (L : Q) (central_box : bool) (row : list Q)
  : list artist :=
  let x := col 0 row in
  let y := col 1 row in
  [ Plot2 [x] [y] (if central_box then Black_dot else Red_dot);
    Plot2 [x + L] [y] Red_dot;
    Plot2 [x] [y + L] Red_dot;
    Plot2 [x + L] [y + L] Red_dot;
    Plot2 [x - L] [y] Red_dot;
    Plot2 [x] [y - L] Red_dot;
    Plot2 [x - L] [y - L] Red_dot;
    Plot2 [x - L] [y + L] Red_dot;
    Plot2 [x + L] [y - L] Red_dot ]%Q.

Definition outer_artists_3D (L : Q) (row : list Q) : list artist :=
  let x := col 0 row in
  let y := col 1 row in
  let z := col 2 row in
  [ Plot3 [x + L] [y] [z] Red_dot;
    Plot3 [x] [y + L] [z] Red_dot;
    Plot3 [x] [y] [z + L] Red_dot;
    Plot3 [x + L] [y + L] [z] Red_dot;
    Plot3 [x] [y + L] [z + L] Red_dot;
    Plot3 [x + L] [y] [z + L] Red_dot;
    Plot3 [x + L] [y + L] [z + L] Red_dot;
    Plot3 [x - L] [y] [z] Red_dot;
    Plot3 [x] [y - L] [z] Red_dot;
    Plot3 [x] [y] [z - L] Red_dot;
    Plot3 [x - L] [y - L] [z] Red_dot;
    Plot3 [x - L] [y] [z - L] Red_dot;
    Plot3 [x] [y - L] [z - L] Red_dot;
    Plot3 [x - L] [y - L] [z - L] Red_dot;
    Plot3 [x - L] [y + L] [z] Red_dot;
    Plot3 [x + L] [y - L] [z] Red_dot;
    Plot3 [x - L] [y] [z + L] Red_dot;
    Plot3 [x + L] [y] [z - L] Red_dot;
    Plot3 [x] [y + L] [z - L] Red_dot;
    Plot3 [x] [y - L] [z + L] Red_dot;
    Plot3 [x + L] [y - L] [z - L] Red_dot;
    Plot3 [x - L] [y + L] [z - L] Red_dot;
    Plot3 [x - L] [y - L] [z + L] Red_dot;
    Plot3 [x - L] [y + L] [z + L] Red_dot;
    Plot3 [x + L] [y - L] [z + L] Red_dot;
    Plot3 [x + L] [y + L] [z - L] Red_dot ]%Q.

Definition particle_artists_3D (L : Q) (central_box outer_boxes : bool)
    (row : list Q) : list artist :=
  (if central_box
   then Plot2 [col 0 row] [col 1 row] Black_dot
   else Plot3 [col 0 row] [col 1 row] [col 2 row] Red_dot)
  :: (if outer_boxes then outer_artists_3D L row else []).

(** ** Image positions, read off a canvas *)

(** On two-dimensional axes a marker is a [Plot2] of one point. *)
Definition marker_position_2D (a : artist) : option (Q * Q) :=
  match a with
  | Plot2 [x] [y] s => if is_marker s then Some (x, y) else None
  | _ => None
  end.

(** On three-dimensional axes the call with two data arguments draws at
    height zero (the default [zs=0] of [Axes3D.plot]). *)
Definition marker_position_3D (a : artist) : option (Q * Q * Q) :=
  match a with
  | Plot3 [x] [y] [z] s => if is_marker s then Some (x, y, z) else None
  | Plot2 [x] [y] s => if is_marker s then Some (x, y, 0%Q) else None
  | _ => None
  end.

Definition marker_positions_2D (ax : canvas) : list (Q * Q) :=
  omap marker_position_2D (artists ax).

Definition marker_positions_3D (ax : canvas) : list (Q * Q * Q) :=
  omap marker_position_3D (artists ax).

(** ** The replica offset sets of the specification *)

Inductive shift : Type :=
| Stay
| Plus_L
| Minus_L.

Definition shifts : list shift := [Stay; Plus_L; Minus_L].

Definition shifted (L : Q) (s : shift) (x : Q) : Q :=
  match s with
  | Stay => x
  | Plus_L => (x + L)%Q
  | Minus_L => (x - L)%Q
  end.

Global Instance shift_eq_dec : EqDecision shift.
Proof. solve_decision. Defined.

(** All offset combinations of {-L, 0, +L}^2 and of {-L, 0, +L}^3. *)
Definition all_shifts_2D : list (shift * shift) :=
  flat_map (fun sx => map (fun sy => (sx, sy)) shifts) shifts.

Definition all_shifts_3D : list (shift * shift * shift) :=
  flat_map (fun sx =>
    flat_map (fun sy => map (fun sz => (sx, sy, sz)) shifts) shifts) shifts.

Definition shift_point_2D (L : Q) (row : list Q) (s : shift * shift) : Q * Q :=
  (shifted L (fst s) (col 0 row), shifted L (snd s) (col 1 row)).

Definition shift_point_3D (L : Q) (row : list Q) (s : shift * shift * shift)
  : Q * Q * Q :=
  (shifted L (fst (fst s)) (col 0 row), shifted L (snd (fst s)) (col 1 row),
   shifted L (snd s) (col 2 row)).

(** The images of one particle under every offset combination. *)
Definition images_2D (L : Q) (row : list Q) : list (Q * Q) :=
  map (shift_point_2D L row) all_shifts_2D.

Definition images_3D (L : Q) (row : list Q) : list (Q * Q * Q) :=
  map (shift_point_3D L row) all_shifts_3D.

(** The offsets in the order in which the renderers draw them. *)
Definition drawn_shifts_2D : list (shift * shift) :=
  [ (Stay, Stay); (Plus_L, Stay); (Stay, Plus_L); (Plus_L, Plus_L);
    (Minus_L, Stay); (Stay, Minus_L); (Minus_L, Minus_L);
    (Minus_L, Plus_L); (Plus_L, Minus_L) ].

Definition drawn_shifts_3D : list (shift * shift * shift) :=
  [ (Stay, Stay, Stay);
    (Plus_L, Stay, Stay); (Stay, Plus_L, Stay); (Stay, Stay, Plus_L);
    (Plus_L, Plus_L, Stay); (Stay, Plus_L, Plus_L); (Plus_L, Stay, Plus_L);
    (Plus_L, Plus_L, Plus_L);
    (Minus_L, Stay, Stay); (Stay, Minus_L, Stay); (Stay, Stay, Minus_L);
    (Minus_L, Minus_L, Stay); (Minus_L, Stay, Minus_L); (Stay, Minus_L, Minus_L);
    (Minus_L, Minus_L, Minus_L);
    (Minus_L, Plus_L, Stay); (Plus_L, Minus_L, Stay); (Minus_L, Stay, Plus_L);
    (Plus_L, Stay, Minus_L); (Stay, Plus_L, Minus_L); (Stay, Minus_L, Plus_L);
    (Plus_L, Minus_L, Minus_L); (Minus_L, Plus_L, Minus_L);
    (Minus_L, Minus_L, Plus_L);
    (Minus_L, Plus_L, Plus_L); (Plus_L, Minus_L, Plus_L);
    (Plus_L, Plus_L, Minus_L) ].

(** ** Pair lines, read off a canvas *)

(** A dashed line through two points, as its start and its end. *)
Definition segment_of (a : artist) : option (list Q * list Q) :=
  match a with
  | Plot2 [a0; a1] [b0; b1] Blue_dashed => Some ([a0; b0], [a1; b1])
  | Plot3 [a0; a1] [b0; b1] [c0; c1] Blue_dashed =>
      Some ([a0; b0; c0], [a1; b1; c1])
  | _ => None
  end.

Definition segments (ax : canvas) : list (list Q * list Q) :=
  omap segment_of (artists ax).

(** The displacement [rel_pos[j,i,:]] in [d] dimensions. *)
Definition displacement (rel_pos : list (list Q) -> Q -> nat -> nat -> nat -> Q)
    (pos : list (list Q)) (L : Q) (d j i : nat) : list Q :=
  map (rel_pos pos L j i) (seq 0 d).

Definition vec_add (p q : list Q) : list Q := zip_with Qplus p q.

(** For every ordered pair of distinct particles, the segment from the
    position of [i] to that position plus the displacement of [j]. *)
Definition pair_segments (rel_pos : list (list Q) -> Q -> nat -> nat -> nat -> Q)
    (pos : list (list Q)) (L : Q) (d : nat) : list (list Q * list Q) :=
  flat_map (fun i =>
    flat_map (fun j =>
      if Nat.eqb i j then []
      else [ (nth i pos [],
              vec_add (nth i pos []) (displacement rel_pos pos L d j i)) ])
      (seq 0 (length pos)))
    (seq 0 (length pos)).

(** A provider that reports no displacement, for the examples. *)
Definition no_displacement : list (list Q) -> Q -> nat -> nat -> nat -> Q :=
  fun _ _ _ _ _ => 0%Q.

(** The canvas with other axis limits. *)
Definition with_lims (ax : canvas) (xl yl zl : option (Q * Q)) : canvas :=
  mk_canvas (proj ax) (artists ax) xl yl zl
    (xlabel ax) (ylabel ax) (zlabel ax) (title ax) (ticks_in ax) (ticks_both ax).

(** The outline of the central cell. *)
Definition square (L : Q) : artist :=
  Plot2 [0; 0; L; L; 0]%Q [0; L; L; 0; 0]%Q Green_line.

Definition cube (L : Q) : list artist :=
  [ Plot3 [0; L; L; 0; 0] [0; 0; L; L; 0] [0; 0; 0; 0; 0] Green_line;
    Plot3 [0; 0; L; L] [0; 0; 0; 0] [0; L; L; 0] Green_line;
    Plot3 [0; 0; 0] [0; L; L] [L; L; 0] Green_line;
    Plot3 [0; L; L] [L; L; L] [L; L; 0] Green_line;
    Plot3 [L; L] [0; L] [L; L] Green_line ]%Q.

(** The pair line from particle [i] toward particle [j]. *)
Definition pair_line_2D (rel_pos : list (list Q) -> Q -> nat -> nat -> nat -> Q)
    (pos : list (list Q)) (L : Q) (i j : nat) : artist :=
  let row := nth i pos [] in
  Plot2 [col 0 row; col 0 row + rel_pos pos L j i 0%nat]%Q
        [col 1 row; col 1 row + rel_pos pos L j i 1%nat]%Q Blue_dashed.

Definition pair_line_3D (rel_pos : list (list Q) -> Q -> nat -> nat -> nat -> Q)
    (pos : list (list Q)) (L : Q) (i j : nat) : artist :=
  let row := nth i pos [] in
  Plot3 [col 0 row; col 0 row + rel_pos pos L j i 0%nat]%Q
        [col 1 row; col 1 row + rel_pos pos L j i 1%nat]%Q
        [col 2 row; col 2 row + rel_pos pos L j i 2%nat]%Q Blue_dashed.

(** One line per ordered pair of distinct particles, [i] outermost. *)
Definition pair_lines (line : nat -> nat -> artist) (n : nat) : list artist :=
  flat_map (fun i =>
    flat_map (fun j => if Nat.eqb i j then [] else [line i j]) (seq 0 n))
    (seq 0 n).

(** Limits, labels and ticks as [plot_pos_2D] leaves them (lines 165-175). *)
Definition decorate_2D (L : Q) (ax : canvas) : canvas :=
  let ax := set_xlim ax (- L / 2)%Q (3 * L / 2)%Q in
  let ax := set_ylim ax (- L / 2)%Q (3 * L / 2)%Q in
  let ax := set_xlabel ax "dimensionless x coordinate" in
  let ax := set_ylabel ax "dimensionless y coordinate" in
  let ax := tick_params_in ax "y" in
  let ax := tick_params_in ax "x" in
  let ax := set_ticks_position_both ax "y" in
  set_ticks_position_both ax "x".

(** Labels and ticks as [plot_pos_3D] leaves them on three-dimensional
    axes (lines 266-276). *)
Definition decorate_3D (ax : canvas) : canvas :=
  mk_canvas (proj ax) (artists ax) (xlim ax) (ylim ax) (zlim ax)
    (Some "$x/\sigma$") (Some "$y/\sigma$") (Some "($z/\sigma$)") (title ax)
    (((ticks_in ax ++ ["x"]) ++ ["y"]) ++ ["z"])
    (((ticks_both ax ++ ["x"]) ++ ["y"]) ++ ["z"]).

(** ** Example inputs *)

(** Five timesteps of one particle in two and three columns. *)
Definition example_2D : list Q * list (list (list Q)) * list (list (list Q)) :=
  ([0; 1; 2; 3; 4],
   [[[1; 2]]; [[2; 3]]; [[3; 4]]; [[4; 5]]; [[5; 6]]],
   [[[1; 1]]; [[1; 1]]; [[1; 1]]; [[1; 1]]; [[1; 1]]])%Q.

Definition example_3D : list Q * list (list (list Q)) * list (list (list Q)) :=
  ([0; 1; 2; 3; 4],
   [[[1; 2; 3]]; [[2; 3; 4]]; [[3; 4; 5]]; [[4; 5; 6]]; [[5; 6; 7]]],
   [[[1; 1; 1]]; [[1; 1; 1]]; [[1; 1; 1]]; [[1; 1; 1]]; [[1; 1; 1]]])%Q.

Definition empty_world : world := mk_world ∅ ∅ ∅ [].

(** The working directory after a run of [GIF_2D] over five frames, with
    the file of frame 2 deleted and the trace reset. *)
Definition gapped_world : world :=
  let w := snd (GIF_2D no_displacement (fun _ => example_2D)
                  "out.gif" "data.csv" 5 10%Q empty_world) in
  mk_world (entries w) (delete "tmp-plot/pair_int_2D00002.png" (files w))
    (gifs w) [].

(** The trajectory invariant of the specification, with the shape the
    pipelines read: the sequences are co-indexed, there is at least one
    timestep, and every particle has the two columns that the renderers
    read under their default flags. *)
Definition well_formed (time : list Q) (pos : list (list (list Q))) : Prop :=
  length pos = length time
  /\ time <> []
  /\ Forall (Forall (fun row => 2 <= length row)%nat) pos.

(** The scenario of the specification: 101 timesteps of one particle that
    moves along the diagonal, the time of step [t] being [t]. *)
Definition example_101 : list Q * list (list (list Q)) * list (list (list Q)) :=
  (map inject_Z (range 101),
   map (fun t => [[inject_Z t; inject_Z t]]) (range 101),
   map (fun _ => [[1; 1]]%Q) (range 101)).

(** ** The worlds a run goes through *)

(** After lines 34-35: [tmp-plot] exists. *)
Definition after_ensure (w : world) : world :=
  if decide ("tmp-plot" ∈ entries w) then w
  else mk_world ({["tmp-plot"]} ∪ entries w) (files w) (gifs w)
         (events w ++ [Ev_mkdir "tmp-plot"]).

(** After the frame loop has saved the pictures [cs]. *)
Definition after_frames (tag : string) (cs : list canvas) (w : world) : world :=
  let w1 := after_ensure w in
  let names := map (frame_name tag) (seq 0 (length cs)) in
  mk_world (entries w1) (write_all (files w1) (zip names cs)) (gifs w1)
    (events w1 ++ map Ev_savefig names).

(** After the read loop has appended the pictures [cs] to the GIF. *)
Definition after_build (tag gif_name : string) (num_frames : Z)
    (cs : list canvas) (w : world) : world :=
  let names := map (frame_name tag) (seq 0 (length cs)) in
  mk_world ({[gif_name]} ∪ entries w) (files w)
    (<[gif_name := mk_animation cs (inject_Z 3 / inject_Z num_frames)%Q]> (gifs w))
    (events w
       ++ flat_map (fun name => [Ev_imread name; Ev_append gif_name]) names).

(** ** Closed forms of the charts *)

(** The indices Python accepts on a sequence of [n] items, and the item a
    (possibly negative) index selects. *)
Definition in_bounds (n : nat) (i : Z) : bool :=
  (- Z.of_nat n <=? i) && (i <? Z.of_nat n).

Definition wrap (n : nat) (i : Z) : nat :=
  Z.to_nat (if 0 <=? i then i else Z.of_nat n + i).

Definition particle (pos_k : list (list Q)) (i : Z) : list Q :=
  default [] (pos_k !! wrap (length pos_k) i).

(** The chart once labels and ticks are set. *)
Definition finished_chart (cs : list curve) (lg : bool) (xlim : option (Q * Q))
    (yl : string) : chart :=
  mk_chart cs lg xlim (Some "dimensionless time") (Some yl)
    ["y"; "x"] ["y"; "x"].

Definition energy_curves (time : list Q) (E_total E_kinetic E_potential : list Q)
    (kinetic_potential : bool) : list curve :=
  mk_curve time (map Some E_total) "black" (Some "total E")
  :: (if kinetic_potential then
        [mk_curve time (map Some E_kinetic) "red" (Some "kinetic E");
         mk_curve time (map Some E_potential) "blue" (Some "potential E")]
      else []).

Definition reldist_label (i j : Z) : string :=
  "relative_distance(i=" +:+ format_int i +:+ ",j=" +:+ format_int j
    +:+ ")/$\sigma$".

(** A two-step trajectory of two particles in the plane, and simple
    providers, to run the charts on. *)
Definition example_time : list Q := [0; 1 # 2]%Q.
Definition example_pos : list (list (list Q)) :=
  [[[0; 0]; [3; 4]]; [[1; 1]; [1; 3]]]%Q.
Definition example_vel : list (list (list Q)) :=
  [[[1; 0]; [0; 1]]; [[0; 2]; [2; 0]]]%Q.
Definition example_load_data (data_file : string)
  : list Q * list (list (list Q)) * list (list (list Q)) :=
  (example_time, example_pos, example_vel).
Definition sum_of_squares (rows : list (list Q)) : Q :=
  fold_right Qplus 0%Q (map (fun x => x * x)%Q (concat rows)).
Definition example_kinetic_energy (vel_k : list (list Q)) : Q :=
  ((1 # 2) * sum_of_squares vel_k)%Q.
Definition example_potential_energy (pos_k : list (list Q)) (box_dim : Q) : Q :=
  (box_dim - sum_of_squares pos_k)%Q.
Definition example_total_energy (pos_k vel_k : list (list Q)) (box_dim : Q) : Q :=
  (example_kinetic_energy vel_k + example_potential_energy pos_k box_dim)%Q.
Definition example_norm (v : list Q) : Q :=
  fold_right Qplus 0%Q (map (fun x => x * x)%Q v).
Definition short_load_data (data_file : string)
  : list Q * list (list (list Q)) * list (list (list Q)) :=
  (example_time, take 1 example_pos, example_vel).
Definition empty_load_data (data_file : string)
  : list Q * list (list (list Q)) * list (list (list Q)) :=
  ([], [], []).
(** ** The float quotient of the sampler *)

Example int_truediv_binary64_examples :
  int_truediv_binary64 7 2 = 3
  /\ int_truediv_binary64 300 4 = 75
  /\ int_truediv_binary64 (2 ^ 60) 3 = 384307168202282304
  /\ int_truediv_binary64 (2 ^ 53 + 3) 2 = 2 ^ 52 + 2.
Proof. vm_compute. repeat split. Qed.

Lemma round_half_even_cases (n d : Z) :
  round_half_even n d = n / d
  \/ (round_half_even n d = n / d + 1 /\ d <= 2 * (n mod d)).
Proof.
  unfold round_half_even.
  destruct (Z.ltb_spec (2 * (n mod d)) d); [by left|].
  destruct (Z.ltb_spec d (2 * (n mod d))); [right; lia|].
  destruct (Z.even (n / d)); [by left | right; lia].
Qed.

Lemma scale_spec (a b : Z) :
  0 < a < 2 ^ 53 -> 0 < b ->
  0 <= scale a b /\ 2 ^ 52 <= a * 2 ^ scale a b / b.
Proof.
  intros Ha Hb.
  pose proof (Z.log2_spec a (proj1 Ha)) as [Hla1 Hla2].
  pose proof (Z.log2_spec b Hb) as [Hlb1 Hlb2].
  pose proof (Z.log2_nonneg a) as Hla0.
  pose proof (Z.log2_nonneg b) as Hlb0.
  assert (Z.log2 a < 53) as Hla53 by (apply Z.log2_lt_pow2; lia).
  unfold scale.
  set (s := 52 - (Z.log2 a - Z.log2 b)).
  assert (0 <= s) as Hs by (unfold s; lia).
  unfold scaled_num, scaled_den.
  destruct (Z.leb_spec 0 s); [|lia].
  destruct (Z.ltb_spec (a * 2 ^ s / b) (2 ^ 52)) as [Hlow|Hhigh].
  - split; [lia|].
    apply Z.div_le_lower_bound; [lia|].
    assert (2 ^ Z.log2 a * 2 ^ (s + 1) = 2 ^ 52 * 2 ^ Z.succ (Z.log2 b)) as Hpow.
    { rewrite <- !Z.pow_add_r by lia. f_equal. unfold s. lia. }
    rewrite (Z.mul_comm b).
    transitivity (2 ^ 52 * 2 ^ Z.succ (Z.log2 b)).
    + apply Z.mul_le_mono_nonneg_l; lia.
    + rewrite <- Hpow. apply Z.mul_le_mono_nonneg_r; [|lia].
      apply Z.pow_nonneg. lia.
  - split; [lia | done].
Qed.

(** Rounding the scaled quotient to 53 bits never reaches the next
    integer when the numerator has at most 53 bits. *)
Lemma int_truediv_binary64_exact (a b : Z) :
  0 <= a < 2 ^ 53 -> 0 < b -> int_truediv_binary64 a b = a / b.
Proof.
  intros Ha Hb. unfold int_truediv_binary64.
  destruct (Z.eqb_spec a 0) as [->|Hnz]; [done|].
  destruct (scale_spec a b) as [Hs Hm]; [lia | done |].
  destruct (Z.leb_spec 0 (scale a b)); [|lia].
  unfold significand, scaled_num, scaled_den.
  destruct (Z.leb_spec 0 (scale a b)); [|lia].
  set (P := 2 ^ scale a b) in *.
  assert (0 < P) as HP by (apply Z.pow_pos_nonneg; lia).
  assert (a * P / b / P = a / b) as Hfloor.
  { rewrite Z.div_div by lia. apply Z.div_mul_cancel_r; lia. }
  destruct (round_half_even_cases (a * P) b) as [->|[-> Hup]]; [done|].
  symmetry.
  apply (Z.div_unique_pos _ _ _ (a * P / b + 1 - P * (a / b))); [|lia].
  pose proof (Z.div_mod (a * P) b ltac:(lia)) as Hn.
  pose proof (Z.mod_pos_bound (a * P) b Hb) as Hr.
  pose proof (Z.div_mod a b ltac:(lia)) as Hab.
  pose proof (Z.mod_pos_bound a b Hb) as HR.
  pose proof (Z.mul_div_le (a * P / b) P HP) as Hlo.
  rewrite Hfloor in Hlo.
  set (m := a * P / b) in *. set (r := (a * P) mod b) in *.
  set (q := a / b) in *. set (R := a mod b) in *.
  split; [lia|].
  (* otherwise [b - r >= (b - R) * P >= P] and [2 * (b - r) <= b] give
     [2 * P <= b], against [2^52 * b <= m * b <= a * P < 2^53 * P] *)
  destruct (Z.lt_ge_cases (m + 1 - P * q) P) as [|Hge]; [done|exfalso].
  assert ((b - R) * P <= b - r) as Hgap by nia.
  assert (P <= b - r) as HPle by nia.
  assert (2 * P <= b) as H2P by lia.
  assert (2 ^ 52 * b <= a * P) as Hbig by nia.
  assert (a * P < 2 ^ 53 * P) as Hsmall by nia.
  change (2 ^ 53) with (2 * 2 ^ 52) in Hsmall.
  nia.
Qed.

(** Beyond [2^53] the float quotient can round up to the next integer. *)
Example int_truediv_binary64_beyond :
  int_truediv_binary64 (2 ^ 53 + 3) 2 = (2 ^ 53 + 3) / 2 + 1.
Proof. vm_compute. reflexivity. Qed.

(** A quotient below [2^53] keeps its integer part within 53 bits, so the
    scale is not negative. *)
Lemma scale_nonneg (a b : Z) :
  0 < a -> 0 < b -> a < 2 ^ 53 * b -> 0 <= scale a b.
Proof.
  intros Ha Hb Hq.
  pose proof (Z.log2_spec a Ha) as [Hla1 Hla2].
  pose proof (Z.log2_spec b Hb) as [Hlb1 Hlb2].
  pose proof (Z.log2_nonneg a) as Hla0.
  pose proof (Z.log2_nonneg b) as Hlb0.
  assert (Z.log2 a < Z.log2 b + 54) as Hdiff.
  { apply (Z.pow_lt_mono_r_iff 2); [lia | lia |].
    eapply Z.le_lt_trans; [exact Hla1|].
    eapply Z.lt_trans; [exact Hq|].
    replace (Z.log2 b + 54) with (53 + Z.succ (Z.log2 b)) by lia.
    rewrite Z.pow_add_r by lia.
    apply Z.mul_lt_mono_pos_l; lia. }
  unfold scale.
  set (s := 52 - (Z.log2 a - Z.log2 b)).
  destruct (Z.le_gt_cases 0 s) as [Hs|Hs].
  - destruct (_ <? _); lia.
  - assert (s = -1) as -> by (unfold s in *; lia).
    unfold scaled_num, scaled_den. cbn [Z.leb Z.compare Z.opp].
    change (2 ^ (- (-1))) with 2.
    destruct (Z.ltb_spec (a / (b * 2)) (2 ^ 52)) as [|Hge]; [lia|].
    exfalso. pose proof (Z.mul_div_le a (b * 2) ltac:(lia)) as Hle.
    change (2 ^ 53) with (2 ^ 52 * 2) in Hq. nia.
Qed.

(** Rounding cannot carry the quotient past an integer that the exact
    quotient stays below, as long as that integer is at most [2^53]. *)
Lemma int_truediv_binary64_bound (a b K : Z) :
  0 <= a -> 0 < b -> a < K * b -> K <= 2 ^ 53 ->
  0 <= int_truediv_binary64 a b <= K.
Proof.
  intros Ha Hb HK H53. assert (0 < K) as HK0 by nia.
  unfold int_truediv_binary64.
  destruct (Z.eqb_spec a 0) as [->|Hnz]; [lia|].
  assert (0 <= scale a b) as Hs.
  { apply scale_nonneg; [lia | done |]. nia. }
  destruct (Z.leb_spec 0 (scale a b)); [|lia].
  unfold significand, scaled_num, scaled_den.
  destruct (Z.leb_spec 0 (scale a b)); [|lia].
  set (P := 2 ^ scale a b) in *.
  assert (0 < P) as HP by (apply Z.pow_pos_nonneg; lia).
  assert (0 <= a * P / b) as Hq0 by (apply Z.div_pos; nia).
  assert (a * P / b < K * P) as Hq.
  { apply Z.div_lt_upper_bound; [done|]. nia. }
  destruct (round_half_even_cases (a * P) b) as [->|[-> _]].
  - split; [apply Z.div_pos; lia|].
    apply Z.div_le_upper_bound; [done|]. nia.
  - split; [apply Z.div_pos; lia|].
    apply Z.div_le_upper_bound; [done|]. nia.
Qed.

(** Whatever the scale, the scaled quotient has 53 bits. *)
Lemma scale_lower (a b : Z) :
  0 < a -> 0 < b ->
  2 ^ 52 * scaled_den b (scale a b) <= scaled_num a (scale a b).
Proof.
  intros Ha Hb.
  pose proof (Z.log2_spec a Ha) as [Hla1 Hla2].
  pose proof (Z.log2_spec b Hb) as [Hlb1 Hlb2].
  pose proof (Z.log2_nonneg a) as Hla0.
  pose proof (Z.log2_nonneg b) as Hlb0.
  unfold scale.
  set (s := 52 - (Z.log2 a - Z.log2 b)).
  destruct (Z.ltb_spec (scaled_num a s / scaled_den b s) (2 ^ 52))
    as [Hlow|Hhigh].
  - unfold scaled_num, scaled_den.
    destruct (Z.leb_spec 0 (s + 1)) as [Hs|Hs].
    + assert (2 ^ Z.log2 a * 2 ^ (s + 1) = 2 ^ 52 * 2 ^ Z.succ (Z.log2 b))
        as Hpow.
      { rewrite <- !Z.pow_add_r by lia. f_equal. unfold s. lia. }
      transitivity (2 ^ 52 * 2 ^ Z.succ (Z.log2 b)).
      * apply Z.mul_le_mono_nonneg_l; lia.
      * rewrite <- Hpow. apply Z.mul_le_mono_nonneg_r; [|lia].
        apply Z.pow_nonneg. lia.
    + assert (2 ^ 52 * (2 ^ Z.succ (Z.log2 b) * 2 ^ (- (s + 1)))
              = 2 ^ Z.log2 a) as Hpow.
      { rewrite <- !Z.pow_add_r by lia. f_equal. unfold s. lia. }
      transitivity (2 ^ Z.log2 a); [|done].
      rewrite <- Hpow. apply Z.mul_le_mono_nonneg_l; [lia|].
      apply Z.mul_le_mono_nonneg_r; [|lia]. apply Z.pow_nonneg. lia.
  - assert (0 < scaled_den b s) as Hden.
    { unfold scaled_den. destruct (Z.leb_spec 0 s); [done|].
      apply Z.mul_pos_pos; [done|]. apply Z.pow_pos_nonneg; lia. }
    pose proof (Z.mul_div_le (scaled_num a s) (scaled_den b s) Hden).
    nia.
Qed.

(** With at most [2^53] as divisor, rounding cannot carry the quotient of
    [a <= (b - 1) * N] by [b] past [N], however large [N] is. *)
Lemma int_truediv_binary64_below (a b N : Z) :
  0 <= a -> 0 < b <= 2 ^ 53 -> 0 <= N -> a <= (b - 1) * N ->
  0 <= int_truediv_binary64 a b <= N.
Proof.
  intros Ha Hb HN HaN. unfold int_truediv_binary64.
  destruct (Z.eqb_spec a 0) as [->|Hnz]; [lia|].
  pose proof (scale_lower a b ltac:(lia) ltac:(lia)) as Hlow.
  unfold significand. revert Hlow. unfold scaled_num, scaled_den.
  destruct (Z.leb_spec 0 (scale a b)) as [Hs|Hs]; intros Hlow.
  - set (P := 2 ^ scale a b) in *.
    assert (0 < P) as HP by (apply Z.pow_pos_nonneg; lia).
    pose proof (Z.div_mod (a * P) b ltac:(lia)) as Hn.
    pose proof (Z.mod_pos_bound (a * P) b ltac:(lia)) as Hr.
    assert (0 <= a * P / b) as Hq0 by (apply Z.div_pos; nia).
    destruct (round_half_even_cases (a * P) b) as [->|[-> Hup]].
    + split; [apply Z.div_pos; lia|].
      apply Z.lt_succ_r, Z.div_lt_upper_bound; [done|]. nia.
    + split; [apply Z.div_pos; lia|].
      apply Z.lt_succ_r, Z.div_lt_upper_bound; [done|]. nia.
  - set (P := 2 ^ (- scale a b)) in *.
    assert (2 <= P) as HP.
    { unfold P. change 2 with (2 ^ 1) at 1.
      apply Z.pow_le_mono_r; lia. }
    pose proof (Z.div_mod a (b * P) ltac:(nia)) as Hn.
    pose proof (Z.mod_pos_bound a (b * P) ltac:(nia)) as Hr.
    assert (0 <= a / (b * P)) as Hq0 by (apply Z.div_pos; nia).
    assert (2 ^ 52 * P < N) as Hgap by nia.
    destruct (round_half_even_cases a (b * P)) as [->|[-> Hup]].
    + split; [nia|]. nia.
    + split; [nia|].
      change (2 ^ 53) with (2 * 2 ^ 52) in Hb. nia.
Qed.

(** Past [2^53] on both sides it can: the last sampled index of [2^55 + 1]
    frames over a trajectory of [2^54 + 4] steps is the length of the
    trajectory. *)
Example int_truediv_beyond_the_trajectory :
  int_truediv ((2 ^ 55 - 1) * (2 ^ 54 + 3)) (2 ^ 55) = Ok (2 ^ 54 + 4).
Proof. vm_compute. reflexivity. Qed.

Lemma int_truediv_nonneg (a b : Z) :
  0 <= a -> 0 < b -> int_truediv a b = Ok (int_truediv_binary64 a b).
Proof.
  intros Ha Hb. unfold int_truediv.
  destruct (Z.eqb_spec b 0); [lia|].
  rewrite !Z.abs_eq by lia. rewrite (Z.sgn_pos b) by lia.
  destruct (Z.eq_dec a 0) as [->|Hnz]; [done|].
  rewrite Z.sgn_pos by lia. f_equal. lia.
Qed.

(** ** Facts about the primitives *)

Lemma length_range (n : Z) : length (range n) = Z.to_nat n.
Proof. unfold range. by rewrite length_map, length_seq. Qed.

Lemma lookup_range (n : Z) (i : nat) :
  (i < Z.to_nat n)%nat -> range n !! i = Some (Z.of_nat i).
Proof.
  intros Hi. unfold range.
  rewrite list_lookup_fmap, lookup_seq_lt by done. done.
Qed.

Lemma elem_of_range (n i : Z) : i ∈ range n <-> 0 <= i < n.
Proof.
  unfold range. rewrite list_elem_of_fmap. split.
  - intros (k & -> & Hk). apply elem_of_seq in Hk. lia.
  - intros Hi. exists (Z.to_nat i). split; [lia|]. apply elem_of_seq. lia.
Qed.

Lemma comprehension_total {A B : Type} (f : A -> result B) (g : A -> B)
    (xs : list A) :
  (forall x, x ∈ xs -> f x = Ok (g x)) ->
  comprehension f xs = Ok (map g xs).
Proof.
  induction xs as [|x xs IH]; intros Hf; [done|].
  cbn. rewrite Hf by left. cbn.
  rewrite IH; [done|]. intros y Hy. apply Hf. by right.
Qed.

(** The division of the sampler is never evaluated with a zero divisor:
    when [num_frames = 1] the range is empty.  So the sampler is total and
    has a closed form. *)

Lemma save_frame_closed_form (num_tsteps num_frames : Z) :
  save_frame num_tsteps num_frames
  = Ok (plan_of num_tsteps num_frames).
Proof.
  unfold save_frame.
  rewrite (comprehension_total _ (sample num_tsteps num_frames)); [done|].
  intros i Hi. apply elem_of_range in Hi. unfold int_truediv, sample.
  destruct (Z.eqb_spec (num_frames - 1) 0); [lia | done].
Qed.

(** ** Arithmetic of one sample *)

Lemma sample_binary64 (num_tsteps num_frames i : Z) :
  1 <= num_tsteps -> 2 <= num_frames -> 0 <= i ->
  sample num_tsteps num_frames i
  = int_truediv_binary64 (i * (num_tsteps - 1)) (num_frames - 1).
Proof.
  intros Hn Hm Hi.
  pose proof (int_truediv_nonneg (i * (num_tsteps - 1)) (num_frames - 1)
                ltac:(nia) ltac:(lia)) as H.
  unfold int_truediv in H.
  destruct (Z.eqb_spec (num_frames - 1) 0); [lia|]. by injection H.
Qed.

(** Below [2^53] the sample is the rounded-down quotient. *)
Lemma sample_floor (num_tsteps num_frames i : Z) :
  1 <= num_tsteps -> 2 <= num_frames -> 0 <= i ->
  i * (num_tsteps - 1) < 2 ^ 53 ->
  sample num_tsteps num_frames i = i * (num_tsteps - 1) / (num_frames - 1).
Proof.
  intros Hn Hm Hi Hsmall. rewrite sample_binary64 by done.
  apply int_truediv_binary64_exact; [nia | lia].
Qed.

(** On a trajectory of at most [2^53] steps every sample is an index of
    the trajectory, whatever the number of frames. *)
Lemma sample_bounds (num_tsteps num_frames i : Z) :
  1 <= num_tsteps <= 2 ^ 53 -> 2 <= num_frames -> 0 <= i < num_frames - 1 ->
  0 <= sample num_tsteps num_frames i <= num_tsteps - 1.
Proof.
  intros Hn Hm Hi. rewrite sample_binary64 by lia.
  destruct (Z.eq_dec num_tsteps 1) as [->|Hn1].
  { rewrite Z.sub_diag, Z.mul_0_r. done. }
  apply int_truediv_binary64_bound; [nia | lia | nia | lia].
Qed.

(** So is it with at most [2^53] frames, whatever the length of the
    trajectory. *)
Lemma sample_bounds_frames (num_tsteps num_frames i : Z) :
  1 <= num_tsteps -> 2 <= num_frames <= 2 ^ 53 -> 0 <= i < num_frames - 1 ->
  0 <= sample num_tsteps num_frames i <= num_tsteps - 1.
Proof.
  intros Hn Hm Hi. rewrite sample_binary64 by lia.
  apply int_truediv_binary64_below; [nia | lia | lia | nia].
Qed.

(** Lookups in the closed form of the plan. *)

Lemma length_plan_of (num_tsteps num_frames : Z) :
  1 <= num_frames ->
  length (plan_of num_tsteps num_frames) = Z.to_nat num_frames.
Proof.
  intros Hm. unfold plan_of.
  rewrite length_app, length_map, length_range. cbn. lia.
Qed.

Lemma lookup_plan_of_head (num_tsteps num_frames : Z) (k : nat) :
  (Z.of_nat k < num_frames - 1) ->
  plan_of num_tsteps num_frames !! k
  = Some (sample num_tsteps num_frames (Z.of_nat k)).
Proof.
  intros Hk. unfold plan_of.
  rewrite lookup_app_l by (rewrite length_map, length_range; lia).
  rewrite list_lookup_fmap, lookup_range by lia. done.
Qed.

Lemma lookup_plan_of_last (num_tsteps num_frames : Z) :
  1 <= num_frames ->
  plan_of num_tsteps num_frames !! Z.to_nat (num_frames - 1)
  = Some (num_tsteps - 1).
Proof.
  intros Hm. unfold plan_of.
  rewrite lookup_app_r by (rewrite length_map, length_range; lia).
  rewrite length_map, length_range, Nat.sub_diag. done.
Qed.

Lemma lookup_plan_of_inv (num_tsteps num_frames : Z) (k : nat) (t : Z) :
  1 <= num_frames ->
  plan_of num_tsteps num_frames !! k = Some t ->
  (Z.of_nat k < num_frames - 1 /\ t = sample num_tsteps num_frames (Z.of_nat k))
  \/ (Z.of_nat k = num_frames - 1 /\ t = num_tsteps - 1).
Proof.
  intros Hm Hk.
  assert (k < Z.to_nat num_frames)%nat as Hlt.
  { rewrite <- (length_plan_of num_tsteps) by done. by eapply lookup_lt_Some. }
  destruct (decide (Z.of_nat k < num_frames - 1)) as [Hh|Hl].
  - left. rewrite lookup_plan_of_head in Hk by done. split; congruence.
  - right. assert (k = Z.to_nat (num_frames - 1)) as -> by lia.
    rewrite lookup_plan_of_last in Hk by done. split; [lia | congruence].
Qed.

(** The plan as a whole is in range on a trajectory of at most [2^53]
    steps. *)
Lemma plan_of_in_range (num_tsteps num_frames : Z) (k : nat) (t : Z) :
  1 <= num_tsteps <= 2 ^ 53 -> 1 <= num_frames ->
  plan_of num_tsteps num_frames !! k = Some t ->
  0 <= t <= num_tsteps - 1.
Proof.
  intros Hn Hm Hk.
  destruct (lookup_plan_of_inv _ _ _ _ Hm Hk) as [[Hlt ->]|[_ ->]]; [|lia].
  apply sample_bounds; lia.
Qed.

(** When the numerators stay below [2^53], every entry of the plan, the
    forced last one included, is the rounded-down multiple of the step
    [(num_tsteps-1)/(num_frames-1)]. *)
Lemma plan_of_lookup_floor (num_tsteps num_frames : Z) (k : nat) (t : Z) :
  1 <= num_tsteps -> 2 <= num_frames ->
  (num_frames - 2) * (num_tsteps - 1) < 2 ^ 53 ->
  plan_of num_tsteps num_frames !! k = Some t ->
  Z.of_nat k <= num_frames - 1
  /\ t = Z.of_nat k * (num_tsteps - 1) / (num_frames - 1).
Proof.
  intros Hn Hm Hsmall Hk. assert (1 <= num_frames) as Hm1 by lia.
  destruct (lookup_plan_of_inv _ _ _ _ Hm1 Hk) as [[Hlt ->]|[Heq ->]].
  - split; [lia|]. apply sample_floor; [lia..|].
    eapply Z.le_lt_trans; [|exact Hsmall].
    apply Z.mul_le_mono_nonneg_r; lia.
  - split; [lia|]. rewrite Heq. symmetry. rewrite Z.mul_comm.
    apply Z.div_mul. lia.
Qed.

Lemma plan_of_floor_in_range (num_tsteps num_frames : Z) (k : nat) (t : Z) :
  1 <= num_tsteps -> 2 <= num_frames ->
  (num_frames - 2) * (num_tsteps - 1) < 2 ^ 53 ->
  plan_of num_tsteps num_frames !! k = Some t ->
  0 <= t <= num_tsteps - 1.
Proof.
  intros Hn Hm Hsmall Hk.
  destruct (plan_of_lookup_floor _ _ _ _ Hn Hm Hsmall Hk) as [Hle ->]. split.
  - apply Z.div_pos; nia.
  - apply Z.div_le_upper_bound; nia.
Qed.

Lemma plan_of_sorted (num_tsteps num_frames : Z) (i j : nat) (a b : Z) :
  1 <= num_tsteps -> 2 <= num_frames ->
  (num_frames - 2) * (num_tsteps - 1) < 2 ^ 53 ->
  (i <= j)%nat ->
  plan_of num_tsteps num_frames !! i = Some a ->
  plan_of num_tsteps num_frames !! j = Some b ->
  a <= b.
Proof.
  intros Hn Hm Hsmall Hij Hi Hj.
  destruct (plan_of_lookup_floor _ _ _ _ Hn Hm Hsmall Hi) as [_ ->].
  destruct (plan_of_lookup_floor _ _ _ _ Hn Hm Hsmall Hj) as [_ ->].
  apply Z.div_le_mono; nia.
Qed.

(** More frames than timesteps forces a repetition (pigeonhole). *)
Lemma plan_of_repeats (num_tsteps num_frames : Z) :
  1 <= num_tsteps -> 2 <= num_frames ->
  (num_frames - 2) * (num_tsteps - 1) < 2 ^ 53 ->
  num_tsteps < num_frames ->
  ~ NoDup (plan_of num_tsteps num_frames).
Proof.
  intros Hn Hm Hsmall Hgt Hnd.
  assert (length (plan_of num_tsteps num_frames) <= length (range num_tsteps))%nat
    as Hle.
  { apply NoDup_ListNoDup in Hnd.
    apply (NoDup_incl_length Hnd). intros t Ht.
    apply list_elem_of_In in Ht. apply list_elem_of_In.
    apply list_elem_of_lookup in Ht as [k Hk].
    apply plan_of_floor_in_range in Hk; [|done..]. apply elem_of_range. lia. }
  rewrite length_plan_of, length_range in Hle by lia. lia.
Qed.

(** C1 (as amended).  For [num_tsteps >= 1] and [num_frames >= 2] such that
    the numerators [i*(num_tsteps-1)], [i <= num_frames-2], stay below
    [2^53], the frame sampler returns (it does not raise) a list of exactly
    [num_frames] indices, all within [0, num_tsteps-1], non-decreasing,
    whose element at position [i < num_frames-1] is
    [floor(i*(num_tsteps-1)/(num_frames-1))] and whose last element is
    [num_tsteps-1]; with more frames than timesteps the list is still
    returned and holds a repeated index. *)
Theorem save_frame_spec (num_tsteps num_frames : Z) :
  1 <= num_tsteps -> 2 <= num_frames ->
  (num_frames - 2) * (num_tsteps - 1) < 2 ^ 53 ->
  exists plan : list Z,
    save_frame num_tsteps num_frames = Ok plan
    /\ length plan = Z.to_nat num_frames
    /\ (forall (k : nat) (t : Z), plan !! k = Some t -> 0 <= t <= num_tsteps - 1)
    /\ (forall (i j : nat) (a b : Z),
          (i <= j)%nat -> plan !! i = Some a -> plan !! j = Some b -> a <= b)
    /\ (forall i : Z, 0 <= i < num_frames - 1 ->
          plan !! Z.to_nat i = Some (i * (num_tsteps - 1) / (num_frames - 1)))
    /\ plan !! Z.to_nat (num_frames - 1) = Some (num_tsteps - 1)
    /\ (num_tsteps < num_frames -> ~ NoDup plan).
Proof.
  intros Hn Hm Hsmall. exists (plan_of num_tsteps num_frames).
  split; [apply save_frame_closed_form|].
  split; [apply length_plan_of; lia|].
  split; [intros k t; by apply plan_of_floor_in_range|].
  split; [intros i j a b; by apply plan_of_sorted|].
  split.
  { intros i Hi. rewrite lookup_plan_of_head by lia.
    rewrite Z2Nat.id by lia. rewrite sample_floor; [done | lia..|].
    eapply Z.le_lt_trans; [|exact Hsmall].
    apply Z.mul_le_mono_nonneg_r; lia. }
  split; [apply lookup_plan_of_last; lia|].
  intros Hgt. by apply plan_of_repeats.
Qed.

(** The end-to-end scenario of the specification: 101 timesteps and 5
    frames give the indices 0, 25, 50, 75, 100. *)
Lemma save_frame_spec_witness :
  exists plan : list Z,
    save_frame 101 5 = Ok plan
    /\ length plan = Z.to_nat 5
    /\ (forall (k : nat) (t : Z), plan !! k = Some t -> 0 <= t <= 101 - 1)
    /\ (forall (i j : nat) (a b : Z),
          (i <= j)%nat -> plan !! i = Some a -> plan !! j = Some b -> a <= b)
    /\ (forall i : Z, 0 <= i < 5 - 1 ->
          plan !! Z.to_nat i = Some (i * (101 - 1) / (5 - 1)))
    /\ plan !! Z.to_nat (5 - 1) = Some (101 - 1)
    /\ (101 < 5 -> ~ NoDup plan).
Proof. apply (save_frame_spec 101 5); [lia | lia | reflexivity]. Defined.

(** Three frames over [2^53 + 4] timesteps: the middle quotient
    [(2^53 + 3) / 2] lies halfway between two floats and is rounded up to
    the even one before [int] sees it, so the sampled index is one more
    than the rounded-down quotient. *)
Lemma save_frame_rounds_before_int :
  save_frame (2 ^ 53 + 4) 3 = Ok [0; 4503599627370498; 2 ^ 53 + 3]
  /\ 1 * (2 ^ 53 + 4 - 1) / (3 - 1) = 4503599627370497.
Proof. vm_compute. split; reflexivity. Qed.

Example save_frame_101_5 : save_frame 101 5 = Ok [0; 25; 50; 75; 100].
Proof. vm_compute. reflexivity. Qed.

Example save_frame_3_5 : save_frame 3 5 = Ok [0; 0; 1; 1; 2].
Proof. vm_compute. reflexivity. Qed.

(** An empty trajectory gives a plan as well, ending in [-1]. *)
Example save_frame_0_4 : save_frame 0 4 = Ok [0; 0; 0; -1].
Proof. vm_compute. reflexivity. Qed.

(** ** The renderers in closed form *)

Lemma plot_all_nil (ax : canvas) : plot_all ax [] = ax.
Proof. destruct ax. unfold plot_all. cbn. by rewrite app_nil_r. Qed.

Lemma plot_plot_all (ax : canvas) (l : list artist) (a : artist) :
  plot (plot_all ax l) a = plot_all ax (l ++ [a]).
Proof. unfold plot, plot_all. cbn. by rewrite app_assoc. Qed.

Lemma plot_all_app (ax : canvas) (l k : list artist) :
  plot_all (plot_all ax l) k = plot_all ax (l ++ k).
Proof. unfold plot_all. cbn. by rewrite app_assoc. Qed.

Lemma for_each_plot_all {A : Type} (xs : list A) (ax : canvas)
    (body : canvas -> A -> result canvas) (f : A -> list artist) :
  (forall ax' x, x ∈ xs -> body ax' x = Ok (plot_all ax' (f x))) ->
  for_each xs ax body = Ok (plot_all ax (flat_map f xs)).
Proof.
  revert ax. induction xs as [|x xs IH]; intros ax Hbody; cbn.
  - by rewrite plot_all_nil.
  - rewrite Hbody by left. cbn. rewrite IH.
    + by rewrite plot_all_app.
    + intros ax' y Hy. apply Hbody. by right.
Qed.

Lemma for_each_raise {A S : Type} (x : A) (xs : list A) (s : S)
    (body : S -> A -> result S) (e : exn) :
  body s x = Raise e -> for_each (x :: xs) s body = Raise e.
Proof. intros H. cbn. by rewrite H. Qed.

Lemma item_col (pos : list (list Q)) (i k : nat) (row : list Q) :
  pos !! i = Some row -> (k < length row)%nat ->
  item pos i k = Ok (col k row).
Proof.
  intros Hi Hk. unfold item, col. rewrite Hi.
  destruct (row !! k) as [v|] eqn:Hv.
  - by rewrite (nth_lookup_Some _ _ _ _ Hv).
  - apply lookup_ge_None in Hv. lia.
Qed.

Lemma item_missing (pos : list (list Q)) (i k : nat) (row : list Q) :
  pos !! i = Some row -> (length row <= k)%nat ->
  item pos i k = Raise IndexError.
Proof.
  intros Hi Hk. unfold item. rewrite Hi.
  by rewrite (proj2 (lookup_ge_None row k) Hk).
Qed.

Lemma flat_map_ext_seq {B : Type} (f g : nat -> list B) (s n : nat) :
  (forall i, (s <= i < s + n)%nat -> f i = g i) ->
  flat_map f (seq s n) = flat_map g (seq s n).
Proof.
  revert s. induction n as [|n IH]; intros s Hfg; [done|].
  cbn. rewrite Hfg by lia. f_equal. apply IH. intros i Hi. apply Hfg. lia.
Qed.

(** A loop over [range(pos.shape[0])] that reads row [i] is a traversal of
    the rows. *)
Lemma flat_map_rows {A B : Type} (g : A -> list B) (l : list A) (d : A) :
  flat_map (fun i => g (nth i l d)) (seq 0 (length l)) = flat_map g l.
Proof.
  induction l as [|a l IH] using rev_ind; [done|].
  rewrite length_app, Nat.add_1_r, seq_S, !flat_map_app. cbn.
  rewrite !app_nil_r. f_equal.
  - rewrite <- IH. apply flat_map_ext_seq. intros i Hi.
    by rewrite app_nth1 by lia.
  - by rewrite app_nth2, Nat.sub_diag by lia.
Qed.

(** Evaluation of the plotting helpers on operands that did not raise.
    The proofs below step through the calls one at a time. *)
Lemma rbind_ok {A B : Type} (a : A) (k : A -> result B) : rbind (Ok a) k = k a.
Proof. reflexivity. Qed.

Lemma radd_ok (x b : Q) : radd (Ok x) b = Ok (x + b)%Q.
Proof. reflexivity. Qed.

Lemma rsub_ok (x b : Q) : rsub (Ok x) b = Ok (x - b)%Q.
Proof. reflexivity. Qed.

Lemma plot_xy_first (ax : canvas) (x y : Q) (s : style) :
  plot_xy ax (Ok x) (Ok y) s = Ok (plot_all ax [Plot2 [x] [y] s]).
Proof. reflexivity. Qed.

Lemma plot_xyz_first (ax : canvas) (x y z : Q) (s : style) :
  plot_xyz ax (Ok x) (Ok y) (Ok z) s = Ok (plot_all ax [Plot3 [x] [y] [z] s]).
Proof. reflexivity. Qed.

Lemma plot_xy_next (ax : canvas) (l : list artist) (x y : Q) (s : style) :
  plot_xy (plot_all ax l) (Ok x) (Ok y) s
  = Ok (plot_all ax (l ++ [Plot2 [x] [y] s])).
Proof. unfold plot_xy. rewrite !rbind_ok. by rewrite plot_plot_all. Qed.

Lemma plot_xyz_next (ax : canvas) (l : list artist) (x y z : Q) (s : style) :
  plot_xyz (plot_all ax l) (Ok x) (Ok y) (Ok z) s
  = Ok (plot_all ax (l ++ [Plot3 [x] [y] [z] s])).
Proof. unfold plot_xyz. rewrite !rbind_ok. by rewrite plot_plot_all. Qed.

Ltac plot_step :=
  first [ rewrite plot_xy_next | rewrite plot_xyz_next
        | rewrite plot_xy_first | rewrite plot_xyz_first ];
  try (rewrite rbind_ok; cbv beta).

Lemma plot_pos_2D_particle_closed (pos : list (list Q)) (L : Q)
    (central_box : bool) (ax : canvas) (i : nat) (row : list Q) :
  pos !! i = Some row -> (2 <= length row)%nat ->
  plot_pos_2D_particle pos L central_box ax i
  = Ok (plot_all ax (particle_artists_2D L central_box row)).
Proof.
  intros Hi Hlen. unfold plot_pos_2D_particle.
  rewrite !(item_col pos i 0 row Hi), !(item_col pos i 1 row Hi) by lia.
  rewrite !radd_ok, !rsub_ok.
  destruct central_box; do 9 plot_step; reflexivity.
Qed.

Lemma plot_pos_3D_particle_closed (pos : list (list Q)) (L : Q)
    (central_box outer_boxes : bool) (ax : canvas) (i : nat) (row : list Q) :
  pos !! i = Some row ->
  (2 <= length row)%nat ->
  (central_box = false \/ outer_boxes = true -> 3 <= length row)%nat ->
  plot_pos_3D_particle pos L central_box outer_boxes ax i
  = (let ax' := plot_all ax (particle_artists_3D L central_box outer_boxes row) in
     if outer_boxes
     then set_zlim (set_ylim (set_xlim ax' (- L) (2 * L)) (- L) (2 * L))
            (- L) (2 * L)
     else Ok ax')%Q.
Proof.
  intros Hi Hlen Hlen3. unfold plot_pos_3D_particle.
  rewrite !(item_col pos i 0 row Hi), !(item_col pos i 1 row Hi) by lia.
  destruct central_box, outer_boxes;
    try rewrite !(item_col pos i 2 row Hi) by (apply Hlen3; auto);
    rewrite ?radd_ok, ?rsub_ok; repeat plot_step; reflexivity.
Qed.

Lemma lookup_row (pos : list (list Q)) (i : nat) :
  (i < length pos)%nat -> pos !! i = Some (nth i pos []).
Proof.
  intros Hi. destruct (pos !! i) as [row|] eqn:Hrow.
  - by rewrite (nth_lookup_Some _ _ _ _ Hrow).
  - apply lookup_ge_None in Hrow. lia.
Qed.

Lemma row_length (P : nat -> Prop) (pos : list (list Q)) (i : nat) :
  Forall (fun row => P (length row)) pos -> (i < length pos)%nat ->
  P (length (nth i pos [])).
Proof.
  intros Hall Hi. rewrite Forall_forall in Hall. apply Hall.
  apply list_elem_of_In, nth_In. done.
Qed.

Lemma plot_segment_xy_ok (ax : canvas) (x0 x1 y0 y1 : Q) (s : style) :
  plot_segment_xy ax (Ok x0) (Ok x1) (Ok y0) (Ok y1) s
  = Ok (plot_all ax [Plot2 [x0; x1] [y0; y1] s]).
Proof. reflexivity. Qed.

Lemma plot_segment_xyz_ok (ax : canvas) (x0 x1 y0 y1 z0 z1 : Q) (s : style) :
  plot_segment_xyz ax (Ok x0) (Ok x1) (Ok y0) (Ok y1) (Ok z0) (Ok z1) s
  = Ok (plot_all ax [Plot3 [x0; x1] [y0; y1] [z0; z1] s]).
Proof. reflexivity. Qed.

Lemma plot_pos_2D_pairs_closed (rel_pos : list (list Q) -> Q -> nat -> nat -> nat -> Q)
    (pos : list (list Q)) (L : Q) (ax : canvas) (i : nat) :
  Forall (fun row => 2 <= length row)%nat pos -> (i < length pos)%nat ->
  plot_pos_2D_pairs rel_pos pos L ax i
  = Ok (plot_all ax
          (flat_map (fun j => if Nat.eqb i j then []
                              else [pair_line_2D rel_pos pos L i j])
             (seq 0 (length pos)))).
Proof.
  intros Hall Hi. unfold plot_pos_2D_pairs. apply for_each_plot_all.
  intros ax' j _. destruct (Nat.eqb i j); [by rewrite plot_all_nil|].
  pose proof (row_length (fun n => 2 <= n)%nat pos i Hall Hi) as Hlen.
  cbv beta in Hlen.
  rewrite !(item_col pos i 0 _ (lookup_row pos i Hi)),
    !(item_col pos i 1 _ (lookup_row pos i Hi)) by lia.
  rewrite !radd_ok. apply plot_segment_xy_ok.
Qed.

Lemma plot_pos_3D_pairs_closed (rel_pos : list (list Q) -> Q -> nat -> nat -> nat -> Q)
    (pos : list (list Q)) (L : Q) (ax : canvas) (i : nat) :
  Forall (fun row => 3 <= length row)%nat pos -> (i < length pos)%nat ->
  plot_pos_3D_pairs rel_pos pos L ax i
  = Ok (plot_all ax
          (flat_map (fun j => if Nat.eqb i j then []
                              else [pair_line_3D rel_pos pos L i j])
             (seq 0 (length pos)))).
Proof.
  intros Hall Hi. unfold plot_pos_3D_pairs. apply for_each_plot_all.
  intros ax' j _. destruct (Nat.eqb i j); [by rewrite plot_all_nil|].
  pose proof (row_length (fun n => 3 <= n)%nat pos i Hall Hi) as Hlen.
  cbv beta in Hlen.
  rewrite !(item_col pos i 0 _ (lookup_row pos i Hi)),
    !(item_col pos i 1 _ (lookup_row pos i Hi)),
    !(item_col pos i 2 _ (lookup_row pos i Hi)) by lia.
  rewrite !radd_ok. apply plot_segment_xyz_ok.
Qed.

Lemma pairs_loop_2D_closed (rel_pos : list (list Q) -> Q -> nat -> nat -> nat -> Q)
    (pos : list (list Q)) (L : Q) (ax : canvas) :
  Forall (fun row => 2 <= length row)%nat pos ->
  for_each (seq 0 (length pos)) ax (plot_pos_2D_pairs rel_pos pos L)
  = Ok (plot_all ax (pair_lines (pair_line_2D rel_pos pos L) (length pos))).
Proof.
  intros Hall. apply for_each_plot_all. intros ax' i Hi.
  apply elem_of_seq in Hi. apply plot_pos_2D_pairs_closed; [done | lia].
Qed.

Lemma pairs_loop_3D_closed (rel_pos : list (list Q) -> Q -> nat -> nat -> nat -> Q)
    (pos : list (list Q)) (L : Q) (ax : canvas) :
  Forall (fun row => 3 <= length row)%nat pos ->
  for_each (seq 0 (length pos)) ax (plot_pos_3D_pairs rel_pos pos L)
  = Ok (plot_all ax (pair_lines (pair_line_3D rel_pos pos L) (length pos))).
Proof.
  intros Hall. apply for_each_plot_all. intros ax' i Hi.
  apply elem_of_seq in Hi. apply plot_pos_3D_pairs_closed; [done | lia].
Qed.

Lemma particles_loop_2D_closed (pos : list (list Q)) (L : Q)
    (central_box : bool) (ax : canvas) :
  Forall (fun row => 2 <= length row)%nat pos ->
  for_each (seq 0 (length pos)) ax (plot_pos_2D_particle pos L central_box)
  = Ok (plot_all ax (flat_map (particle_artists_2D L central_box) pos)).
Proof.
  intros Hall.
  rewrite <- (flat_map_rows (particle_artists_2D L central_box) pos []).
  apply for_each_plot_all. intros ax' i Hi. apply elem_of_seq in Hi.
  apply plot_pos_2D_particle_closed; [apply lookup_row; lia|].
  apply (row_length (fun n => 2 <= n)%nat); [done | lia].
Qed.

Lemma decorate_2D_eq (L : Q) (c c' : canvas) :
  c = c' -> Ok (decorate_2D L c) = Ok (decorate_2D L c').
Proof. by intros ->. Qed.

(** [plot_pos_2D] on rows of at least two columns. *)
Lemma plot_pos_2D_closed (rel_pos : list (list Q) -> Q -> nat -> nat -> nat -> Q)
    (ax : canvas) (pos : list (list Q)) (L : Q) (central_box relative_pos : bool) :
  Forall (fun row => 2 <= length row)%nat pos ->
  plot_pos_2D rel_pos ax pos L central_box relative_pos
  = Ok (decorate_2D L
          (plot_all ax
             (flat_map (particle_artists_2D L central_box) pos
                ++ (if central_box then [square L] else [])
                ++ (if relative_pos
                    then pair_lines (pair_line_2D rel_pos pos L) (length pos)
                    else [])))).
Proof.
  intros Hall. unfold plot_pos_2D.
  rewrite particles_loop_2D_closed by done.
  destruct central_box, relative_pos; rewrite !rbind_ok; cbv beta;
    rewrite ?plot_plot_all, ?pairs_loop_2D_closed, ?rbind_ok by done;
    cbv beta; apply decorate_2D_eq;
    rewrite ?plot_all_app, <- ?app_assoc, ?app_nil_r; reflexivity.
Qed.

(** *** Axis limits *)

Lemma singular_below_pos : (0 < singular_below)%Q.
Proof. reflexivity. Qed.

Lemma tiny_small : (0 < tiny /\ tiny < 1)%Q.
Proof. split; reflexivity. Qed.

Lemma Qlt_bool_false (a b : Q) : (b <= a)%Q -> Qlt_bool a b = false.
Proof. intros H. unfold Qlt_bool. apply Qle_bool_iff in H. by rewrite H. Qed.

Lemma Qle_bool_false (a b : Q) : (b < a)%Q -> Qle_bool a b = false.
Proof.
  intros H. destruct (Qle_bool a b) eqn:E; [|done].
  apply Qle_bool_iff in E. lra.
Qed.

(** An interval from zero or below to a value that is not vanishingly
    small is kept as given. *)
Lemma limits_spanning_zero (v0 v1 : Q) :
  (v0 <= 0)%Q -> (singular_below <= v1)%Q -> limits v0 v1 = (v0, v1).
Proof.
  intros H0 H1. pose proof singular_below_pos as HT.
  pose proof tiny_small as [Ht0 Ht1].
  assert (Qabs v0 == - v0)%Q as Ha0 by (apply Qabs_neg; lra).
  assert (Qabs v1 == v1)%Q as Ha1 by (apply Qabs_pos; lra).
  unfold limits, nonsingular.
  rewrite (Qlt_bool_false v1 v0) by lra.
  assert ((singular_below
           <= if Qle_bool (Qabs v0) (Qabs v1) then Qabs v1 else Qabs v0)%Q) as Hm.
  { destruct (Qle_bool (Qabs v0) (Qabs v1)) eqn:E.
    - lra.
    - assert (Qabs v1 < Qabs v0)%Q.
      { apply Qnot_le_lt. intros Hle. apply Qle_bool_iff in Hle. congruence. }
      lra. }
  rewrite (Qlt_bool_false _ _ Hm).
  rewrite Qle_bool_false; [done|].
  destruct (Qle_bool (Qabs v0) (Qabs v1)) eqn:E.
  - apply Qle_bool_iff in E. nra.
  - assert (Qabs v1 < Qabs v0)%Q.
    { apply Qnot_le_lt. intros Hle. apply Qle_bool_iff in Hle. congruence. }
    nra.
Qed.

(** Equal limits at zero are widened to [(-0.05, 0.05)]. *)
Example limits_0_0 : limits 0 0 = (- expander, expander)%Q.
Proof. vm_compute. reflexivity. Qed.

(** *** The three-dimensional renderer *)

Lemma with_lims_id (ax : canvas) : with_lims ax (xlim ax) (ylim ax) (zlim ax) = ax.
Proof. by destruct ax. Qed.

(** On three-dimensional axes the three limit calls go through. *)
Lemma set_lims_3D (c : canvas) (a b : Q) :
  proj c = ThreeD ->
  set_zlim (set_ylim (set_xlim c a b) a b) a b
  = Ok (with_lims c (Some (limits a b)) (Some (limits a b)) (Some (limits a b))).
Proof. destruct c as [p ? ? ? ? ? ? ? ? ? ?]. cbn [proj]. by intros ->. Qed.

(** On two-dimensional axes [set_zlim] is missing. *)
Lemma set_lims_2D (c : canvas) (a b : Q) :
  proj c = Rectilinear ->
  set_zlim (set_ylim (set_xlim c a b) a b) a b = Raise AttributeError.
Proof. destruct c as [p ? ? ? ? ? ? ? ? ? ?]. cbn [proj]. by intros ->. Qed.

Lemma plot_all_with_lims (c : canvas) (xl yl zl : option (Q * Q))
    (l : list artist) :
  plot_all (with_lims c xl yl zl) l = with_lims (plot_all c l) xl yl zl.
Proof. reflexivity. Qed.

Lemma with_lims_with_lims (c : canvas) (xl yl zl xl' yl' zl' : option (Q * Q)) :
  with_lims (with_lims c xl yl zl) xl' yl' zl' = with_lims c xl' yl' zl'.
Proof. reflexivity. Qed.

Lemma plot_cube_closed (c : canvas) (L : Q) : plot_cube c L = plot_all c (cube L).
Proof.
  unfold plot_cube. cbv zeta.
  change (plot c ?a) with (plot_all c [a]).
  rewrite !plot_plot_all. reflexivity.
Qed.

Lemma for_each_plot_all_lims {A : Type} (xs : list A) (ax : canvas)
    (body : canvas -> A -> result canvas) (f : A -> list artist)
    (p : projection) :
  (forall ax' x, x ∈ xs -> proj ax' = p ->
     exists xl yl zl, body ax' x = Ok (with_lims (plot_all ax' (f x)) xl yl zl)) ->
  proj ax = p ->
  exists xl yl zl,
    for_each xs ax body = Ok (with_lims (plot_all ax (flat_map f xs)) xl yl zl).
Proof.
  revert ax. induction xs as [|x xs IH]; intros ax Hbody Hp.
  - exists (xlim ax), (ylim ax), (zlim ax).
    cbn [for_each flat_map]. by rewrite plot_all_nil, with_lims_id.
  - cbn [for_each flat_map].
    destruct (Hbody ax x) as (xl & yl & zl & ->); [by left | done |].
    rewrite rbind_ok.
    destruct (IH (with_lims (plot_all ax (f x)) xl yl zl))
      as (xl' & yl' & zl' & ->).
    { intros ax' y Hy. apply Hbody. by right. }
    { exact Hp. }
    exists xl', yl', zl'.
    by rewrite plot_all_with_lims, with_lims_with_lims, plot_all_app.
Qed.

Lemma plot_pos_3D_particles_closed (pos : list (list Q)) (L : Q)
    (central_box outer_boxes : bool) (ax : canvas) :
  proj ax = ThreeD ->
  Forall (fun row => 2 <= length row)%nat pos ->
  (central_box = false \/ outer_boxes = true ->
   Forall (fun row => 3 <= length row)%nat pos) ->
  exists xl yl zl,
    for_each (seq 0 (length pos)) ax
      (plot_pos_3D_particle pos L central_box outer_boxes)
    = Ok (with_lims
            (plot_all ax
               (flat_map (particle_artists_3D L central_box outer_boxes) pos))
            xl yl zl).
Proof.
  intros Hp H2 H3.
  rewrite <- (flat_map_rows (particle_artists_3D L central_box outer_boxes) pos []).
  apply (for_each_plot_all_lims _ _ _ _ ThreeD); [|done].
  intros ax' i Hi Hp'. apply elem_of_seq in Hi.
  rewrite (plot_pos_3D_particle_closed pos L central_box outer_boxes ax' i
             (nth i pos [])).
  - cbv zeta. destruct outer_boxes.
    + rewrite set_lims_3D by exact Hp'. by eexists _, _, _.
    + eexists _, _, _. by rewrite with_lims_id.
  - apply lookup_row. lia.
  - apply (row_length (fun n => 2 <= n)%nat); [done | lia].
  - intros Hflags. apply (row_length (fun n => 3 <= n)%nat); [auto | lia].
Qed.

(** Without the outer boxes the particle loop sets no limits and runs on
    any axes. *)
Lemma plot_pos_3D_inner_particles_closed (pos : list (list Q)) (L : Q)
    (central_box : bool) (ax : canvas) :
  Forall (fun row => 2 <= length row)%nat pos ->
  (central_box = false -> Forall (fun row => 3 <= length row)%nat pos) ->
  for_each (seq 0 (length pos)) ax
    (plot_pos_3D_particle pos L central_box false)
  = Ok (plot_all ax (flat_map (particle_artists_3D L central_box false) pos)).
Proof.
  intros H2 H3.
  rewrite <- (flat_map_rows (particle_artists_3D L central_box false) pos []).
  apply for_each_plot_all. intros ax' i Hi. apply elem_of_seq in Hi.
  rewrite (plot_pos_3D_particle_closed pos L central_box false ax' i
             (nth i pos [])); [done| | |].
  - apply lookup_row. lia.
  - apply (row_length (fun n => 2 <= n)%nat); [done | lia].
  - intros [Hc|Hc]; [|done].
    apply (row_length (fun n => 3 <= n)%nat); [auto | lia].
Qed.

(** Lines 266-276 on three-dimensional axes. *)
Lemma decorate_3D_closed (c : canvas) :
  proj c = ThreeD ->
  (let ax := set_xlabel c "$x/\sigma$" in
   let ax := set_ylabel ax "$y/\sigma$" in
   ax <- set_zlabel ax "($z/\sigma$)" ;;
   let ax := tick_params_in ax "x" in
   let ax := tick_params_in ax "y" in
   ax <- tick_params_in_z ax ;;
   let ax := set_ticks_position_both ax "x" in
   let ax := set_ticks_position_both ax "y" in
   zaxis_set_ticks_position_both ax)%result
  = Ok (decorate_3D c).
Proof. destruct c as [p ? ? ? ? ? ? ? ? ? ?]. cbn [proj]. by intros ->. Qed.

Lemma decorate_3D_eq (c c' : canvas) :
  c = c' -> Ok (decorate_3D c) = Ok (decorate_3D c').
Proof. by intros ->. Qed.

(** [plot_pos_3D] on three-dimensional axes and rows that hold every column
    it reads: two columns suffice when only the two-coordinate marker is
    drawn. *)
Lemma plot_pos_3D_closed (rel_pos : list (list Q) -> Q -> nat -> nat -> nat -> Q)
    (ax : canvas) (pos : list (list Q)) (L : Q)
    (central_box relative_pos outer_boxes : bool) :
  proj ax = ThreeD ->
  Forall (fun row => 2 <= length row)%nat pos ->
  (central_box = false \/ outer_boxes = true \/ relative_pos = true ->
   Forall (fun row => 3 <= length row)%nat pos) ->
  plot_pos_3D rel_pos ax pos L central_box relative_pos outer_boxes
  = Ok (decorate_3D
          (plot_all
             (with_lims
                (plot_all ax
                   (flat_map (particle_artists_3D L central_box outer_boxes) pos))
                (Some (limits 0 L)) (Some (limits 0 L)) (Some (limits 0 L)))
             ((if central_box then cube L else [])
                ++ (if relative_pos
                    then pair_lines (pair_line_3D rel_pos pos L) (length pos)
                    else [])))).
Proof.
  intros Hp H2 H3. unfold plot_pos_3D.
  destruct (plot_pos_3D_particles_closed pos L central_box outer_boxes ax Hp H2)
    as (xl & yl & zl & ->); [intros []; auto|].
  rewrite rbind_ok. cbv beta zeta.
  rewrite set_lims_3D by exact Hp. rewrite with_lims_with_lims, rbind_ok.
  cbv beta.
  destruct central_box, relative_pos; rewrite !rbind_ok; cbv beta;
    rewrite ?plot_cube_closed, ?pairs_loop_3D_closed, ?rbind_ok by auto;
    cbv beta;
    (rewrite decorate_3D_closed by exact Hp);
    apply decorate_3D_eq;
    rewrite ?plot_all_app, ?app_nil_r, ?plot_all_nil; reflexivity.
Qed.

(** [plot_pos_3D] on two-dimensional axes: whatever is drawn, the first
    call of [set_zlim] raises, inside the particle loop with the outer
    boxes and after it without. *)
Lemma plot_pos_3D_flat_axes (rel_pos : list (list Q) -> Q -> nat -> nat -> nat -> Q)
    (ax : canvas) (pos : list (list Q)) (L : Q)
    (central_box relative_pos outer_boxes : bool) :
  proj ax = Rectilinear ->
  Forall (fun row => 2 <= length row)%nat pos ->
  (central_box = false \/ outer_boxes = true ->
   Forall (fun row => 3 <= length row)%nat pos) ->
  plot_pos_3D rel_pos ax pos L central_box relative_pos outer_boxes
  = Raise AttributeError.
Proof.
  intros Hp H2 H3. unfold plot_pos_3D. destruct outer_boxes.
  - destruct pos as [|row pos'].
    + cbn [length seq for_each]. rewrite rbind_ok. cbv beta zeta.
      by rewrite set_lims_2D.
    + cbn [length seq].
      rewrite (for_each_raise _ _ _ _ AttributeError); [reflexivity|].
      rewrite (plot_pos_3D_particle_closed _ L central_box true ax 0 row).
      * cbv zeta. by rewrite set_lims_2D.
      * done.
      * by apply Forall_cons in H2 as [? _].
      * intros _. specialize (H3 ltac:(by right)).
        by apply Forall_cons in H3 as [? _].
  - rewrite plot_pos_3D_inner_particles_closed; [|done|auto].
    rewrite rbind_ok. cbv beta zeta. by rewrite set_lims_2D.
Qed.

(** *** What the canvas shows *)

Lemma omap_flat_map {A B C : Type} (f : B -> option C) (g : A -> list B)
    (l : list A) :
  omap f (flat_map g l) = flat_map (fun x => omap f (g x)) l.
Proof.
  induction l as [|x l IH]; [done|].
  cbn [flat_map]. by rewrite omap_app, IH.
Qed.

Lemma flat_map_nil {A B : Type} (g : A -> list B) (l : list A) :
  (forall x, g x = []) -> flat_map g l = [].
Proof.
  intros Hg. induction l as [|x l IH]; [done|].
  cbn [flat_map]. by rewrite Hg, IH.
Qed.

Lemma markers_particle_2D (L : Q) (central_box : bool) (row : list Q) :
  omap marker_position_2D (particle_artists_2D L central_box row)
  = map (shift_point_2D L row) drawn_shifts_2D.
Proof. destruct central_box; reflexivity. Qed.

Lemma markers_particle_3D (L : Q) (row : list Q) :
  omap marker_position_3D (particle_artists_3D L false true row)
  = map (shift_point_3D L row) drawn_shifts_3D.
Proof. reflexivity. Qed.

Lemma omap_pair_lines {B : Type} (f : artist -> option B)
    (line : nat -> nat -> artist) (n : nat) :
  (forall i j, f (line i j) = None) -> omap f (pair_lines line n) = [].
Proof.
  intros Hline. unfold pair_lines. rewrite omap_flat_map.
  apply flat_map_nil. intros i. rewrite omap_flat_map.
  apply flat_map_nil. intros j. destruct (Nat.eqb i j); [done|].
  cbn [omap list_omap]. by rewrite Hline.
Qed.

(** The renderers draw every offset combination once. *)
Lemma drawn_shifts_2D_all : drawn_shifts_2D ≡ₚ all_shifts_2D.
Proof. apply (bool_decide_unpack _). by vm_compute. Qed.

Lemma drawn_shifts_3D_all : drawn_shifts_3D ≡ₚ all_shifts_3D.
Proof. apply (bool_decide_unpack _). by vm_compute. Qed.

Lemma flat_map_Permutation {A B : Type} (f g : A -> list B) (l : list A) :
  (forall x, f x ≡ₚ g x) -> flat_map f l ≡ₚ flat_map g l.
Proof.
  intros Hfg. induction l as [|x l IH]; [done|].
  cbn [flat_map]. by rewrite Hfg, IH.
Qed.

Lemma length_flat_map_const {A B : Type} (f : A -> list B) (l : list A) (k : nat) :
  (forall x, length (f x) = k) -> length (flat_map f l) = (k * length l)%nat.
Proof.
  intros Hf. induction l as [|x l IH]; cbn [flat_map length]; [lia|].
  rewrite length_app, Hf, IH. lia.
Qed.

Lemma marker_positions_2D_closed (rel_pos : list (list Q) -> Q -> nat -> nat -> nat -> Q)
    (ax : canvas) (pos : list (list Q)) (L : Q) (central_box relative_pos : bool) :
  marker_positions_2D
    (decorate_2D L
       (plot_all ax
          (flat_map (particle_artists_2D L central_box) pos
             ++ (if central_box then [square L] else [])
             ++ (if relative_pos
                 then pair_lines (pair_line_2D rel_pos pos L) (length pos)
                 else []))))
  = marker_positions_2D ax
      ++ flat_map (fun row => map (shift_point_2D L row) drawn_shifts_2D) pos.
Proof.
  unfold marker_positions_2D.
  change (artists (decorate_2D L ?c)) with (artists c).
  change (artists (plot_all ax ?l)) with (artists ax ++ l).
  rewrite !omap_app, omap_flat_map. f_equal.
  rewrite (flat_map_ext _ _ (markers_particle_2D L central_box)).
  rewrite <- (app_nil_r (flat_map _ pos)) at 2. f_equal.
  assert (omap marker_position_2D
            (if relative_pos
             then pair_lines (pair_line_2D rel_pos pos L) (length pos) else [])
          = []) as ->.
  { destruct relative_pos; [|done]. by apply omap_pair_lines. }
  by destruct central_box.
Qed.

Lemma marker_positions_3D_closed (rel_pos : list (list Q) -> Q -> nat -> nat -> nat -> Q)
    (ax : canvas) (pos : list (list Q)) (L : Q) (central_box relative_pos : bool)
    (xl yl zl : option (Q * Q)) :
  marker_positions_3D
    (decorate_3D
       (plot_all
          (with_lims
             (plot_all ax (flat_map (particle_artists_3D L false true) pos))
             xl yl zl)
          ((if central_box then cube L else [])
             ++ (if relative_pos
                 then pair_lines (pair_line_3D rel_pos pos L) (length pos)
                 else []))))
  = marker_positions_3D ax
      ++ flat_map (fun row => map (shift_point_3D L row) drawn_shifts_3D) pos.
Proof.
  unfold marker_positions_3D.
  change (artists (decorate_3D ?c)) with (artists c).
  change (artists (plot_all ?c ?l)) with (artists c ++ l).
  change (artists (with_lims ?c _ _ _)) with (artists c).
  change (artists (plot_all ?c ?l)) with (artists c ++ l).
  rewrite !omap_app, omap_flat_map, <- app_assoc. f_equal.
  rewrite (flat_map_ext _ _ (markers_particle_3D L)).
  rewrite <- (app_nil_r (flat_map _ pos)) at 2. f_equal.
  assert (omap marker_position_3D
            (if relative_pos
             then pair_lines (pair_line_3D rel_pos pos L) (length pos) else [])
          = []) as ->.
  { destruct relative_pos; [|done]. by apply omap_pair_lines. }
  by destruct central_box.
Qed.

(** ** Replicas in two dimensions *)

Lemma images_2D_drawn (L : Q) (row : list Q) :
  map (shift_point_2D L row) drawn_shifts_2D ≡ₚ images_2D L row.
Proof. unfold images_2D. apply Permutation_map, drawn_shifts_2D_all. Qed.

Lemma images_3D_drawn (L : Q) (row : list Q) :
  map (shift_point_3D L row) drawn_shifts_3D ≡ₚ images_3D L row.
Proof. unfold images_3D. apply Permutation_map, drawn_shifts_3D_all. Qed.

(** C4 (as amended).  On rows of at least two columns [plot_pos_2D] draws
    nine image positions per particle, the true position and the eight
    non-zero offsets of {-L, 0, L}^2, whatever [central_box] is; the flag
    selects the style of the true-position marker and whether the central
    square is outlined. *)
Theorem plot_pos_2D_nine_images
    (rel_pos : list (list Q) -> Q -> nat -> nat -> nat -> Q)
    (ax : canvas) (pos : list (list Q)) (L : Q) (central_box relative_pos : bool) :
  Forall (fun row => 2 <= length row)%nat pos ->
  exists c : canvas,
    plot_pos_2D rel_pos ax pos L central_box relative_pos = Ok c
    /\ marker_positions_2D c
       ≡ₚ marker_positions_2D ax ++ flat_map (images_2D L) pos
    /\ length (marker_positions_2D c)
       = (length (marker_positions_2D ax) + 9 * length pos)%nat
    /\ artists c
       = artists ax
           ++ flat_map (particle_artists_2D L central_box) pos
           ++ (if central_box then [square L] else [])
           ++ (if relative_pos
               then pair_lines (pair_line_2D rel_pos pos L) (length pos)
               else []).
Proof.
  intros Hall. eexists. split; [by apply plot_pos_2D_closed|].
  rewrite marker_positions_2D_closed. repeat split.
  - apply Permutation_app_head, flat_map_Permutation.
    intros row. apply images_2D_drawn.
  - rewrite length_app. f_equal. by apply length_flat_map_const.
Qed.

(** A particle at the corner of the box, drawn without the central box. *)
Lemma plot_pos_2D_nine_images_witness :
  exists c : canvas,
    plot_pos_2D no_displacement (add_subplot Rectilinear) [[0; 0]]%Q 1%Q
      false false = Ok c
    /\ marker_positions_2D c
       ≡ₚ marker_positions_2D (add_subplot Rectilinear)
            ++ flat_map (images_2D 1%Q) [[0; 0]]%Q
    /\ length (marker_positions_2D c)
       = (length (marker_positions_2D (add_subplot Rectilinear)) + 9 * 1)%nat
    /\ artists c
       = artists (add_subplot Rectilinear)
           ++ flat_map (particle_artists_2D 1%Q false) [[0; 0]]%Q
           ++ []
           ++ [].
Proof.
  apply (plot_pos_2D_nine_images no_displacement (add_subplot Rectilinear)
           [[0; 0]]%Q 1%Q false false).
  repeat constructor.
Defined.

(** With [central_box=True] the replicas are drawn all the same. *)
Lemma plot_pos_2D_central_box_replicas :
  exists c : canvas,
    plot_pos_2D no_displacement (add_subplot Rectilinear) [[1; 2]]%Q 10%Q
      true false = Ok c
    /\ length (marker_positions_2D c) = 9%nat
    /\ marker_positions_2D c <> [(1, 2)%Q].
Proof.
  eexists. split.
  { apply plot_pos_2D_closed. repeat constructor. }
  split; [reflexivity|]. intros H. vm_compute in H. discriminate H.
Qed.

(** ** Shapes *)

Lemma plot_pos_3D_two_columns_raise
    (rel_pos : list (list Q) -> Q -> nat -> nat -> nat -> Q)
    (ax : canvas) (pos : list (list Q)) (L : Q)
    (central_box relative_pos outer_boxes : bool) :
  Forall (fun row => length row = 2%nat) pos -> pos <> [] ->
  central_box = false \/ outer_boxes = true ->
  plot_pos_3D rel_pos ax pos L central_box relative_pos outer_boxes
  = Raise IndexError.
Proof.
  intros Hall Hne Hflags. destruct pos as [|row pos']; [done|].
  apply Forall_cons in Hall as [Hrow _].
  unfold plot_pos_3D. cbn [length seq].
  rewrite (for_each_raise _ _ _ _ IndexError); [reflexivity|].
  unfold plot_pos_3D_particle.
  assert ((row :: pos') !! 0%nat = Some row) as H0 by done.
  rewrite !(item_col _ 0 0 row H0), !(item_col _ 0 1 row H0),
    !(item_missing _ 0 2 row H0) by lia.
  destruct Hflags as [-> | ->]; [reflexivity|].
  by destruct central_box.
Qed.

Lemma col_take (k n : nat) (row : list Q) :
  (k < n)%nat -> col k (take n row) = col k row.
Proof.
  unfold col. revert k n. induction row as [|x row IH]; intros k n Hk.
  - by rewrite take_nil.
  - destruct n as [|n]; [lia|]. destruct k as [|k]; [done|].
    cbn. apply IH. lia.
Qed.

Lemma particle_artists_2D_take (L : Q) (central_box : bool) (row : list Q) :
  particle_artists_2D L central_box (take 2 row)
  = particle_artists_2D L central_box row.
Proof.
  unfold particle_artists_2D. by rewrite !col_take by lia.
Qed.

Lemma flat_map_map {A B C : Type} (f : A -> B) (g : B -> list C) (l : list A) :
  flat_map g (map f l) = flat_map (fun x => g (f x)) l.
Proof. induction l as [|x l IH]; [done|]. cbn. by rewrite IH. Qed.

Lemma pair_lines_ext (line line' : nat -> nat -> artist) (n : nat) :
  (forall i j, line i j = line' i j) -> pair_lines line n = pair_lines line' n.
Proof.
  intros H. unfold pair_lines. apply flat_map_ext. intros i.
  apply flat_map_ext. intros j. by rewrite H.
Qed.

Lemma pair_line_2D_take (rel_pos : list (list Q) -> Q -> nat -> nat -> nat -> Q)
    (pos : list (list Q)) (L : Q) (i j : nat) :
  pair_line_2D (fun _ => rel_pos pos) (map (take 2) pos) L i j
  = pair_line_2D rel_pos pos L i j.
Proof.
  unfold pair_line_2D.
  assert (nth i (map (take 2) pos) [] = take 2 (nth i pos [])) as ->.
  { exact (map_nth (take 2) pos [] i). }
  by rewrite !col_take by lia.
Qed.

(** C8 (as amended).  The renderers check no shape.  [plot_pos_2D] renders
    every array whose rows have at least two columns and reads the first two
    only: given the provider's displacements, the result is that on the
    array cut down to two columns.  On three-dimensional axes [plot_pos_3D] with its default flags
    renders rows of two columns, one two-coordinate plot call per particle
    and the cube.  Rows of two columns make [plot_pos_3D] raise [IndexError]
    when it reads the third column of a particle, that is with
    [central_box=False] or [outer_boxes=True]. *)
Theorem renderers_shape
    (rel_pos : list (list Q) -> Q -> nat -> nat -> nat -> Q)
    (ax : canvas) (pos : list (list Q)) (L : Q)
    (central_box relative_pos outer_boxes : bool) :
  (Forall (fun row => 2 <= length row)%nat pos ->
   (exists c, plot_pos_2D rel_pos ax pos L central_box relative_pos = Ok c)
   /\ plot_pos_2D rel_pos ax pos L central_box relative_pos
      = plot_pos_2D (fun _ => rel_pos pos) ax (map (take 2) pos) L
          central_box relative_pos)
  /\ (proj ax = ThreeD ->
      Forall (fun row => length row = 2%nat) pos ->
      exists c,
        plot_pos_3D rel_pos ax pos L true false false = Ok c
        /\ artists c
           = artists ax
               ++ map (fun row => Plot2 [col 0 row] [col 1 row] Black_dot) pos
               ++ cube L)
  /\ (Forall (fun row => length row = 2%nat) pos -> pos <> [] ->
      central_box = false \/ outer_boxes = true ->
      plot_pos_3D rel_pos ax pos L central_box relative_pos outer_boxes
      = Raise IndexError).
Proof.
  split; [|split].
  - intros Hall. split; [eexists; by apply plot_pos_2D_closed|].
    assert (Forall (fun row => 2 <= length row)%nat (map (take 2) pos)) as Hcut.
    { apply Forall_fmap. eapply Forall_impl; [exact Hall|].
      intros row Hrow. cbv beta in *. unfold compose. rewrite length_take. lia. }
    rewrite (plot_pos_2D_closed rel_pos ax pos) by done.
    rewrite (plot_pos_2D_closed (fun _ => rel_pos pos) ax (map (take 2) pos))
      by done.
    rewrite flat_map_map, length_map.
    rewrite (flat_map_ext _ _ (particle_artists_2D_take L central_box)).
    by rewrite (pair_lines_ext _ _ _ (pair_line_2D_take rel_pos pos L)).
  - intros Hp Hall. eexists. split.
    + apply plot_pos_3D_closed; [done| |].
      * eapply Forall_impl; [exact Hall|]. cbv beta. lia.
      * intros [?|[?|?]]; discriminate.
    + change (artists (decorate_3D ?c)) with (artists c).
      change (artists (plot_all ?c ?l)) with (artists c ++ l).
      change (artists (with_lims ?c _ _ _)) with (artists c).
      change (artists (plot_all ?c ?l)) with (artists c ++ l).
      rewrite app_nil_r, <- app_assoc. do 2 f_equal.
  - apply plot_pos_3D_two_columns_raise.
Qed.

Lemma renderers_shape_witness :
  ((exists c, plot_pos_2D no_displacement (add_subplot Rectilinear)
                [[1; 2; 3]]%Q 10%Q true false = Ok c)
   /\ plot_pos_2D no_displacement (add_subplot Rectilinear)
        [[1; 2; 3]]%Q 10%Q true false
      = plot_pos_2D (fun _ => no_displacement [[1; 2; 3]]%Q)
          (add_subplot Rectilinear) (map (take 2) [[1; 2; 3]]%Q) 10%Q
          true false)
  /\ (exists c,
        plot_pos_3D no_displacement (add_subplot ThreeD)
          [[1; 2]]%Q 10%Q true false false = Ok c
        /\ artists c
           = artists (add_subplot ThreeD)
               ++ map (fun row => Plot2 [col 0 row] [col 1 row] Black_dot)
                    [[1; 2]]%Q
               ++ cube 10%Q)
  /\ plot_pos_3D no_displacement (add_subplot ThreeD)
       [[1; 2]]%Q 10%Q true false true = Raise IndexError.
Proof.
  split; [|split].
  - apply (renderers_shape no_displacement (add_subplot Rectilinear)
             [[1; 2; 3]]%Q 10%Q true false true).
    repeat constructor.
  - apply (renderers_shape no_displacement (add_subplot ThreeD)
             [[1; 2]]%Q 10%Q true false true).
    + reflexivity.
    + repeat constructor.
  - apply (renderers_shape no_displacement (add_subplot ThreeD)
             [[1; 2]]%Q 10%Q true false true).
    + repeat constructor.
    + discriminate.
    + by right.
Defined.

(** Three columns handed to the two-dimensional renderer are rendered. *)
Lemma plot_pos_2D_three_columns_rendered :
  exists c : canvas,
    plot_pos_2D no_displacement (add_subplot Rectilinear) [[1; 2; 3]]%Q 10%Q
      true false = Ok c
    /\ marker_positions_2D c
       = [ (1, 2); (11, 2); (1, 12); (11, 12); (-9, 2); (1, -8); (-9, -8);
           (-9, 12); (11, -8) ]%Q.
Proof.
  eexists. split.
  { apply plot_pos_2D_closed. repeat constructor. }
  reflexivity.
Qed.

(** ** Pair lines *)

Lemma length_skip_self {B : Type} (h : nat -> B) (i s n : nat) :
  length (flat_map (fun j => if Nat.eqb i j then [] else [h j]) (seq s n))
  = if decide (s <= i < s + n)%nat then (n - 1)%nat else n.
Proof.
  revert s. induction n as [|n IH]; intros s.
  - cbn. case_decide; lia.
  - cbn [seq flat_map]. rewrite length_app, IH.
    destruct (Nat.eqb_spec i s) as [->|Hne]; cbn [length];
      repeat case_decide; lia.
Qed.

Lemma length_flat_map_seq_const {B : Type} (f : nat -> list B) (s n k : nat) :
  (forall i, (s <= i < s + n)%nat -> length (f i) = k) ->
  length (flat_map f (seq s n)) = (n * k)%nat.
Proof.
  revert s. induction n as [|n IH]; intros s Hf; [done|].
  cbn [seq flat_map]. rewrite length_app, Hf by lia.
  rewrite IH; [lia|]. intros i Hi. apply Hf. lia.
Qed.

Lemma length_pair_segments
    (rel_pos : list (list Q) -> Q -> nat -> nat -> nat -> Q)
    (pos : list (list Q)) (L : Q) (d : nat) :
  length (pair_segments rel_pos pos L d)
  = (length pos * (length pos - 1))%nat.
Proof.
  unfold pair_segments. apply length_flat_map_seq_const. intros i Hi.
  rewrite (length_skip_self
             (fun j => (nth i pos [],
                        vec_add (nth i pos []) (displacement rel_pos pos L d j i)))).
  case_decide; lia.
Qed.

Lemma segments_pair_lines_2D
    (rel_pos : list (list Q) -> Q -> nat -> nat -> nat -> Q)
    (pos : list (list Q)) (L : Q) :
  Forall (fun row => length row = 2%nat) pos ->
  omap segment_of (pair_lines (pair_line_2D rel_pos pos L) (length pos))
  = pair_segments rel_pos pos L 2.
Proof.
  intros Hall. unfold pair_lines, pair_segments. rewrite omap_flat_map.
  apply flat_map_ext_seq. intros i Hi. rewrite omap_flat_map.
  apply flat_map_ext_seq. intros j Hj.
  destruct (Nat.eqb i j); [done|].
  pose proof (row_length (fun n => n = 2%nat) pos i Hall) as Hlen.
  cbv beta in Hlen. unfold pair_line_2D.
  destruct (nth i pos []) as [|x [|y [|? ?]]]; cbn in Hlen; try lia.
  reflexivity.
Qed.

Lemma segments_pair_lines_3D
    (rel_pos : list (list Q) -> Q -> nat -> nat -> nat -> Q)
    (pos : list (list Q)) (L : Q) :
  Forall (fun row => length row = 3%nat) pos ->
  omap segment_of (pair_lines (pair_line_3D rel_pos pos L) (length pos))
  = pair_segments rel_pos pos L 3.
Proof.
  intros Hall. unfold pair_lines, pair_segments. rewrite omap_flat_map.
  apply flat_map_ext_seq. intros i Hi. rewrite omap_flat_map.
  apply flat_map_ext_seq. intros j Hj.
  destruct (Nat.eqb i j); [done|].
  pose proof (row_length (fun n => n = 3%nat) pos i Hall) as Hlen.
  cbv beta in Hlen. unfold pair_line_3D.
  destruct (nth i pos []) as [|x [|y [|z [|? ?]]]]; cbn in Hlen; try lia.
  reflexivity.
Qed.

Lemma segments_particles_2D (L : Q) (central_box : bool) (pos : list (list Q)) :
  omap segment_of (flat_map (particle_artists_2D L central_box) pos) = [].
Proof.
  rewrite omap_flat_map. apply flat_map_nil. intros row.
  destruct central_box; reflexivity.
Qed.

Lemma segments_particles_3D (L : Q) (central_box outer_boxes : bool)
    (pos : list (list Q)) :
  omap segment_of (flat_map (particle_artists_3D L central_box outer_boxes) pos)
  = [].
Proof.
  rewrite omap_flat_map. apply flat_map_nil. intros row.
  destruct central_box, outer_boxes; reflexivity.
Qed.

(** C9.  With [relative_pos=True] each renderer, [plot_pos_3D] on
    three-dimensional axes, draws for every ordered pair of distinct
    particles [(i, j)] the dashed segment from the position of [i] to that
    position plus the displacement [rel_pos[j,i,:]] supplied by the
    provider, unwrapped: [N*(N-1)] segments for [N] particles. *)
Theorem pair_lines_drawn
    (rel_pos : list (list Q) -> Q -> nat -> nat -> nat -> Q)
    (ax : canvas) (pos : list (list Q)) (L : Q)
    (central_box outer_boxes : bool) :
  (Forall (fun row => length row = 2%nat) pos ->
   exists c : canvas,
     plot_pos_2D rel_pos ax pos L central_box true = Ok c
     /\ segments c = segments ax ++ pair_segments rel_pos pos L 2
     /\ length (pair_segments rel_pos pos L 2)
        = (length pos * (length pos - 1))%nat)
  /\ (proj ax = ThreeD ->
      Forall (fun row => length row = 3%nat) pos ->
      exists c : canvas,
        plot_pos_3D rel_pos ax pos L central_box true outer_boxes = Ok c
        /\ segments c = segments ax ++ pair_segments rel_pos pos L 3
        /\ length (pair_segments rel_pos pos L 3)
           = (length pos * (length pos - 1))%nat).
Proof.
  split; [intros Hall | intros Hp Hall].
  - eexists. split.
    { apply plot_pos_2D_closed. eapply Forall_impl; [exact Hall|].
      cbv beta. lia. }
    split; [|apply length_pair_segments].
    unfold segments.
    change (artists (decorate_2D L ?c)) with (artists c).
    change (artists (plot_all ax ?l)) with (artists ax ++ l).
    rewrite !omap_app, segments_particles_2D, segments_pair_lines_2D by done.
    by destruct central_box.
  - eexists. split.
    { apply plot_pos_3D_closed; [done| |].
      - eapply Forall_impl; [exact Hall|]. cbv beta. lia.
      - intros _. eapply Forall_impl; [exact Hall|]. cbv beta. lia. }
    split; [|apply length_pair_segments].
    unfold segments.
    change (artists (decorate_3D ?c)) with (artists c).
    change (artists (plot_all ?c ?l)) with (artists c ++ l).
    change (artists (with_lims ?c _ _ _)) with (artists c).
    change (artists (plot_all ?c ?l)) with (artists c ++ l).
    rewrite !omap_app, segments_particles_3D, segments_pair_lines_3D by done.
    rewrite app_nil_r. destruct central_box; reflexivity.
Qed.

(** A provider for the examples: the plain difference [pos[j] - pos[i]]. *)
Lemma pair_lines_drawn_witness :
  let rel := fun (pos : list (list Q)) (_ : Q) (j i k : nat) =>
               (col k (nth j pos []) - col k (nth i pos []))%Q in
  (exists c : canvas,
     plot_pos_2D rel (add_subplot Rectilinear) [[1; 2]; [4; 6]]%Q 10%Q true true
     = Ok c
     /\ segments c
        = segments (add_subplot Rectilinear)
            ++ pair_segments rel [[1; 2]; [4; 6]]%Q 10%Q 2
     /\ length (pair_segments rel [[1; 2]; [4; 6]]%Q 10%Q 2) = (2 * (2 - 1))%nat)
  /\ (exists c : canvas,
        plot_pos_3D rel (add_subplot ThreeD) [[1; 2; 3]; [4; 6; 8]]%Q 10%Q
          true true false = Ok c
        /\ segments c
           = segments (add_subplot ThreeD)
               ++ pair_segments rel [[1; 2; 3]; [4; 6; 8]]%Q 10%Q 3
        /\ length (pair_segments rel [[1; 2; 3]; [4; 6; 8]]%Q 10%Q 3)
           = (2 * (2 - 1))%nat).
Proof.
  intros rel. split.
  - apply (pair_lines_drawn rel (add_subplot Rectilinear)
             [[1; 2]; [4; 6]]%Q 10%Q true false).
    repeat constructor.
  - apply (pair_lines_drawn rel (add_subplot ThreeD)
             [[1; 2; 3]; [4; 6; 8]]%Q 10%Q true false).
    + reflexivity.
    + repeat constructor.
Defined.

Example pair_segments_two_particles :
  pair_segments
    (fun pos _ j i k => (col k (nth j pos []) - col k (nth i pos []))%Q)
    [[1; 2]; [4; 6]]%Q 10%Q 2
  = [ ([1; 2], [1 + (4 - 1); 2 + (6 - 2)]);
      ([4; 6], [4 + (1 - 4); 6 + (2 - 6)]) ]%Q.
Proof. reflexivity. Qed.

(** ** Replicas and axis limits in three dimensions *)

(** X6.  On three-dimensional axes and for a box length that is not
    vanishingly small, the limits set inside the particle loop are
    overwritten after it whatever the flags: the canvas leaves with [0, L]
    on the three axes. *)
Lemma plot_pos_3D_limits
    (rel_pos : list (list Q) -> Q -> nat -> nat -> nat -> Q)
    (ax : canvas) (pos : list (list Q)) (L : Q)
    (central_box relative_pos outer_boxes : bool) :
  proj ax = ThreeD ->
  (singular_below <= L)%Q ->
  Forall (fun row => 3 <= length row)%nat pos ->
  exists c : canvas,
    plot_pos_3D rel_pos ax pos L central_box relative_pos outer_boxes = Ok c
    /\ xlim c = Some (0, L)%Q /\ ylim c = Some (0, L)%Q /\ zlim c = Some (0, L)%Q.
Proof.
  intros Hp HL Hall. eexists. split.
  { apply plot_pos_3D_closed; [done| |done].
    eapply Forall_impl; [exact Hall|]. cbv beta. lia. }
  change (xlim (decorate_3D ?c)) with (xlim c).
  change (ylim (decorate_3D ?c)) with (ylim c).
  change (zlim (decorate_3D ?c)) with (zlim c).
  cbn [xlim ylim zlim plot_all with_lims].
  by rewrite limits_spanning_zero by (done || lra).
Qed.

(** X7.  On three-dimensional axes, with [central_box=False] and
    [outer_boxes=True], the markers are the 27 images of each particle. *)
Lemma plot_pos_3D_images
    (rel_pos : list (list Q) -> Q -> nat -> nat -> nat -> Q)
    (ax : canvas) (pos : list (list Q)) (L : Q) (relative_pos : bool) :
  proj ax = ThreeD ->
  Forall (fun row => 3 <= length row)%nat pos ->
  exists c : canvas,
    plot_pos_3D rel_pos ax pos L false relative_pos true = Ok c
    /\ marker_positions_3D c
       ≡ₚ marker_positions_3D ax ++ flat_map (images_3D L) pos
    /\ length (marker_positions_3D c)
       = (length (marker_positions_3D ax) + 27 * length pos)%nat.
Proof.
  intros Hp Hall. eexists. split.
  { apply plot_pos_3D_closed; [done| |done].
    eapply Forall_impl; [exact Hall|]. cbv beta. lia. }
  rewrite (marker_positions_3D_closed rel_pos ax pos L false relative_pos).
  split.
  - apply Permutation_app_head, flat_map_Permutation.
    intros row. apply images_3D_drawn.
  - rewrite length_app. f_equal. by apply length_flat_map_const.
Qed.

(** C3, the source at [pos = [[1, 2, 3]]], [L = 10], [outer_boxes=True] and
    the other flags at their defaults.  27 markers are drawn, but the axis
    limits on exit are [0, 10], not [-10, 20], and the marker of the true
    position sits at height 0 instead of 3. *)
Theorem plot_pos_3D_outer_boxes_run :
  exists c : canvas,
    plot_pos_3D no_displacement (add_subplot ThreeD) [[1; 2; 3]]%Q 10%Q
      true false true = Ok c
    /\ xlim c = Some (0, 10)%Q /\ ylim c = Some (0, 10)%Q
    /\ zlim c = Some (0, 10)%Q
    /\ xlim c <> Some (- (10), 2 * 10)%Q
    /\ length (marker_positions_3D c) = 27%nat
    /\ marker_positions_3D c !! 0%nat = Some (1, 2, 0)%Q
    /\ ((1, 2, 3)%Q ∉ marker_positions_3D c)
    /\ ((1, 2, 3)%Q ∈ images_3D 10%Q [1; 2; 3]%Q).
Proof.
  eexists. split.
  { apply plot_pos_3D_closed; [reflexivity | repeat constructor|].
    intros _. repeat constructor. }
  repeat split; try (vm_compute; reflexivity).
  - vm_compute. discriminate.
  - intros H. apply list_elem_of_In in H. vm_compute in H.
    repeat (destruct H as [H|H]; [discriminate H|]). exact H.
  - apply list_elem_of_In. vm_compute. by left.
Qed.

(** ** File names *)

Lemma of_uint_D0 (d : uint) : Nat.of_uint (D0 d) = Nat.of_uint d.
Proof. reflexivity. Qed.

Lemma parse_index_decimal (f : nat) : parse_index (decimal f) = Some f.
Proof.
  unfold parse_index, decimal. rewrite NilEmpty.usu. cbn [option_map].
  f_equal. apply DecimalNat.Unsigned.of_to.
Qed.

Lemma parse_index_zeros (k : nat) (s : string) :
  parse_index (zeros k +:+ s) = parse_index s.
Proof.
  induction k as [|k IH]; [done|].
  unfold parse_index in *. cbn [zeros].
  change (String "0" (zeros k) +:+ s) with (String "0" (zeros k +:+ s)).
  cbn [NilEmpty.uint_of_string].
  destruct (NilEmpty.uint_of_string (zeros k +:+ s)) as [d|];
    rewrite <- IH; reflexivity.
Qed.

(** The frame number is recovered from the formatted index, so the
    formatting loses nothing, beyond 99999 as well. *)
Lemma parse_index_format_05d (f : nat) : parse_index (format_05d f) = Some f.
Proof. unfold format_05d. by rewrite parse_index_zeros, parse_index_decimal. Qed.

Global Instance format_05d_inj : Inj (=) (=) format_05d.
Proof.
  intros f g Hfg. apply (f_equal parse_index) in Hfg.
  rewrite !parse_index_format_05d in Hfg. congruence.
Qed.

Lemma string_length_app (s t : string) :
  String.length (s +:+ t) = (String.length s + String.length t)%nat.
Proof.
  induction s as [|a s IH]; [done|].
  change (String a s +:+ t) with (String a (s +:+ t)). cbn. by rewrite IH.
Qed.

Lemma string_app_inv_tail (s1 s2 t : string) : s1 +:+ t = s2 +:+ t -> s1 = s2.
Proof.
  revert s2. induction s1 as [|a s1 IH]; intros [|b s2] H; [done| | |].
  - apply (f_equal String.length) in H.
    rewrite !string_length_app in H. cbn in H. lia.
  - apply (f_equal String.length) in H.
    rewrite !string_length_app in H. cbn in H. lia.
  - change (String a (s1 +:+ t) = String b (s2 +:+ t)) in H.
    injection H as -> H. f_equal. by apply IH.
Qed.

Global Instance frame_name_inj (tag : string) : Inj (=) (=) (frame_name tag).
Proof.
  intros f g H. unfold frame_name in H.
  apply (inj (String.app _)) in H. apply (inj (String.app _)) in H.
  apply string_app_inv_tail in H. by apply (inj format_05d).
Qed.

Lemma NoDup_frame_names (tag : string) (s n : nat) :
  NoDup (map (frame_name tag) (seq s n)).
Proof. apply (NoDup_fmap_2 (frame_name tag)), NoDup_seq. Qed.

Example frame_name_2D_4 : frame_name "2D" 4 = "tmp-plot/pair_int_2D00004.png".
Proof. reflexivity. Qed.

(** Beyond five digits the index is written in full. *)
Example frame_name_3D_100023 :
  frame_name "3D" (100 * 1000 + 23) = "tmp-plot/pair_int_3D100023.png".
Proof. vm_compute. reflexivity. Qed.

(** ** Running the pipeline *)

Lemma mbind_ok {A B : Type} (m : M A) (k : A -> M B) (w w' : world) (a : A) :
  m w = (Ok a, w') -> mbind m k w = k a w'.
Proof. intros H. unfold mbind. by rewrite H. Qed.

Lemma mbind_raise {A B : Type} (m : M A) (k : A -> M B) (w w' : world) (e : exn) :
  m w = (Raise e, w') -> mbind m k w = (Raise e, w').
Proof. intros H. unfold mbind. by rewrite H. Qed.

Lemma lookup_write_all_other (keys : list string) (vs : list canvas)
    (m : gmap string canvas) (k : string) :
  k ∉ keys -> write_all m (zip keys vs) !! k = m !! k.
Proof.
  revert vs m. induction keys as [|k0 keys IH]; intros vs m Hk; [done|].
  destruct vs as [|v vs]; [done|].
  apply not_elem_of_cons in Hk as [Hne Hk].
  cbn. unfold write_all in IH. rewrite IH by done.
  by rewrite lookup_insert_ne.
Qed.

Lemma lookup_write_all (keys : list string) (vs : list canvas)
    (m : gmap string canvas) (i : nat) (k : string) (v : canvas) :
  NoDup keys -> keys !! i = Some k -> vs !! i = Some v ->
  write_all m (zip keys vs) !! k = Some v.
Proof.
  revert vs m i. induction keys as [|k0 keys IH]; intros vs m i Hnd Hk Hv;
    [done|].
  destruct vs as [|v0 vs]; [done|].
  apply NoDup_cons in Hnd as [Hfresh Hnd].
  destruct i as [|i]; cbn in Hk, Hv.
  - injection Hk as ->. injection Hv as ->.
    change (write_all (<[k := v]> m) (zip keys vs) !! k = Some v).
    rewrite lookup_write_all_other by done. apply lookup_insert_eq.
  - change (write_all (<[k0 := v0]> m) (zip keys vs) !! k = Some v).
    by eapply IH.
Qed.

Section Run.

Variable p : projection.
Variable render : canvas -> list (list Q) -> Q -> result canvas.
Variable tag : string.
Variable time : list Q.
Variable pos : list (list (list Q)).
Variable box_dim : Q.

Lemma save_one_frame_run (f : nat) (t : Z) (c : canvas) (w : world) :
  frame_ok p render time pos box_dim t c ->
  "tmp-plot" ∈ entries w ->
  save_one_frame_with render tag time pos box_dim (add_subplot p) (f, t) w
  = (Ok (add_subplot p),
     mk_world (entries w) (<[frame_name tag f := c]> (files w)) (gifs w)
       (events w ++ [Ev_savefig (frame_name tag f)])).
Proof.
  unfold frame_ok, frame_with, save_one_frame_with. intros [Hc Hp] Hdir.
  destruct (getitem pos t) as [pos_t|]; [|discriminate Hc].
  rewrite rbind_ok in Hc.
  destruct (render (add_subplot p) pos_t box_dim) as [ax|] eqn:Hr;
    [|discriminate Hc].
  rewrite rbind_ok in Hc.
  destruct (getitem time t) as [time_t|]; [|discriminate Hc].
  rewrite rbind_ok in Hc. injection Hc as <-.
  unfold mbind, lift, savefig, mret, log. rewrite Hr.
  rewrite decide_True by done. unfold cla. by rewrite Hp.
Qed.

Lemma frames_loop_run (ts : list Z) (s : nat) (cs : list canvas) (w : world) :
  Forall2 (frame_ok p render time pos box_dim) ts cs ->
  "tmp-plot" ∈ entries w ->
  for_each_M (zip (seq s (length ts)) ts) (add_subplot p)
    (save_one_frame_with render tag time pos box_dim) w
  = (Ok (add_subplot p),
     mk_world (entries w)
       (write_all (files w) (zip (map (frame_name tag) (seq s (length ts))) cs))
       (gifs w)
       (events w ++ map Ev_savefig (map (frame_name tag) (seq s (length ts))))).
Proof.
  intros Hcs. revert s w.
  induction Hcs as [|t c ts cs Hc Hcs IH]; intros s w Hdir.
  - destruct w. cbn. by rewrite app_nil_r.
  - cbn [length seq zip zip_with for_each_M map].
    rewrite (mbind_ok _ _ _ _ _ (save_one_frame_run s t c w Hc Hdir)).
    rewrite IH by done. cbn [entries files gifs events].
    by rewrite <- app_assoc.
Qed.

Lemma read_and_append_run (gif_name filename : string) (image : canvas)
    (a : animation) (w : world) :
  files w !! filename = Some image -> gifs w !! gif_name = Some a ->
  exists w',
    read_and_append gif_name tt filename w = (Ok tt, w')
    /\ entries w' = entries w /\ files w' = files w
    /\ gifs w' !! gif_name
       = Some (mk_animation (frames a ++ [image]) (duration a))
    /\ events w' = events w ++ [Ev_imread filename; Ev_append gif_name].
Proof.
  intros Hfile Hgif. eexists. unfold read_and_append, mbind, imread.
  rewrite Hfile. unfold append_data, log.
  split; [reflexivity|]. cbn [entries files gifs events].
  split; [done|]. split; [done|]. split.
  - by rewrite lookup_alter_eq, Hgif.
  - by rewrite <- app_assoc.
Qed.

Lemma read_loop_run (gif_name : string) (names : list string)
    (imgs : list canvas) (a : animation) (w : world) :
  Forall2 (fun name img => files w !! name = Some img) names imgs ->
  gifs w !! gif_name = Some a ->
  exists w',
    for_each_M names tt (read_and_append gif_name) w = (Ok tt, w')
    /\ entries w' = entries w /\ files w' = files w
    /\ gifs w' !! gif_name = Some (mk_animation (frames a ++ imgs) (duration a))
    /\ events w'
       = events w
           ++ flat_map (fun name => [Ev_imread name; Ev_append gif_name]) names.
Proof.
  intros Himgs. revert imgs a w Himgs.
  induction names as [|name names IH]; intros imgs a w Himgs Hgif.
  - apply Forall2_nil_inv_l in Himgs as ->. exists w.
    cbn. rewrite !app_nil_r. by destruct a.
  - apply Forall2_cons_inv_l in Himgs as (img & imgs' & Himg & Himgs & ->).
    destruct (read_and_append_run gif_name name img a w Himg Hgif)
      as (w1 & Hrun & Hent & Hfiles & Hgif1 & Hev).
    destruct (IH imgs' (mk_animation (frames a ++ [img]) (duration a)) w1)
      as (w' & Hloop & Hent' & Hfiles' & Hgif' & Hev');
      [by rewrite Hfiles | exact Hgif1 |].
    exists w'. cbn [for_each_M]. rewrite (mbind_ok _ _ _ _ _ Hrun).
    split; [done|]. split; [congruence|]. split; [congruence|]. split.
    + rewrite Hgif'. cbn [frames duration]. by rewrite <- app_assoc.
    + rewrite Hev', Hev. cbn [flat_map]. by rewrite <- app_assoc.
Qed.

(** The read loop on a directory with a gap: the files before the gap are
    appended in order, the read of the missing file raises, nothing after
    it is read. *)
Lemma read_loop_gap (gif_name : string) (before : list string)
    (missing : string) (after : list string)
    (imgs : list canvas) (a : animation) (w : world) :
  Forall2 (fun name img => files w !! name = Some img) before imgs ->
  files w !! missing = None ->
  gifs w !! gif_name = Some a ->
  exists w',
    for_each_M (before ++ missing :: after) tt (read_and_append gif_name) w
    = (Raise (FileNotFoundError missing), w')
    /\ files w' = files w
    /\ gifs w' !! gif_name = Some (mk_animation (frames a ++ imgs) (duration a))
    /\ events w'
       = events w
           ++ flat_map (fun name => [Ev_imread name; Ev_append gif_name]) before
           ++ [Ev_imread missing].
Proof.
  intros Himgs. revert imgs a w Himgs.
  induction before as [|name before IH]; intros imgs a w Himgs Hmiss Hgif.
  - apply Forall2_nil_inv_l in Himgs as ->. eexists.
    cbn [app for_each_M]. unfold read_and_append at 1, mbind, imread.
    rewrite Hmiss. split; [reflexivity|]. unfold log.
    cbn [entries files gifs events flat_map app].
    split; [done|]. split; [|done].
    rewrite app_nil_r. by destruct a.
  - apply Forall2_cons_inv_l in Himgs as (img & imgs' & Himg & Himgs & ->).
    destruct (read_and_append_run gif_name name img a w Himg Hgif)
      as (w1 & Hrun & Hent & Hfiles & Hgif1 & Hev).
    destruct (IH imgs' (mk_animation (frames a ++ [img]) (duration a)) w1)
      as (w' & Hloop & Hfiles' & Hgif' & Hev');
      [by rewrite Hfiles | by rewrite Hfiles | exact Hgif1 |].
    exists w'. cbn [app for_each_M]. rewrite (mbind_ok _ _ _ _ _ Hrun).
    split; [done|]. split; [congruence|]. split.
    + rewrite Hgif'. cbn [frames duration]. by rewrite <- app_assoc.
    + rewrite Hev', Hev. cbn [flat_map]. by rewrite <- !app_assoc.
Qed.

Lemma ensure_tmp_plot_run (w : world) :
  exists w1,
    ensure_tmp_plot w = (Ok tt, w1)
    /\ "tmp-plot" ∈ entries w1
    /\ files w1 = files w /\ gifs w1 = gifs w
    /\ events w1
       = events w
           ++ (if decide ("tmp-plot" ∈ entries w) then []
               else [Ev_mkdir "tmp-plot"]).
Proof.
  unfold ensure_tmp_plot, mbind, os_listdir.
  destruct (decide ("tmp-plot" ∈ entries w)) as [Hin|Hout].
  - exists w. unfold mret. by rewrite app_nil_r.
  - eexists. unfold os_mkdir, log. split; [reflexivity|].
    cbn [entries files gifs events]. split; [set_solver | done].
Qed.

Lemma build_gif_with_run (gif_name : string) (num_frames : Z) (n : nat)
    (imgs : list canvas) (w : world) :
  num_frames <> 0 ->
  Forall2 (fun name img => files w !! name = Some img)
    (map (frame_name tag) (seq 0 n)) imgs ->
  exists w',
    build_gif_with tag gif_name num_frames n w = (Ok tt, w')
    /\ entries w' = {[gif_name]} ∪ entries w /\ files w' = files w
    /\ gifs w' !! gif_name
       = Some (mk_animation imgs (inject_Z 3 / inject_Z num_frames)%Q)
    /\ events w'
       = events w
           ++ flat_map (fun name => [Ev_imread name; Ev_append gif_name])
                (map (frame_name tag) (seq 0 n)).
Proof.
  intros Hnz Himgs. unfold build_gif_with, truediv.
  destruct (Z.eqb_spec num_frames 0) as [|_]; [done|].
  unfold mbind at 1, lift. unfold mbind at 1, get_writer.
  change (for_each_M ?l tt _) with (for_each_M l tt (read_and_append gif_name)).
  match goal with |- context [for_each_M _ tt _ ?w1] =>
    destruct (read_loop_run gif_name (map (frame_name tag) (seq 0 n)) imgs
                (mk_animation [] (inject_Z 3 / inject_Z num_frames)%Q) w1)
      as (w' & Hloop & Hent & Hfiles & Hgif & Hev)
  end.
  - done.
  - cbn [gifs]. apply lookup_insert_eq.
  - exists w'. done.
Qed.

Lemma GIF_with_run
    (load_data : string -> list Q * list (list (list Q)) * list (list (list Q)))
    (gif_name data_file : string) (num_frames : Z) (vel : list (list (list Q)))
    (cs : list canvas) (w : world) :
  load_data data_file = (time, pos, vel) ->
  num_frames <> 0 ->
  Forall2 (frame_ok p render time pos box_dim)
    (plan_of (Z.of_nat (length time)) num_frames) cs ->
  let names := map (frame_name tag) (seq 0 (length cs)) in
  exists w',
    GIF_with load_data p render tag gif_name data_file num_frames box_dim w
    = (Ok tt, w')
    /\ files w' = write_all (files w) (zip names cs)
    /\ gifs w' !! gif_name
       = Some (mk_animation cs (inject_Z 3 / inject_Z num_frames)%Q)
    /\ events w'
       = events w
           ++ (if decide ("tmp-plot" ∈ entries w) then []
               else [Ev_mkdir "tmp-plot"])
           ++ map Ev_savefig names
           ++ flat_map (fun name => [Ev_imread name; Ev_append gif_name]) names.
Proof.
  intros Hload Hnz Hcs names. unfold GIF_with. rewrite Hload.
  unfold mbind at 1, lift. rewrite save_frame_closed_form.
  destruct (ensure_tmp_plot_run w) as (w1 & Hens & Hdir & Hfiles1 & Hgifs1 & Hev1).
  rewrite (mbind_ok _ _ _ _ _ Hens).
  pose proof (Forall2_length _ _ _ Hcs) as Hlen.
  unfold enumerate. rewrite Hlen in *.
  rewrite (mbind_ok _ _ _ _ _
             (eq_trans (f_equal (fun n => for_each_M (zip (seq 0 n) _) _ _ w1)
                          (eq_sym Hlen))
                (frames_loop_run _ 0 cs w1 Hcs Hdir))).
  rewrite Hlen. fold names.
  match goal with |- context [build_gif_with _ _ _ _ ?w2] =>
    destruct (build_gif_with_run gif_name num_frames (length cs) cs w2 Hnz)
      as (w' & Hrun & Hent & Hfiles & Hgif & Hev)
  end.
  { apply Forall2_same_length_lookup_2.
    - by rewrite length_map, length_seq.
    - intros i name c Hname Hc. cbn [files].
      eapply lookup_write_all;
        [apply NoDup_frame_names | exact Hname | exact Hc]. }
  exists w'. split; [done|]. split; [by rewrite Hfiles, Hfiles1|].
  split; [done|]. rewrite Hev. cbn [events]. rewrite Hev1.
  by rewrite <- !app_assoc.
Qed.

End Run.

(** ** The pipelines are instances of [GIF_with] *)

Lemma GIF_2D_with
    (rel_pos : list (list Q) -> Q -> nat -> nat -> nat -> Q)
    (load_data : string -> list Q * list (list (list Q)) * list (list (list Q)))
    (gif_name data_file : string) (num_frames : Z) (box_dim : Q) :
  GIF_2D rel_pos load_data gif_name data_file num_frames box_dim
  = GIF_with load_data Rectilinear (render_2D rel_pos) "2D"
      gif_name data_file num_frames box_dim.
Proof. reflexivity. Qed.

Lemma GIF_3D_with
    (rel_pos : list (list Q) -> Q -> nat -> nat -> nat -> Q)
    (load_data : string -> list Q * list (list (list Q)) * list (list (list Q)))
    (gif_name data_file : string) (num_frames : Z) (box_dim : Q) :
  GIF_3D rel_pos load_data gif_name data_file num_frames box_dim
  = GIF_with load_data ThreeD (render_3D rel_pos) "3D"
      gif_name data_file num_frames box_dim.
Proof. reflexivity. Qed.

Lemma build_gif_2D_with (gif_name : string) (num_frames : Z) (n : nat) :
  build_gif_2D gif_name num_frames n = build_gif_with "2D" gif_name num_frames n.
Proof. reflexivity. Qed.

Lemma build_gif_3D_with (gif_name : string) (num_frames : Z) (n : nat) :
  build_gif_3D gif_name num_frames n = build_gif_with "3D" gif_name num_frames n.
Proof. reflexivity. Qed.

(** ** The frames of a well-formed trajectory *)

(** A plan is in range when it has at most [2^53] frames or the trajectory
    at most [2^53] steps. *)
Lemma plan_of_in_range_1 (num_tsteps num_frames : Z) (k : nat) (t : Z) :
  1 <= num_tsteps -> 1 <= num_frames ->
  num_frames <= 2 ^ 53 \/ num_tsteps <= 2 ^ 53 ->
  plan_of num_tsteps num_frames !! k = Some t ->
  0 <= t <= num_tsteps - 1.
Proof.
  intros Hn Hm Hsize Hk.
  destruct (lookup_plan_of_inv _ _ _ _ Hm Hk) as [[Hlt ->]|[_ ->]]; [|lia].
  destruct Hsize; [apply sample_bounds_frames | apply sample_bounds]; lia.
Qed.

Lemma getitem_in_range {A : Type} (l : list A) (t : Z) (d : A) :
  0 <= t < Z.of_nat (length l) -> getitem l t = Ok (nth (Z.to_nat t) l d).
Proof.
  intros Ht. unfold getitem.
  assert ((0 <=? t) && (t <? Z.of_nat (length l)) = true) as ->.
  { apply andb_true_iff. split; [apply Z.leb_le | apply Z.ltb_lt]; lia. }
  destruct (l !! Z.to_nat t) as [a|] eqn:Ha.
  - by rewrite (nth_lookup_Some _ _ _ _ Ha).
  - apply lookup_ge_None in Ha. lia.
Qed.

Lemma Forall_exists_Forall2 {A B : Type} (P : A -> B -> Prop) (l : list A) :
  Forall (fun x => exists y, P x y) l -> exists k, Forall2 P l k.
Proof.
  induction 1 as [|x l [y Hy] _ [k Hk]].
  - by exists [].
  - exists (y :: k). by constructor.
Qed.

Section Frames.

Variable p : projection.
Variable render : canvas -> list (list Q) -> Q -> result canvas.
Variable time : list Q.
Variable pos : list (list (list Q)).
Variable box_dim : Q.

Hypothesis render_ok :
  forall pos_t, pos_t ∈ pos ->
    exists c, render (add_subplot p) pos_t box_dim = Ok c /\ proj c = p.
Hypothesis same_length : length pos = length time.

Lemma frame_in_range (t : Z) :
  0 <= t < Z.of_nat (length time) ->
  exists c, frame_ok p render time pos box_dim t c
            /\ title c = Some (nth (Z.to_nat t) time 0%Q).
Proof.
  intros Ht. unfold frame_ok, frame_with.
  rewrite (getitem_in_range pos t []) by lia.
  rewrite (getitem_in_range time t 0%Q) by lia.
  destruct (render_ok (nth (Z.to_nat t) pos [])) as (c & Hc & Hp).
  { apply list_elem_of_In, nth_In. lia. }
  exists (set_title c (nth (Z.to_nat t) time 0%Q)).
  rewrite rbind_ok, Hc, !rbind_ok. done.
Qed.

Lemma frames_of_plan (num_frames : Z) :
  time <> [] -> 1 <= num_frames ->
  num_frames <= 2 ^ 53 \/ Z.of_nat (length time) <= 2 ^ 53 ->
  exists cs,
    Forall2 (fun t c => frame_ok p render time pos box_dim t c
                        /\ title c = Some (nth (Z.to_nat t) time 0%Q))
      (plan_of (Z.of_nat (length time)) num_frames) cs.
Proof.
  intros Hne Hm Hsize. apply Forall_exists_Forall2, Forall_forall. intros t Ht.
  apply list_elem_of_lookup in Ht as [k Hk].
  apply frame_in_range.
  assert (1 <= Z.of_nat (length time)) as Hn.
  { destruct time; [done | cbn; lia]. }
  pose proof (plan_of_in_range_1 _ _ _ _ Hn Hm Hsize Hk). lia.
Qed.

End Frames.

Lemma render_2D_ok (rel_pos : list (list Q) -> Q -> nat -> nat -> nat -> Q)
    (pos : list (list (list Q))) (box_dim : Q) :
  Forall (Forall (fun row => 2 <= length row)%nat) pos ->
  forall pos_t, pos_t ∈ pos ->
    exists c, render_2D rel_pos (add_subplot Rectilinear) pos_t box_dim = Ok c
              /\ proj c = Rectilinear.
Proof.
  intros Hall pos_t Hin. rewrite Forall_forall in Hall.
  eexists. split; [apply plot_pos_2D_closed; auto | reflexivity].
Qed.

Lemma render_3D_ok (rel_pos : list (list Q) -> Q -> nat -> nat -> nat -> Q)
    (pos : list (list (list Q))) (box_dim : Q) :
  Forall (Forall (fun row => 2 <= length row)%nat) pos ->
  forall pos_t, pos_t ∈ pos ->
    exists c, render_3D rel_pos (add_subplot ThreeD) pos_t box_dim = Ok c
              /\ proj c = ThreeD.
Proof.
  intros Hall pos_t Hin. rewrite Forall_forall in Hall.
  eexists. split.
  { apply plot_pos_3D_closed; [reflexivity | auto |].
    intros [?|[?|?]]; discriminate. }
  reflexivity.
Qed.

(** ** The trace of a run *)

Lemma saved_app (l k : list event) : saved (l ++ k) = saved l ++ saved k.
Proof. apply omap_app. Qed.

Lemma read_app (l k : list event) : read (l ++ k) = read l ++ read k.
Proof. apply omap_app. Qed.

Lemma saved_savefig (names : list string) : saved (map Ev_savefig names) = names.
Proof. induction names as [|n names IH]; [done|]. cbn. by f_equal. Qed.

Lemma read_savefig (names : list string) : read (map Ev_savefig names) = [].
Proof. by induction names. Qed.

Lemma saved_read_append (gif_name : string) (names : list string) :
  saved (flat_map (fun name => [Ev_imread name; Ev_append gif_name]) names) = [].
Proof. by induction names. Qed.

Lemma read_read_append (gif_name : string) (names : list string) :
  read (flat_map (fun name => [Ev_imread name; Ev_append gif_name]) names)
  = names.
Proof. induction names as [|n names IH]; [done|]. cbn. by f_equal. Qed.

Lemma saved_mkdir (b : bool) :
  saved (if b then [] else [Ev_mkdir "tmp-plot"]) = [].
Proof. by destruct b. Qed.

Lemma read_mkdir (b : bool) :
  read (if b then [] else [Ev_mkdir "tmp-plot"]) = [].
Proof. by destruct b. Qed.

(** ** A run on a well-formed trajectory *)

Lemma GIF_with_well_formed
    (load_data : string -> list Q * list (list (list Q)) * list (list (list Q)))
    (p : projection) (render : canvas -> list (list Q) -> Q -> result canvas)
    (tag gif_name data_file : string) (num_frames : Z) (box_dim : Q)
    (time : list Q) (pos vel : list (list (list Q))) (w : world) :
  load_data data_file = (time, pos, vel) ->
  length pos = length time -> time <> [] -> 1 <= num_frames ->
  num_frames <= 2 ^ 53 \/ Z.of_nat (length time) <= 2 ^ 53 ->
  (forall pos_t, pos_t ∈ pos ->
     exists c, render (add_subplot p) pos_t box_dim = Ok c /\ proj c = p) ->
  let names := map (frame_name tag) (seq 0 (Z.to_nat num_frames)) in
  exists (w' : world) (cs : list canvas),
    GIF_with load_data p render tag gif_name data_file num_frames box_dim w
    = (Ok tt, w')
    /\ length cs = Z.to_nat num_frames
    /\ Forall2 (fun t c => frame_with p render time pos box_dim t = Ok c
                           /\ title c = Some (nth (Z.to_nat t) time 0%Q))
         (plan_of (Z.of_nat (length time)) num_frames) cs
    /\ files w' = write_all (files w) (zip names cs)
    /\ gifs w' !! gif_name
       = Some (mk_animation cs (inject_Z 3 / inject_Z num_frames)%Q)
    /\ saved (events w') = saved (events w) ++ names
    /\ read (events w') = read (events w) ++ names.
Proof.
  intros Hload Hlen Hne Hm Hsize Hrender names.
  destruct (frames_of_plan p render time pos box_dim Hrender Hlen num_frames
              Hne Hm Hsize) as (cs & Hcs).
  assert (length cs = Z.to_nat num_frames) as Hcslen.
  { rewrite <- (Forall2_length _ _ _ Hcs). by apply length_plan_of. }
  destruct (GIF_with_run p render tag time pos box_dim load_data gif_name
              data_file num_frames vel cs w Hload) as (w' & Hrun & Hf & Hg & He).
  { lia. }
  { eapply Forall2_impl; [exact Hcs|]. by intros t c [Hok _]. }
  rewrite Hcslen in Hf, He. fold names in Hf, He.
  exists w', cs. split; [done|]. split; [done|]. split.
  { eapply Forall2_impl; [exact Hcs|]. by intros t c [[Hok _] Ht]. }
  split; [done|]. split; [done|].
  rewrite He, !saved_app, !read_app, saved_savefig, read_savefig,
    saved_read_append, read_read_append.
  destruct (decide ("tmp-plot" ∈ entries w)); cbn [saved read omap list_omap];
    by rewrite ?app_nil_r.
Qed.

Lemma GIF_2D_well_formed
    (rel_pos : list (list Q) -> Q -> nat -> nat -> nat -> Q)
    (load_data : string -> list Q * list (list (list Q)) * list (list (list Q)))
    (gif_name data_file : string) (num_frames : Z) (box_dim : Q)
    (time : list Q) (pos vel : list (list (list Q))) (w : world) :
  load_data data_file = (time, pos, vel) ->
  well_formed time pos -> 1 <= num_frames ->
  num_frames <= 2 ^ 53 \/ Z.of_nat (length time) <= 2 ^ 53 ->
  let names := map (frame_name "2D") (seq 0 (Z.to_nat num_frames)) in
  exists (w' : world) (cs : list canvas),
    GIF_2D rel_pos load_data gif_name data_file num_frames box_dim w
    = (Ok tt, w')
    /\ length cs = Z.to_nat num_frames
    /\ Forall2 (fun t c =>
                  frame_with Rectilinear (render_2D rel_pos) time pos box_dim t
                  = Ok c
                  /\ title c = Some (nth (Z.to_nat t) time 0%Q))
         (plan_of (Z.of_nat (length time)) num_frames) cs
    /\ files w' = write_all (files w) (zip names cs)
    /\ gifs w' !! gif_name
       = Some (mk_animation cs (inject_Z 3 / inject_Z num_frames)%Q)
    /\ saved (events w') = saved (events w) ++ names
    /\ read (events w') = read (events w) ++ names.
Proof.
  intros Hload (Hlen & Hne & Hshape) Hm Hsize. rewrite GIF_2D_with.
  apply (GIF_with_well_formed _ _ _ _ _ _ _ _ time pos vel); try done.
  by apply render_2D_ok.
Qed.

Lemma GIF_3D_well_formed
    (rel_pos : list (list Q) -> Q -> nat -> nat -> nat -> Q)
    (load_data : string -> list Q * list (list (list Q)) * list (list (list Q)))
    (gif_name data_file : string) (num_frames : Z) (box_dim : Q)
    (time : list Q) (pos vel : list (list (list Q))) (w : world) :
  load_data data_file = (time, pos, vel) ->
  well_formed time pos -> 1 <= num_frames ->
  num_frames <= 2 ^ 53 \/ Z.of_nat (length time) <= 2 ^ 53 ->
  let names := map (frame_name "3D") (seq 0 (Z.to_nat num_frames)) in
  exists (w' : world) (cs : list canvas),
    GIF_3D rel_pos load_data gif_name data_file num_frames box_dim w
    = (Ok tt, w')
    /\ length cs = Z.to_nat num_frames
    /\ Forall2 (fun t c =>
                  frame_with ThreeD (render_3D rel_pos) time pos box_dim t
                  = Ok c
                  /\ title c = Some (nth (Z.to_nat t) time 0%Q))
         (plan_of (Z.of_nat (length time)) num_frames) cs
    /\ files w' = write_all (files w) (zip names cs)
    /\ gifs w' !! gif_name
       = Some (mk_animation cs (inject_Z 3 / inject_Z num_frames)%Q)
    /\ saved (events w') = saved (events w) ++ names
    /\ read (events w') = read (events w) ++ names.
Proof.
  intros Hload (Hlen & Hne & Hshape) Hm Hsize. rewrite GIF_3D_with.
  apply (GIF_with_well_formed _ _ _ _ _ _ _ _ time pos vel); try done.
  by apply render_3D_ok.
Qed.

(** ** Frame files: written once, read once, in order *)

(** C5.  On a well-formed trajectory, with [num_frames >= 2] and either at
    most [2^53] frames or at most [2^53] timesteps, so that every sampled
    index lies inside the trajectory, each pipeline saves exactly one file per entry of the
    sample plan, under the names [tmp-plot/pair_int_<tag><index>.png] whose
    zero-padded index runs 0, 1, 2, ... whatever timesteps were sampled, and
    then reads exactly those files, each once, in the same ascending
    order. *)
Theorem frame_files_written_then_read
    (rel_pos : list (list Q) -> Q -> nat -> nat -> nat -> Q)
    (load_data : string -> list Q * list (list (list Q)) * list (list (list Q)))
    (gif_name data_file : string) (num_frames : Z) (box_dim : Q)
    (time : list Q) (pos vel : list (list (list Q))) (w : world) :
  load_data data_file = (time, pos, vel) ->
  well_formed time pos ->
  num_frames <= 2 ^ 53 \/ Z.of_nat (length time) <= 2 ^ 53 ->
  2 <= num_frames ->
  let names := fun tag => map (frame_name tag) (seq 0 (Z.to_nat num_frames)) in
  (exists plan,
     save_frame (Z.of_nat (length time)) num_frames = Ok plan
     /\ length (names "2D") = length plan /\ length (names "3D") = length plan)
  /\ (exists w',
        GIF_2D rel_pos load_data gif_name data_file num_frames box_dim w
        = (Ok tt, w')
        /\ saved (events w') = saved (events w) ++ names "2D"
        /\ read (events w') = read (events w) ++ names "2D")
  /\ (exists w',
        GIF_3D rel_pos load_data gif_name data_file num_frames box_dim w
        = (Ok tt, w')
        /\ saved (events w') = saved (events w) ++ names "3D"
        /\ read (events w') = read (events w) ++ names "3D")
  /\ (forall tag, NoDup (names tag))
  /\ (forall tag (k : nat), (k < Z.to_nat num_frames)%nat ->
        names tag !! k = Some (frame_name tag k)
        /\ parse_index (format_05d k) = Some k).
Proof.
  intros Hload Hwf Hsize Hm names. split; [|split; [|split; [|split]]].
  - exists (plan_of (Z.of_nat (length time)) num_frames).
    split; [apply save_frame_closed_form|].
    unfold names. rewrite !length_map, !length_seq, length_plan_of by lia.
    done.
  - destruct (GIF_2D_well_formed rel_pos load_data gif_name data_file
                num_frames box_dim time pos vel w Hload Hwf)
      as (w' & cs & Hrun & _ & _ & _ & _ & Hs & Hr); [lia | done |].
    by exists w'.
  - destruct (GIF_3D_well_formed rel_pos load_data gif_name data_file
                num_frames box_dim time pos vel w Hload Hwf)
      as (w' & cs & Hrun & _ & _ & _ & _ & Hs & Hr); [lia | done |].
    by exists w'.
  - intros tag. apply NoDup_frame_names.
  - intros tag k Hk. split; [|apply parse_index_format_05d].
    unfold names. by rewrite list_lookup_fmap, lookup_seq_lt.
Qed.

Lemma frame_files_written_then_read_witness :
  let names := fun tag => map (frame_name tag) (seq 0 (Z.to_nat 5)) in
  (exists plan,
     save_frame (Z.of_nat (length (fst (fst example_3D)))) 5 = Ok plan
     /\ length (names "2D") = length plan /\ length (names "3D") = length plan)
  /\ (exists w',
        GIF_2D no_displacement (fun _ => example_3D) "out.gif" "data.csv" 5 10%Q
          empty_world = (Ok tt, w')
        /\ saved (events w') = saved (events empty_world) ++ names "2D"
        /\ read (events w') = read (events empty_world) ++ names "2D")
  /\ (exists w',
        GIF_3D no_displacement (fun _ => example_3D) "out.gif" "data.csv" 5 10%Q
          empty_world = (Ok tt, w')
        /\ saved (events w') = saved (events empty_world) ++ names "3D"
        /\ read (events w') = read (events empty_world) ++ names "3D")
  /\ (forall tag, NoDup (names tag))
  /\ (forall tag (k : nat), (k < Z.to_nat 5)%nat ->
        names tag !! k = Some (frame_name tag k)
        /\ parse_index (format_05d k) = Some k).
Proof.
  apply (frame_files_written_then_read no_displacement (fun _ => example_3D)
           "out.gif" "data.csv" 5 10%Q
           (fst (fst example_3D)) (snd (fst example_3D)) (snd example_3D)
           empty_world).
  - reflexivity.
  - split; [reflexivity | split; [discriminate | repeat constructor]].
  - left. lia.
  - lia.
Defined.

Example GIF_2D_saved_names :
  saved (events (snd (GIF_2D no_displacement (fun _ => example_2D)
                        "out.gif" "data.csv" 5 10%Q empty_world)))
  = [ "tmp-plot/pair_int_2D00000.png"; "tmp-plot/pair_int_2D00001.png";
      "tmp-plot/pair_int_2D00002.png"; "tmp-plot/pair_int_2D00003.png";
      "tmp-plot/pair_int_2D00004.png" ].
Proof. vm_compute. reflexivity. Qed.

(** ** Frame duration *)

(** C7.  On a well-formed trajectory, with [num_frames >= 2] and either at
    most [2^53] frames or at most [2^53] timesteps, so that every sampled
    index lies inside the trajectory, the GIF written by either pipeline holds [num_frames]
    frames under the single duration [3 / num_frames]; for ten frames that
    is 0.3. *)
Theorem frame_duration
    (rel_pos : list (list Q) -> Q -> nat -> nat -> nat -> Q)
    (load_data : string -> list Q * list (list (list Q)) * list (list (list Q)))
    (gif_name data_file : string) (num_frames : Z) (box_dim : Q)
    (time : list Q) (pos vel : list (list (list Q))) (w : world) :
  load_data data_file = (time, pos, vel) ->
  well_formed time pos ->
  num_frames <= 2 ^ 53 \/ Z.of_nat (length time) <= 2 ^ 53 ->
  2 <= num_frames ->
  (exists w' a,
     GIF_2D rel_pos load_data gif_name data_file num_frames box_dim w
     = (Ok tt, w')
     /\ gifs w' !! gif_name = Some a
     /\ length (frames a) = Z.to_nat num_frames
     /\ duration a = (inject_Z 3 / inject_Z num_frames)%Q)
  /\ (exists w' a,
        GIF_3D rel_pos load_data gif_name data_file num_frames box_dim w
        = (Ok tt, w')
        /\ gifs w' !! gif_name = Some a
        /\ length (frames a) = Z.to_nat num_frames
        /\ duration a = (inject_Z 3 / inject_Z num_frames)%Q)
  /\ (num_frames = 10 -> (inject_Z 3 / inject_Z num_frames)%Q = 0.3%Q).
Proof.
  intros Hload Hwf Hsize Hm. split; [|split].
  - destruct (GIF_2D_well_formed rel_pos load_data gif_name data_file
                num_frames box_dim time pos vel w Hload Hwf)
      as (w' & cs & Hrun & Hlen & _ & _ & Hgif & _); [lia | done |].
    by exists w', (mk_animation cs (inject_Z 3 / inject_Z num_frames)%Q).
  - destruct (GIF_3D_well_formed rel_pos load_data gif_name data_file
                num_frames box_dim time pos vel w Hload Hwf)
      as (w' & cs & Hrun & Hlen & _ & _ & Hgif & _); [lia | done |].
    by exists w', (mk_animation cs (inject_Z 3 / inject_Z num_frames)%Q).
  - by intros ->.
Qed.

Lemma frame_duration_witness :
  (exists w' a,
     GIF_2D no_displacement (fun _ => example_3D) "out.gif" "data.csv" 10 10%Q
       empty_world = (Ok tt, w')
     /\ gifs w' !! "out.gif" = Some a
     /\ length (frames a) = Z.to_nat 10
     /\ duration a = (inject_Z 3 / inject_Z 10)%Q)
  /\ (exists w' a,
        GIF_3D no_displacement (fun _ => example_3D) "out.gif" "data.csv" 10 10%Q
          empty_world = (Ok tt, w')
        /\ gifs w' !! "out.gif" = Some a
        /\ length (frames a) = Z.to_nat 10
        /\ duration a = (inject_Z 3 / inject_Z 10)%Q)
  /\ (10 = 10 -> (inject_Z 3 / inject_Z 10)%Q = 0.3%Q).
Proof.
  apply (frame_duration no_displacement (fun _ => example_3D)
           "out.gif" "data.csv" 10 10%Q
           (fst (fst example_3D)) (snd (fst example_3D)) (snd example_3D)
           empty_world).
  - reflexivity.
  - split; [reflexivity | split; [discriminate | repeat constructor]].
  - left. lia.
  - lia.
Defined.

(** ** The two pipelines side by side *)

Lemma titles_of_plan (time : list Q) (P : Z -> canvas -> Prop)
    (plan : list Z) (cs : list canvas) :
  Forall2 (fun t c => P t c /\ title c = Some (nth (Z.to_nat t) time 0%Q))
    plan cs ->
  map title cs = map (fun t => Some (nth (Z.to_nat t) time 0%Q)) plan.
Proof.
  induction 1 as [|t c plan cs [_ Ht] _ IH]; [done|]. cbn. by rewrite Ht, IH.
Qed.

(** C10.  [GIF_2D] and [GIF_3D] are the same pipeline [GIF_with] up to the
    axes and renderer they draw with and the tag of the file names.  On the
    same well-formed input, with [num_frames >= 2] and either at most
    [2^53] frames or at most [2^53] timesteps, so that every sampled index
    lies inside the trajectory, both run to the end from the same sample plan: frame [k] of either GIF is the
    picture of timestep [plan[k]] and carries its time as title, and both
    GIFs have the frame duration [3 / num_frames]. *)
Theorem pipelines_agree
    (rel_pos : list (list Q) -> Q -> nat -> nat -> nat -> Q)
    (load_data : string -> list Q * list (list (list Q)) * list (list (list Q)))
    (gif_name data_file : string) (num_frames : Z) (box_dim : Q)
    (time : list Q) (pos vel : list (list (list Q))) (w : world) :
  load_data data_file = (time, pos, vel) ->
  well_formed time pos ->
  num_frames <= 2 ^ 53 \/ Z.of_nat (length time) <= 2 ^ 53 ->
  2 <= num_frames ->
  GIF_2D rel_pos load_data gif_name data_file num_frames box_dim
  = GIF_with load_data Rectilinear (render_2D rel_pos) "2D"
      gif_name data_file num_frames box_dim
  /\ GIF_3D rel_pos load_data gif_name data_file num_frames box_dim
     = GIF_with load_data ThreeD (render_3D rel_pos) "3D"
         gif_name data_file num_frames box_dim
  /\ exists (plan : list Z) (w2 w3 : world) (a2 a3 : animation),
       save_frame (Z.of_nat (length time)) num_frames = Ok plan
       /\ GIF_2D rel_pos load_data gif_name data_file num_frames box_dim w
          = (Ok tt, w2)
       /\ GIF_3D rel_pos load_data gif_name data_file num_frames box_dim w
          = (Ok tt, w3)
       /\ gifs w2 !! gif_name = Some a2
       /\ gifs w3 !! gif_name = Some a3
       /\ Forall2 (fun t c =>
                     frame_with Rectilinear (render_2D rel_pos) time pos
                       box_dim t = Ok c)
            plan (frames a2)
       /\ Forall2 (fun t c =>
                     frame_with ThreeD (render_3D rel_pos) time pos
                       box_dim t = Ok c)
            plan (frames a3)
       /\ map title (frames a2)
          = map (fun t => Some (nth (Z.to_nat t) time 0%Q)) plan
       /\ map title (frames a3)
          = map (fun t => Some (nth (Z.to_nat t) time 0%Q)) plan
       /\ duration a2 = (inject_Z 3 / inject_Z num_frames)%Q
       /\ duration a3 = (inject_Z 3 / inject_Z num_frames)%Q
       /\ saved (events w2)
          = saved (events w)
              ++ map (frame_name "2D") (seq 0 (Z.to_nat num_frames))
       /\ saved (events w3)
          = saved (events w)
              ++ map (frame_name "3D") (seq 0 (Z.to_nat num_frames)).
Proof.
  intros Hload Hwf Hsize Hm. split; [reflexivity|]. split; [reflexivity|].
  destruct (GIF_2D_well_formed rel_pos load_data gif_name data_file
              num_frames box_dim time pos vel w Hload Hwf)
    as (w2 & cs2 & Hrun2 & _ & Hcs2 & _ & Hgif2 & Hs2 & _); [lia | done |].
  destruct (GIF_3D_well_formed rel_pos load_data gif_name data_file
              num_frames box_dim time pos vel w Hload Hwf)
    as (w3 & cs3 & Hrun3 & _ & Hcs3 & _ & Hgif3 & Hs3 & _); [lia | done |].
  exists (plan_of (Z.of_nat (length time)) num_frames), w2, w3,
    (mk_animation cs2 (inject_Z 3 / inject_Z num_frames)%Q),
    (mk_animation cs3 (inject_Z 3 / inject_Z num_frames)%Q).
  cbn [frames duration].
  split; [apply save_frame_closed_form|].
  do 4 (split; [done|]).
  split. { eapply Forall2_impl; [exact Hcs2|]. by intros t c [Hc _]. }
  split. { eapply Forall2_impl; [exact Hcs3|]. by intros t c [Hc _]. }
  split; [exact (titles_of_plan time _ _ _ Hcs2)|].
  split; [exact (titles_of_plan time _ _ _ Hcs3)|].
  done.
Qed.

Lemma pipelines_agree_witness :
  exists (plan : list Z) (w2 w3 : world) (a2 a3 : animation),
    save_frame (Z.of_nat (length (fst (fst example_3D)))) 3 = Ok plan
    /\ GIF_2D no_displacement (fun _ => example_3D) "out.gif" "data.csv" 3 10%Q
         empty_world = (Ok tt, w2)
    /\ GIF_3D no_displacement (fun _ => example_3D) "out.gif" "data.csv" 3 10%Q
         empty_world = (Ok tt, w3)
    /\ gifs w2 !! "out.gif" = Some a2
    /\ gifs w3 !! "out.gif" = Some a3
    /\ map title (frames a2) = map title (frames a3)
    /\ duration a2 = duration a3.
Proof.
  destruct (pipelines_agree no_displacement (fun _ => example_3D)
              "out.gif" "data.csv" 3 10%Q
              (fst (fst example_3D)) (snd (fst example_3D)) (snd example_3D)
              empty_world)
    as (_ & _ & plan & w2 & w3 & a2 & a3 & Hplan & H2 & H3 & Hg2 & Hg3
        & _ & _ & Ht2 & Ht3 & Hd2 & Hd3 & _).
  - reflexivity.
  - split; [reflexivity | split; [discriminate | repeat constructor]].
  - left. lia.
  - lia.
  - exists plan, w2, w3, a2, a3.
    rewrite Ht2, Ht3, Hd2, Hd3. repeat split; assumption.
Defined.

(** ** A single frame *)

Lemma save_frame_one (num_tsteps : Z) :
  save_frame num_tsteps 1 = Ok [num_tsteps - 1].
Proof. reflexivity. Qed.

(** C2 (as amended).  With [num_frames = 1] nothing is divided in the
    sampler, [range(0)] being empty: the plan is the final timestep alone,
    and on a well-formed trajectory each pipeline saves the one file of
    index 0 and writes a GIF of that one frame with duration 3. *)
Theorem one_frame_run
    (rel_pos : list (list Q) -> Q -> nat -> nat -> nat -> Q)
    (load_data : string -> list Q * list (list (list Q)) * list (list (list Q)))
    (gif_name data_file : string) (box_dim : Q)
    (time : list Q) (pos vel : list (list (list Q))) (w : world) :
  load_data data_file = (time, pos, vel) ->
  well_formed time pos ->
  let last := Z.of_nat (length time) - 1 in
  save_frame (Z.of_nat (length time)) 1 = Ok [last]
  /\ (exists w' c,
        GIF_2D rel_pos load_data gif_name data_file 1 box_dim w = (Ok tt, w')
        /\ frame_with Rectilinear (render_2D rel_pos) time pos box_dim last
           = Ok c
        /\ saved (events w') = saved (events w) ++ [frame_name "2D" 0]
        /\ read (events w') = read (events w) ++ [frame_name "2D" 0]
        /\ gifs w' !! gif_name = Some (mk_animation [c] 3%Q))
  /\ (exists w' c,
        GIF_3D rel_pos load_data gif_name data_file 1 box_dim w = (Ok tt, w')
        /\ frame_with ThreeD (render_3D rel_pos) time pos box_dim last = Ok c
        /\ saved (events w') = saved (events w) ++ [frame_name "3D" 0]
        /\ read (events w') = read (events w) ++ [frame_name "3D" 0]
        /\ gifs w' !! gif_name = Some (mk_animation [c] 3%Q)).
Proof.
  intros Hload Hwf last. split; [apply save_frame_one|]. split.
  - destruct (GIF_2D_well_formed rel_pos load_data gif_name data_file
                1 box_dim time pos vel w Hload Hwf)
      as (w' & cs & Hrun & _ & Hcs & _ & Hgif & Hs & Hr); [lia | left; lia |].
    change (plan_of (Z.of_nat (length time)) 1) with [last] in Hcs.
    apply Forall2_cons_inv_l in Hcs as (c & cs' & [Hc _] & Hnil & ->).
    apply Forall2_nil_inv_l in Hnil as ->.
    by exists w', c.
  - destruct (GIF_3D_well_formed rel_pos load_data gif_name data_file
                1 box_dim time pos vel w Hload Hwf)
      as (w' & cs & Hrun & _ & Hcs & _ & Hgif & Hs & Hr); [lia | left; lia |].
    change (plan_of (Z.of_nat (length time)) 1) with [last] in Hcs.
    apply Forall2_cons_inv_l in Hcs as (c & cs' & [Hc _] & Hnil & ->).
    apply Forall2_nil_inv_l in Hnil as ->.
    by exists w', c.
Qed.

Lemma one_frame_run_witness :
  let last := Z.of_nat (length (fst (fst example_3D))) - 1 in
  save_frame (Z.of_nat (length (fst (fst example_3D)))) 1 = Ok [last]
  /\ (exists w' c,
        GIF_2D no_displacement (fun _ => example_3D) "out.gif" "data.csv" 1 10%Q
          empty_world = (Ok tt, w')
        /\ frame_with Rectilinear (render_2D no_displacement)
             (fst (fst example_3D)) (snd (fst example_3D)) 10%Q last = Ok c
        /\ saved (events w') = saved (events empty_world) ++ [frame_name "2D" 0]
        /\ read (events w') = read (events empty_world) ++ [frame_name "2D" 0]
        /\ gifs w' !! "out.gif" = Some (mk_animation [c] 3%Q))
  /\ (exists w' c,
        GIF_3D no_displacement (fun _ => example_3D) "out.gif" "data.csv" 1 10%Q
          empty_world = (Ok tt, w')
        /\ frame_with ThreeD (render_3D no_displacement)
             (fst (fst example_3D)) (snd (fst example_3D)) 10%Q last = Ok c
        /\ saved (events w') = saved (events empty_world) ++ [frame_name "3D" 0]
        /\ read (events w') = read (events empty_world) ++ [frame_name "3D" 0]
        /\ gifs w' !! "out.gif" = Some (mk_animation [c] 3%Q)).
Proof.
  apply (one_frame_run no_displacement (fun _ => example_3D)
           "out.gif" "data.csv" 10%Q
           (fst (fst example_3D)) (snd (fst example_3D)) (snd example_3D)
           empty_world).
  - reflexivity.
  - split; [reflexivity | split; [discriminate | repeat constructor]].
Defined.

(** The run with [num_frames = 1] on the example: no exception, one file
    saved and read back, one frame in the GIF. *)
Lemma GIF_2D_one_frame_no_error :
  fst (GIF_2D no_displacement (fun _ => example_2D) "out.gif" "data.csv" 1 10%Q
         empty_world) = Ok tt
  /\ save_frame 5 1 = Ok [4]
  /\ events (snd (GIF_2D no_displacement (fun _ => example_2D)
                    "out.gif" "data.csv" 1 10%Q empty_world))
     = [ Ev_mkdir "tmp-plot"; Ev_savefig "tmp-plot/pair_int_2D00000.png";
         Ev_imread "tmp-plot/pair_int_2D00000.png"; Ev_append "out.gif" ]
  /\ (length ∘ frames)
       <$> gifs (snd (GIF_2D no_displacement (fun _ => example_2D)
                        "out.gif" "data.csv" 1 10%Q empty_world)) !! "out.gif"
     = Some 1%nat.
Proof. vm_compute. repeat split. Qed.

(** ** A gap in the frame files *)

(** C6 (as amended).  When the files of the indices below [k] are present
    and the file of index [k < n] is missing, the read loop of either
    pipeline appends the frames 0 .. k-1 in order, asks for the file of
    index [k], and stops with the [FileNotFoundError] of [imread], an
    [OSError] like any other input/output failure; no later file is read and
    no frame is skipped or reordered. *)
Theorem assembler_gap (gif_name : string) (num_frames : Z) (n k : nat)
    (imgs : list canvas) (w : world) :
  num_frames <> 0 -> (k < n)%nat ->
  (Forall2 (fun f img => files w !! frame_name "2D" f = Some img)
     (seq 0 k) imgs ->
   files w !! frame_name "2D" k = None ->
   exists w',
     build_gif_2D gif_name num_frames n w
     = (Raise (FileNotFoundError (frame_name "2D" k)), w')
     /\ is_OSError (FileNotFoundError (frame_name "2D" k)) = true
     /\ read (events w')
        = read (events w) ++ map (frame_name "2D") (seq 0 (S k))
     /\ gifs w' !! gif_name
        = Some (mk_animation imgs (inject_Z 3 / inject_Z num_frames)%Q))
  /\ (Forall2 (fun f img => files w !! frame_name "3D" f = Some img)
        (seq 0 k) imgs ->
      files w !! frame_name "3D" k = None ->
      exists w',
        build_gif_3D gif_name num_frames n w
        = (Raise (FileNotFoundError (frame_name "3D" k)), w')
        /\ is_OSError (FileNotFoundError (frame_name "3D" k)) = true
        /\ read (events w')
           = read (events w) ++ map (frame_name "3D") (seq 0 (S k))
        /\ gifs w' !! gif_name
           = Some (mk_animation imgs (inject_Z 3 / inject_Z num_frames)%Q)).
Proof.
  intros Hnz Hk.
  assert (forall tag,
            Forall2 (fun f img => files w !! frame_name tag f = Some img)
              (seq 0 k) imgs ->
            files w !! frame_name tag k = None ->
            exists w',
              build_gif_with tag gif_name num_frames n w
              = (Raise (FileNotFoundError (frame_name tag k)), w')
              /\ is_OSError (FileNotFoundError (frame_name tag k)) = true
              /\ read (events w')
                 = read (events w) ++ map (frame_name tag) (seq 0 (S k))
              /\ gifs w' !! gif_name
                 = Some (mk_animation imgs (inject_Z 3 / inject_Z num_frames)%Q))
    as Hgap.
  { intros tag Himgs Hmiss. unfold build_gif_with, truediv.
    destruct (Z.eqb_spec num_frames 0) as [|_]; [done|].
    unfold mbind at 1, lift. unfold mbind at 1, get_writer.
    change (for_each_M ?l tt _) with (for_each_M l tt (read_and_append gif_name)).
    remember (map (frame_name tag) (seq 0 (S k))) as expected eqn:Hexp.
    replace n with (k + S (n - S k))%nat by lia.
    rewrite seq_app, map_app. cbn [seq map]. rewrite Nat.add_0_l.
    match goal with |- context [for_each_M _ tt _ ?w1] =>
      destruct (read_loop_gap gif_name (map (frame_name tag) (seq 0 k))
                  (frame_name tag k)
                  (map (frame_name tag) (seq (S k) (n - S k))) imgs
                  (mk_animation [] (inject_Z 3 / inject_Z num_frames)%Q) w1)
        as (w' & Hloop & Hfiles & Hgif & Hev)
    end.
    - by apply Forall2_fmap_l.
    - done.
    - cbn [gifs]. apply lookup_insert_eq.
    - exists w'. split; [done|]. split; [done|]. split; [|done].
      rewrite Hev, Hexp. cbn [events].
      rewrite !read_app, read_read_append, seq_S, map_app. done. }
  split; [apply (Hgap "2D") | apply (Hgap "3D")].
Qed.

(** Frame 2 of 5 deleted before the assembly. *)
Lemma assembler_gap_witness :
  exists w' a,
    build_gif_2D "out.gif" 5 5 gapped_world
    = (Raise (FileNotFoundError (frame_name "2D" 2)), w')
    /\ is_OSError (FileNotFoundError (frame_name "2D" 2)) = true
    /\ read (events w')
       = read (events gapped_world) ++ map (frame_name "2D") (seq 0 3)
    /\ gifs w' !! "out.gif" = Some a
    /\ length (frames a) = 2%nat.
Proof.
  destruct (assembler_gap "out.gif" 5 5 2
              [ default (add_subplot Rectilinear)
                  (files gapped_world !! frame_name "2D" 0);
                default (add_subplot Rectilinear)
                  (files gapped_world !! frame_name "2D" 1) ]
              gapped_world) as [H2D _]; [lia | lia |].
  destruct H2D as (w' & Hrun & Hos & Hread & Hgif).
  - repeat constructor.
  - vm_compute. reflexivity.
  - eexists w', _. split; [exact Hrun|]. split; [reflexivity|].
    split; [exact Hread|]. split; [exact Hgif | reflexivity].
Defined.

(** The exception on the gapped directory is the generic
    [FileNotFoundError], an [OSError]: no separate gap error exists. *)
Lemma gapped_directory_raises_OSError :
  fst (build_gif_2D "out.gif" 5 5 gapped_world)
  = Raise (FileNotFoundError "tmp-plot/pair_int_2D00002.png")
  /\ is_OSError (FileNotFoundError "tmp-plot/pair_int_2D00002.png") = true
  /\ read (events (snd (build_gif_2D "out.gif" 5 5 gapped_world)))
     = [ "tmp-plot/pair_int_2D00000.png"; "tmp-plot/pair_int_2D00001.png";
         "tmp-plot/pair_int_2D00002.png" ].
Proof. vm_compute. repeat split. Qed.

(** ** The end-to-end scenario

    101 timesteps, five frames, box length 10, two dimensions: the frames
    show the timesteps 0, 25, 50, 75 and 100, the files carry the indices
    00000 to 00004, and each frame lasts 0.6. *)
Example end_to_end_scenario :
  let w := snd (GIF_2D no_displacement (fun _ => example_101)
                  "out.gif" "data.csv" 5 10%Q empty_world) in
  let a := default (mk_animation [] 0%Q) (gifs w !! "out.gif") in
  fst (GIF_2D no_displacement (fun _ => example_101)
         "out.gif" "data.csv" 5 10%Q empty_world) = Ok tt
  /\ save_frame 101 5 = Ok [0; 25; 50; 75; 100]
  /\ map title (frames a) = [Some 0; Some 25; Some 50; Some 75; Some 100]%Q
  /\ saved (events w)
     = [ "tmp-plot/pair_int_2D00000.png"; "tmp-plot/pair_int_2D00001.png";
         "tmp-plot/pair_int_2D00002.png"; "tmp-plot/pair_int_2D00003.png";
         "tmp-plot/pair_int_2D00004.png" ]
  /\ read (events w) = saved (events w)
  /\ (duration a == 0.6)%Q.
Proof. vm_compute. repeat split. Qed.

(** * Further properties of the embedded code *)

(** ** The sampler at its edges *)

(** X1.  With at most one frame requested the comprehension is empty and the
    plan is the final index alone, whatever the trajectory length. *)
Theorem save_frame_few_frames (num_tsteps num_frames : Z) :
  num_frames <= 1 -> save_frame num_tsteps num_frames = Ok [num_tsteps - 1].
Proof.
  intros Hm. rewrite save_frame_closed_form. unfold plan_of, range.
  replace (Z.to_nat (num_frames - 1)) with 0%nat by lia. reflexivity.
Qed.

Lemma save_frame_few_frames_witness : save_frame 7 (-3) = Ok [7 - 1].
Proof. apply (save_frame_few_frames 7 (-3)). lia. Defined.

Lemma floor_step (x c d : Z) :
  0 <= x -> 0 <= c -> 0 < d ->
  c / d <= (x + c) / d - x / d <= c / d + 1.
Proof.
  intros Hx Hc Hd.
  pose proof (Z.div_mod x d ltac:(lia)). pose proof (Z.mod_pos_bound x d Hd).
  pose proof (Z.div_mod c d ltac:(lia)). pose proof (Z.mod_pos_bound c d Hd).
  pose proof (Z.div_mod (x + c) d ltac:(lia)).
  pose proof (Z.mod_pos_bound (x + c) d Hd).
  nia.
Qed.

(** X2.  Uniform coverage: when the numerators of the sampler stay below
    [2^53], two consecutive entries of the plan are apart by the
    rounded-down step or by one more. *)
Theorem save_frame_step (num_tsteps num_frames : Z) (plan : list Z)
    (k : nat) (a b : Z) :
  1 <= num_tsteps -> 2 <= num_frames ->
  (num_frames - 2) * (num_tsteps - 1) < 2 ^ 53 ->
  save_frame num_tsteps num_frames = Ok plan ->
  plan !! k = Some a -> plan !! S k = Some b ->
  (num_tsteps - 1) / (num_frames - 1) <= b - a
  <= (num_tsteps - 1) / (num_frames - 1) + 1.
Proof.
  intros Hn Hm Hsmall Hplan Ha Hb. rewrite save_frame_closed_form in Hplan.
  injection Hplan as <-.
  destruct (plan_of_lookup_floor _ _ _ _ Hn Hm Hsmall Ha) as [Hka ->].
  destruct (plan_of_lookup_floor _ _ _ _ Hn Hm Hsmall Hb) as [Hkb ->].
  replace (Z.of_nat (S k) * (num_tsteps - 1))
    with (Z.of_nat k * (num_tsteps - 1) + (num_tsteps - 1)) by lia.
  apply floor_step; nia.
Qed.

Lemma save_frame_step_witness :
  (101 - 1) / (5 - 1) <= 50 - 25 <= (101 - 1) / (5 - 1) + 1.
Proof.
  apply (save_frame_step 101 5 [0; 25; 50; 75; 100] 1 25 50);
    [lia | lia | reflexivity | vm_compute; reflexivity
     | reflexivity | reflexivity].
Defined.

(** Beyond [2^53] the steps of the plan follow the floats, not the
    rounded-down step: four frames over [2^60 + 1] timesteps. *)
Example save_frame_step_beyond :
  save_frame (2 ^ 60 + 1) 4
  = Ok [0; 384307168202282304; 768614336404564608; 2 ^ 60]
  /\ (2 ^ 60 + 1 - 1) / (4 - 1) = 384307168202282325.
Proof. vm_compute. split; reflexivity. Qed.

(** X3.  With no more frames than timesteps, and numerators below [2^53],
    no timestep is sampled twice. *)
Theorem save_frame_distinct (num_tsteps num_frames : Z) (plan : list Z) :
  2 <= num_frames <= num_tsteps ->
  (num_frames - 2) * (num_tsteps - 1) < 2 ^ 53 ->
  save_frame num_tsteps num_frames = Ok plan ->
  NoDup plan.
Proof.
  intros Hm Hsmall Hplan. rewrite save_frame_closed_form in Hplan.
  injection Hplan as <-.
  assert (forall i j a b,
            (i < j)%nat ->
            plan_of num_tsteps num_frames !! i = Some a ->
            plan_of num_tsteps num_frames !! j = Some b -> a < b) as Hlt.
  { intros i j a b Hij Ha Hb.
    assert (1 <= num_tsteps) as Hn by lia.
    assert (2 <= num_frames) as Hm2 by lia.
    destruct (plan_of_lookup_floor _ _ _ _ Hn Hm2 Hsmall Ha) as [_ ->].
    destruct (plan_of_lookup_floor _ _ _ _ Hn Hm2 Hsmall Hb) as [_ ->].
    apply Z.lt_le_trans
      with ((Z.of_nat i * (num_tsteps - 1) + 1 * (num_frames - 1))
              / (num_frames - 1)).
    - rewrite Z.div_add by lia. lia.
    - apply Z.div_le_mono; [lia | nia]. }
  apply NoDup_alt. intros i j x Hi Hj.
  destruct (Nat.lt_trichotomy i j) as [Hij|[->|Hji]]; [|done|].
  - pose proof (Hlt _ _ _ _ Hij Hi Hj). lia.
  - pose proof (Hlt _ _ _ _ Hji Hj Hi). lia.
Qed.

Lemma save_frame_distinct_witness : NoDup [0; 25; 50; 75; 100].
Proof.
  apply (save_frame_distinct 101 5);
    [lia | reflexivity | vm_compute; reflexivity].
Defined.

(** X4.  On every input whose numerators [i * (num_tsteps - 1)] stay below
    [2^53], the sampler, which goes through floats, returns the plan of the
    exact rounded-down quotients. *)
Lemma save_frame_binary64_exact (num_tsteps num_frames : Z) :
  1 <= num_tsteps -> 2 <= num_frames ->
  (num_frames - 2) * (num_tsteps - 1) < 2 ^ 53 ->
  save_frame num_tsteps num_frames = Ok (floor_plan num_tsteps num_frames).
Proof.
  intros Hn Hm Hbound. rewrite save_frame_closed_form.
  unfold plan_of, floor_plan. do 2 f_equal.
  apply map_ext_in. intros i Hi.
  apply list_elem_of_In, elem_of_range in Hi.
  apply sample_floor; [lia..|].
  eapply Z.le_lt_trans; [|exact Hbound].
  apply Z.mul_le_mono_nonneg_r; lia.
Qed.

Lemma save_frame_binary64_exact_witness :
  save_frame 101 5 = Ok (floor_plan 101 5).
Proof.
  apply (save_frame_binary64_exact 101 5); [lia | lia | reflexivity].
Defined.

(** ** The renderers at their edges *)

(** X5.  The two-dimensional view: for a box length that is not vanishingly
    small, on exit both axes span [-L/2, 3L/2], half a neighbouring box on
    each side, and whatever the canvas held before is still there, under the
    new artists. *)
Theorem plot_pos_2D_view
    (rel_pos : list (list Q) -> Q -> nat -> nat -> nat -> Q)
    (ax : canvas) (pos : list (list Q)) (L : Q) (central_box relative_pos : bool) :
  (singular_below <= L)%Q ->
  Forall (fun row => 2 <= length row)%nat pos ->
  exists c : canvas,
    plot_pos_2D rel_pos ax pos L central_box relative_pos = Ok c
    /\ xlim c = Some (- L / 2, 3 * L / 2)%Q
    /\ ylim c = Some (- L / 2, 3 * L / 2)%Q
    /\ zlim c = zlim ax /\ proj c = proj ax /\ title c = title ax
    /\ exists added, artists c = artists ax ++ added.
Proof.
  intros HL Hall. eexists. split; [by apply plot_pos_2D_closed|].
  pose proof singular_below_pos as HT.
  assert (limits (- L / 2) (3 * L / 2) = (- L / 2, 3 * L / 2)%Q) as Hlim.
  { apply limits_spanning_zero; unfold Qdiv;
      change (/ 2)%Q with (1 # 2)%Q; revert HL HT;
      generalize singular_below; intros T HL HT; lra. }
  split; [cbn [xlim decorate_2D set_xlim set_ylim set_xlabel set_ylabel
               tick_params_in set_ticks_position_both]; by rewrite Hlim|].
  split; [cbn [ylim decorate_2D set_xlim set_ylim set_xlabel set_ylabel
               tick_params_in set_ticks_position_both]; by rewrite Hlim|].
  do 3 (split; [reflexivity|]). eexists. reflexivity.
Qed.

(** With a box of length zero the limits asked for coincide and the axes
    widen them. *)
Example plot_pos_2D_view_degenerate :
  plot_pos_2D no_displacement (add_subplot Rectilinear) [] 0%Q false false
  = Ok (decorate_2D 0%Q (add_subplot Rectilinear))
  /\ xlim (decorate_2D 0%Q (add_subplot Rectilinear))
     = Some (- expander, expander)%Q.
Proof. vm_compute. split; reflexivity. Qed.

Lemma plot_pos_2D_view_witness :
  exists c : canvas,
    plot_pos_2D no_displacement (add_subplot Rectilinear) [[1; 2]; [3; 4]]%Q 10%Q
      true true = Ok c
    /\ xlim c = Some (- 10 / 2, 3 * 10 / 2)%Q
    /\ ylim c = Some (- 10 / 2, 3 * 10 / 2)%Q
    /\ zlim c = zlim (add_subplot Rectilinear)
    /\ proj c = proj (add_subplot Rectilinear)
    /\ title c = title (add_subplot Rectilinear)
    /\ exists added, artists c = artists (add_subplot Rectilinear) ++ added.
Proof.
  apply (plot_pos_2D_view no_displacement (add_subplot Rectilinear)
           [[1; 2]; [3; 4]]%Q 10%Q true true).
  - apply Qle_bool_iff. vm_compute. reflexivity.
  - repeat constructor.
Defined.

Lemma plot_pos_3D_limits_witness :
  exists c : canvas,
    plot_pos_3D no_displacement (add_subplot ThreeD) [[1; 2; 3]; [4; 5; 6]]%Q
      10%Q false true true = Ok c
    /\ xlim c = Some (0, 10)%Q /\ ylim c = Some (0, 10)%Q
    /\ zlim c = Some (0, 10)%Q.
Proof.
  apply (plot_pos_3D_limits no_displacement (add_subplot ThreeD)
           [[1; 2; 3]; [4; 5; 6]]%Q 10%Q false true true).
  - reflexivity.
  - apply Qle_bool_iff. vm_compute. reflexivity.
  - repeat constructor.
Defined.

Lemma plot_pos_3D_images_witness :
  exists c : canvas,
    plot_pos_3D no_displacement (add_subplot ThreeD) [[1; 2; 3]; [4; 5; 6]]%Q
      10%Q false false true = Ok c
    /\ marker_positions_3D c
       ≡ₚ marker_positions_3D (add_subplot ThreeD)
            ++ flat_map (images_3D 10%Q) [[1; 2; 3]; [4; 5; 6]]%Q
    /\ length (marker_positions_3D c)
       = (length (marker_positions_3D (add_subplot ThreeD)) + 27 * 2)%nat.
Proof.
  apply (plot_pos_3D_images no_displacement (add_subplot ThreeD)
           [[1; 2; 3]; [4; 5; 6]]%Q 10%Q false).
  - reflexivity.
  - repeat constructor.
Defined.

Lemma flat_map_singleton {A B : Type} (f : A -> B) (l : list A) :
  flat_map (fun x => [f x]) l = map f l.
Proof. induction l as [|x l IH]; [done|]. cbn. by rewrite IH. Qed.

(** X8.  Under the default flags, those of [GIF_3D], the three-dimensional
    renderer draws on three-dimensional axes one marker per particle through
    the two-coordinate call: every particle appears at height zero and its
    third coordinate is never read. *)
Theorem plot_pos_3D_default_flat
    (rel_pos : list (list Q) -> Q -> nat -> nat -> nat -> Q)
    (ax : canvas) (pos : list (list Q)) (L : Q) :
  proj ax = ThreeD ->
  Forall (fun row => 2 <= length row)%nat pos ->
  exists c : canvas,
    plot_pos_3D rel_pos ax pos L true false false = Ok c
    /\ marker_positions_3D c
       = marker_positions_3D ax
           ++ map (fun row => (col 0 row, col 1 row, 0%Q)) pos.
Proof.
  intros Hp Hall. eexists. split.
  { apply plot_pos_3D_closed; [done | done |].
    intros [?|[?|?]]; discriminate. }
  unfold marker_positions_3D.
  change (artists (decorate_3D ?c)) with (artists c).
  change (artists (plot_all ?c ?l)) with (artists c ++ l).
  change (artists (with_lims ?c _ _ _)) with (artists c).
  change (artists (plot_all ?c ?l)) with (artists c ++ l).
  cbv iota. rewrite omap_app.
  change (omap marker_position_3D (cube L ++ [])) with (@nil (Q * Q * Q)).
  rewrite app_nil_r, omap_app, omap_flat_map.
  f_equal; rewrite <- flat_map_singleton; apply flat_map_ext; intros row;
    reflexivity.
Qed.

Lemma plot_pos_3D_default_flat_witness :
  exists c : canvas,
    plot_pos_3D no_displacement (add_subplot ThreeD) [[1; 2; 3]; [4; 5; 6]]%Q
      10%Q true false false = Ok c
    /\ marker_positions_3D c
       = marker_positions_3D (add_subplot ThreeD)
           ++ map (fun row => (col 0 row, col 1 row, 0%Q))
                [[1; 2; 3]; [4; 5; 6]]%Q.
Proof.
  apply (plot_pos_3D_default_flat no_displacement (add_subplot ThreeD)
           [[1; 2; 3]; [4; 5; 6]]%Q 10%Q).
  - reflexivity.
  - repeat constructor.
Defined.

(** X9.  Fewer than two columns: the first marker of the first particle cannot
    be plotted and [plot_pos_2D] raises [IndexError]; only an empty particle
    set goes through. *)
Theorem plot_pos_2D_too_few_columns
    (rel_pos : list (list Q) -> Q -> nat -> nat -> nat -> Q)
    (ax : canvas) (pos : list (list Q)) (L : Q) (central_box relative_pos : bool) :
  Forall (fun row => length row < 2)%nat pos -> pos <> [] ->
  plot_pos_2D rel_pos ax pos L central_box relative_pos = Raise IndexError.
Proof.
  intros Hall Hne. destruct pos as [|row pos']; [done|].
  apply Forall_cons in Hall as [Hrow _].
  unfold plot_pos_2D. cbn [length seq].
  rewrite (for_each_raise _ _ _ _ IndexError); [reflexivity|].
  unfold plot_pos_2D_particle.
  destruct row as [|x [|y row']]; cbn [length] in Hrow; [| |lia];
    destruct central_box; reflexivity.
Qed.

Lemma plot_pos_2D_too_few_columns_witness :
  plot_pos_2D no_displacement (add_subplot Rectilinear) [[1]; [2]]%Q 10%Q
    true false = Raise IndexError.
Proof.
  apply (plot_pos_2D_too_few_columns no_displacement (add_subplot Rectilinear)
           [[1]; [2]]%Q 10%Q true false).
  - repeat constructor.
  - discriminate.
Defined.

(** X10.  Pair lines join distinct particles: with fewer than two particles the
    flag [relative_pos] changes nothing, in either renderer and whatever the
    shape of the array. *)
Theorem pair_lines_single_particle
    (rel_pos : list (list Q) -> Q -> nat -> nat -> nat -> Q)
    (ax : canvas) (pos : list (list Q)) (L : Q)
    (central_box outer_boxes : bool) :
  (length pos <= 1)%nat ->
  plot_pos_2D rel_pos ax pos L central_box true
  = plot_pos_2D rel_pos ax pos L central_box false
  /\ plot_pos_3D rel_pos ax pos L central_box true outer_boxes
     = plot_pos_3D rel_pos ax pos L central_box false outer_boxes.
Proof.
  intros Hlen. destruct pos as [|row [|row' pos']]; cbn [length] in Hlen;
    [| |lia]; split; reflexivity.
Qed.

Lemma pair_lines_single_particle_witness :
  plot_pos_2D no_displacement (add_subplot ThreeD) [[1; 2]]%Q 10%Q true true
  = plot_pos_2D no_displacement (add_subplot ThreeD) [[1; 2]]%Q 10%Q
      true false
  /\ plot_pos_3D no_displacement (add_subplot ThreeD) [[1; 2]]%Q 10%Q
       true true false
     = plot_pos_3D no_displacement (add_subplot ThreeD) [[1; 2]]%Q 10%Q
         true false false.
Proof.
  apply (pair_lines_single_particle no_displacement (add_subplot ThreeD)
           [[1; 2]]%Q 10%Q true false).
  cbn. lia.
Defined.

(** X11.  Two particles or more in two columns, on three-dimensional axes:
    with the default flags [plot_pos_3D] renders them, and with
    [relative_pos=True] in addition it raises [IndexError], the first pair
    line being the first call that reads a third column. *)
Theorem plot_pos_3D_pair_lines_two_columns
    (rel_pos : list (list Q) -> Q -> nat -> nat -> nat -> Q)
    (ax : canvas) (pos : list (list Q)) (L : Q) :
  proj ax = ThreeD ->
  Forall (fun row => length row = 2%nat) pos -> (2 <= length pos)%nat ->
  (exists c, plot_pos_3D rel_pos ax pos L true false false = Ok c)
  /\ plot_pos_3D rel_pos ax pos L true true false = Raise IndexError.
Proof.
  intros Hp Hall Hlen.
  assert (Forall (fun row => 2 <= length row)%nat pos) as Hall2.
  { eapply Forall_impl; [exact Hall|]. cbv beta. lia. }
  split.
  { eexists. apply plot_pos_3D_closed; [done | done |].
    intros [?|[?|?]]; discriminate. }
  unfold plot_pos_3D.
  destruct (plot_pos_3D_particles_closed pos L true false ax Hp Hall2)
    as (xl & yl & zl & ->).
  { intros [?|?]; discriminate. }
  rewrite rbind_ok. cbv beta zeta.
  rewrite set_lims_3D by exact Hp. rewrite !rbind_ok. cbv beta.
  destruct pos as [|r1 [|r2 pos']]; cbn [length] in Hlen; [lia | lia |].
  apply Forall_cons in Hall as [Hr1 _].
  destruct r1 as [|x [|y [|z r1']]]; cbn [length] in Hr1; try lia.
  cbn [length seq].
  rewrite (for_each_raise _ _ _ _ IndexError); reflexivity.
Qed.

Lemma plot_pos_3D_pair_lines_two_columns_witness :
  (exists c, plot_pos_3D no_displacement (add_subplot ThreeD)
               [[1; 2]; [3; 4]]%Q 10%Q true false false = Ok c)
  /\ plot_pos_3D no_displacement (add_subplot ThreeD) [[1; 2]; [3; 4]]%Q 10%Q
       true true false = Raise IndexError.
Proof.
  apply (plot_pos_3D_pair_lines_two_columns no_displacement
           (add_subplot ThreeD) [[1; 2]; [3; 4]]%Q 10%Q).
  - reflexivity.
  - repeat constructor.
  - cbn. lia.
Defined.

(** ** The pipelines at their edges *)

Lemma ensure_tmp_plot_closed (w : world) :
  ensure_tmp_plot w = (Ok tt, after_ensure w).
Proof.
  unfold ensure_tmp_plot, after_ensure, mbind, os_listdir.
  destruct (decide ("tmp-plot" ∈ entries w)); reflexivity.
Qed.

Lemma after_ensure_dir (w : world) : "tmp-plot" ∈ entries (after_ensure w).
Proof.
  unfold after_ensure. destruct (decide ("tmp-plot" ∈ entries w)); [done|].
  cbn [entries]. set_solver.
Qed.

Lemma after_ensure_files (w : world) : files (after_ensure w) = files w.
Proof. unfold after_ensure. by destruct (decide _). Qed.

Lemma after_ensure_gifs (w : world) : gifs (after_ensure w) = gifs w.
Proof. unfold after_ensure. by destruct (decide _). Qed.

Lemma after_ensure_idem (w : world) :
  "tmp-plot" ∈ entries w -> after_ensure w = w.
Proof. intros Hin. unfold after_ensure. by rewrite decide_True. Qed.

Lemma alter_lookup_insert {A : Type} (f : A -> A) (m : gmap string A)
    (k : string) (a : A) :
  m !! k = Some a -> alter f k m = <[k := f a]> m.
Proof.
  intros Hk. apply map_eq. intros j.
  rewrite lookup_alter, lookup_insert.
  destruct (decide (k = j)) as [->|]; [by rewrite Hk | done].
Qed.

Lemma read_loop_closed (gif_name : string) (names : list string)
    (imgs : list canvas) (a : animation) (w : world) :
  Forall2 (fun name img => files w !! name = Some img) names imgs ->
  gifs w !! gif_name = Some a ->
  for_each_M names tt (read_and_append gif_name) w
  = (Ok tt,
     mk_world (entries w) (files w)
       (<[gif_name := mk_animation (frames a ++ imgs) (duration a)]> (gifs w))
       (events w
          ++ flat_map (fun name => [Ev_imread name; Ev_append gif_name]) names)).
Proof.
  intros Himgs. revert imgs a w Himgs.
  induction names as [|name names IH]; intros imgs a w Himgs Hgif.
  - apply Forall2_nil_inv_l in Himgs as ->. cbn [for_each_M flat_map].
    unfold mret. rewrite !app_nil_r.
    replace (mk_animation (frames a) (duration a)) with a by (by destruct a).
    rewrite insert_id by done. by destruct w.
  - apply Forall2_cons_inv_l in Himgs as (img & imgs' & Himg & Himgs & ->).
    cbn [for_each_M]. unfold mbind at 1.
    unfold read_and_append at 1, mbind, imread. rewrite Himg.
    unfold append_data, log. cbn [entries files gifs events].
    rewrite (alter_lookup_insert _ _ _ a Hgif).
    rewrite (IH imgs' (mk_animation (frames a ++ [img]) (duration a))).
    + cbn [entries files gifs events frames duration].
      by rewrite insert_insert_eq, <- !app_assoc.
    + done.
    + cbn [gifs]. apply lookup_insert_eq.
Qed.

Lemma build_gif_with_closed (tag gif_name : string) (num_frames : Z)
    (cs : list canvas) (w : world) :
  num_frames <> 0 ->
  Forall2 (fun name img => files w !! name = Some img)
    (map (frame_name tag) (seq 0 (length cs))) cs ->
  build_gif_with tag gif_name num_frames (length cs) w
  = (Ok tt, after_build tag gif_name num_frames cs w).
Proof.
  intros Hnz Hcs. unfold build_gif_with, truediv.
  destruct (Z.eqb_spec num_frames 0) as [|_]; [done|].
  unfold mbind at 1, lift. unfold mbind at 1, get_writer.
  change (for_each_M ?l tt _) with (for_each_M l tt (read_and_append gif_name)).
  rewrite (read_loop_closed gif_name _ cs
             (mk_animation [] (inject_Z 3 / inject_Z num_frames)%Q)).
  - cbn [entries files gifs events frames duration app].
    by rewrite insert_insert_eq.
  - done.
  - cbn [gifs]. apply lookup_insert_eq.
Qed.

Lemma build_gif_with_zero (tag gif_name : string) (n : nat) (w : world) :
  build_gif_with tag gif_name 0 n w = (Raise ZeroDivisionError, w).
Proof. reflexivity. Qed.

Section Phases.

Variable p : projection.
Variable render : canvas -> list (list Q) -> Q -> result canvas.
Variable tag : string.
Variable load_data :
  string -> list Q * list (list (list Q)) * list (list (list Q)).

(** The run up to the end of the frame loop. *)
Lemma GIF_with_frames_phase (gif_name data_file : string) (num_frames : Z)
    (box_dim : Q) (time : list Q) (pos vel : list (list (list Q)))
    (cs : list canvas) (w : world) :
  load_data data_file = (time, pos, vel) ->
  Forall2 (frame_ok p render time pos box_dim)
    (plan_of (Z.of_nat (length time)) num_frames) cs ->
  GIF_with load_data p render tag gif_name data_file num_frames box_dim w
  = build_gif_with tag gif_name num_frames (length cs) (after_frames tag cs w).
Proof.
  intros Hload Hcs. unfold GIF_with. rewrite Hload.
  unfold mbind at 1, lift. rewrite save_frame_closed_form.
  rewrite (mbind_ok _ _ _ _ _ (ensure_tmp_plot_closed w)).
  pose proof (Forall2_length _ _ _ Hcs) as Hlen.
  unfold enumerate. rewrite Hlen.
  rewrite (mbind_ok _ _ _ _ _
             (eq_trans (f_equal (fun n => for_each_M (zip (seq 0 n) _) _ _ _)
                          (eq_sym Hlen))
                (frames_loop_run p render tag time pos box_dim _ 0 cs
                   (after_ensure w) Hcs (after_ensure_dir w)))).
  by rewrite Hlen.
Qed.

Lemma after_frames_readable (cs : list canvas) (w : world) :
  Forall2 (fun name img => files (after_frames tag cs w) !! name = Some img)
    (map (frame_name tag) (seq 0 (length cs))) cs.
Proof.
  apply Forall2_same_length_lookup_2.
  - by rewrite length_map, length_seq.
  - intros i name c Hname Hc. unfold after_frames. cbn [files].
    eapply lookup_write_all; [apply NoDup_frame_names | exact Hname | exact Hc].
Qed.

(** The whole run in closed form. *)
Lemma GIF_with_closed (gif_name data_file : string) (num_frames : Z)
    (box_dim : Q) (time : list Q) (pos vel : list (list (list Q)))
    (cs : list canvas) (w : world) :
  load_data data_file = (time, pos, vel) ->
  num_frames <> 0 ->
  Forall2 (frame_ok p render time pos box_dim)
    (plan_of (Z.of_nat (length time)) num_frames) cs ->
  GIF_with load_data p render tag gif_name data_file num_frames box_dim w
  = (Ok tt, after_build tag gif_name num_frames cs (after_frames tag cs w)).
Proof.
  intros Hload Hnz Hcs.
  rewrite (GIF_with_frames_phase _ _ _ _ _ _ _ _ _ Hload Hcs).
  apply build_gif_with_closed; [done | apply after_frames_readable].
Qed.

End Phases.

Lemma plan_of_in_range_any (num_tsteps num_frames : Z) (k : nat) (t : Z) :
  1 <= num_tsteps ->
  num_frames <= 2 ^ 53 \/ num_tsteps <= 2 ^ 53 ->
  plan_of num_tsteps num_frames !! k = Some t ->
  0 <= t <= num_tsteps - 1.
Proof.
  intros Hn Hsize Hk. destruct (Z.le_gt_cases 1 num_frames) as [Hm|Hm].
  - by eapply plan_of_in_range_1.
  - unfold plan_of, range in Hk.
    replace (Z.to_nat (num_frames - 1)) with 0%nat in Hk by lia.
    destruct k as [|k]; [|done]. cbn in Hk. injection Hk as <-. lia.
Qed.

Lemma frames_of_any_plan (p : projection)
    (render : canvas -> list (list Q) -> Q -> result canvas)
    (time : list Q) (pos : list (list (list Q))) (box_dim : Q)
    (num_frames : Z) :
  (forall pos_t, pos_t ∈ pos ->
     exists c, render (add_subplot p) pos_t box_dim = Ok c /\ proj c = p) ->
  length pos = length time -> time <> [] ->
  num_frames <= 2 ^ 53 \/ Z.of_nat (length time) <= 2 ^ 53 ->
  exists cs,
    Forall2 (frame_ok p render time pos box_dim)
      (plan_of (Z.of_nat (length time)) num_frames) cs.
Proof.
  intros Hrender Hlen Hne Hsize. apply Forall_exists_Forall2, Forall_forall.
  intros t Ht. apply list_elem_of_lookup in Ht as [k Hk].
  assert (1 <= Z.of_nat (length time)) as Hn.
  { destruct time; [done | cbn; lia]. }
  pose proof (plan_of_in_range_any _ _ _ _ Hn Hsize Hk).
  destruct (frame_in_range p render time pos box_dim Hrender Hlen t)
    as (c & Hc & _); [lia|]. by exists c.
Qed.

Lemma getitem_nil {A : Type} (t : Z) : getitem (@nil A) t = Raise IndexError.
Proof.
  unfold getitem. cbn [length].
  destruct (Z.leb_spec 0 t), (Z.ltb_spec t (Z.of_nat 0)),
    (Z.leb_spec (- Z.of_nat 0) t), (Z.ltb_spec t 0); cbn; try reflexivity; lia.
Qed.

Lemma plan_of_cons (num_tsteps num_frames : Z) :
  exists t plan, plan_of num_tsteps num_frames = t :: plan.
Proof.
  unfold plan_of.
  destruct (map (sample num_tsteps num_frames) (range (num_frames - 1)))
    as [|t l]; cbn; eauto.
Qed.

Lemma GIF_with_no_positions
    (load_data : string -> list Q * list (list (list Q)) * list (list (list Q)))
    (p : projection) (render : canvas -> list (list Q) -> Q -> result canvas)
    (tag gif_name data_file : string) (num_frames : Z) (box_dim : Q)
    (time : list Q) (vel : list (list (list Q))) (w : world) :
  load_data data_file = (time, [], vel) ->
  GIF_with load_data p render tag gif_name data_file num_frames box_dim w
  = (Raise IndexError, after_ensure w).
Proof.
  intros Hload. unfold GIF_with. rewrite Hload.
  unfold mbind at 1, lift. rewrite save_frame_closed_form.
  rewrite (mbind_ok _ _ _ _ _ (ensure_tmp_plot_closed w)).
  destruct (plan_of_cons (Z.of_nat (length time)) num_frames)
    as (t & plan & ->).
  apply mbind_raise. unfold enumerate. cbn [length seq zip zip_with for_each_M].
  apply mbind_raise. unfold save_one_frame_with.
  apply mbind_raise. unfold lift. by rewrite getitem_nil.
Qed.

(** X12.  A run without positions: whatever the number of frames, the first
    iteration of the frame loop raises [IndexError]; by then [tmp-plot] has
    been created, and no file has been saved or read. *)
Theorem no_positions_run
    (rel_pos : list (list Q) -> Q -> nat -> nat -> nat -> Q)
    (load_data : string -> list Q * list (list (list Q)) * list (list (list Q)))
    (gif_name data_file : string) (num_frames : Z) (box_dim : Q)
    (time : list Q) (vel : list (list (list Q))) (w : world) :
  load_data data_file = (time, [], vel) ->
  exists w',
    GIF_2D rel_pos load_data gif_name data_file num_frames box_dim w
    = (Raise IndexError, w')
    /\ GIF_3D rel_pos load_data gif_name data_file num_frames box_dim w
       = (Raise IndexError, w')
    /\ "tmp-plot" ∈ entries w'
    /\ files w' = files w /\ gifs w' = gifs w
    /\ saved (events w') = saved (events w)
    /\ read (events w') = read (events w).
Proof.
  intros Hload. exists (after_ensure w).
  rewrite GIF_2D_with, GIF_3D_with.
  rewrite !(GIF_with_no_positions _ _ _ _ _ _ _ _ time vel w Hload).
  split; [done|]. split; [done|]. split; [apply after_ensure_dir|].
  split; [apply after_ensure_files|]. split; [apply after_ensure_gifs|].
  unfold after_ensure. destruct (decide _); [done|].
  cbn [events]. rewrite saved_app, read_app. cbn. by rewrite !app_nil_r.
Qed.

Lemma no_positions_run_witness :
  exists w',
    GIF_2D no_displacement (fun _ => ([], [], [])) "out.gif" "data.csv" 5 10%Q
      empty_world = (Raise IndexError, w')
    /\ GIF_3D no_displacement (fun _ => ([], [], [])) "out.gif" "data.csv" 5 10%Q
         empty_world = (Raise IndexError, w')
    /\ "tmp-plot" ∈ entries w'
    /\ files w' = files empty_world /\ gifs w' = gifs empty_world
    /\ saved (events w') = saved (events empty_world)
    /\ read (events w') = read (events empty_world).
Proof.
  apply (no_positions_run no_displacement (fun _ => ([], [], []))
           "out.gif" "data.csv" 5 10%Q [] [] empty_world).
  reflexivity.
Defined.

Lemma well_formed_frames_2D
    (rel_pos : list (list Q) -> Q -> nat -> nat -> nat -> Q)
    (time : list Q) (pos : list (list (list Q))) (box_dim : Q) (num_frames : Z) :
  well_formed time pos ->
  num_frames <= 2 ^ 53 \/ Z.of_nat (length time) <= 2 ^ 53 ->
  exists cs,
    Forall2 (frame_ok Rectilinear (render_2D rel_pos) time pos box_dim)
      (plan_of (Z.of_nat (length time)) num_frames) cs.
Proof.
  intros (Hlen & Hne & Hshape) Hsize.
  apply frames_of_any_plan; [by apply render_2D_ok | done | done | done].
Qed.

Lemma well_formed_frames_3D
    (rel_pos : list (list Q) -> Q -> nat -> nat -> nat -> Q)
    (time : list Q) (pos : list (list (list Q))) (box_dim : Q) (num_frames : Z) :
  well_formed time pos ->
  num_frames <= 2 ^ 53 \/ Z.of_nat (length time) <= 2 ^ 53 ->
  exists cs,
    Forall2 (frame_ok ThreeD (render_3D rel_pos) time pos box_dim)
      (plan_of (Z.of_nat (length time)) num_frames) cs.
Proof.
  intros (Hlen & Hne & Hshape) Hsize.
  apply frames_of_any_plan; [by apply render_3D_ok | done | done | done].
Qed.

Lemma after_frames_one_saved (tag : string) (c : canvas) (w : world) :
  saved (events (after_frames tag [c] w)) = saved (events w) ++ [frame_name tag 0]
  /\ read (events (after_frames tag [c] w)) = read (events w)
  /\ files (after_frames tag [c] w) !! frame_name tag 0 = Some c
  /\ gifs (after_frames tag [c] w) = gifs w.
Proof.
  unfold after_frames. cbn [length seq map zip zip_with entries files gifs events].
  rewrite saved_app, read_app, after_ensure_gifs.
  split; [|split; [|split; [|done]]].
  - unfold after_ensure. destruct (decide _); [done|].
    cbn [events]. rewrite saved_app. cbn. by rewrite app_nil_r.
  - unfold after_ensure. destruct (decide _); cbn; rewrite ?app_nil_r; [done|].
    rewrite read_app. cbn. by rewrite !app_nil_r.
  - unfold write_all. cbn. apply lookup_insert_eq.
Qed.

(** X13.  A run with [num_frames = 0] fails late: the sampler yields the final
    timestep, its picture is saved under index 0, and only then does the
    frame duration [3 / 0] raise [ZeroDivisionError]; no file is read and no
    GIF is opened. *)
Theorem zero_frames_run
    (rel_pos : list (list Q) -> Q -> nat -> nat -> nat -> Q)
    (load_data : string -> list Q * list (list (list Q)) * list (list (list Q)))
    (gif_name data_file : string) (box_dim : Q)
    (time : list Q) (pos vel : list (list (list Q))) (w : world) :
  load_data data_file = (time, pos, vel) ->
  well_formed time pos ->
  let last := Z.of_nat (length time) - 1 in
  (exists w' c,
     GIF_2D rel_pos load_data gif_name data_file 0 box_dim w
     = (Raise ZeroDivisionError, w')
     /\ frame_with Rectilinear (render_2D rel_pos) time pos box_dim last = Ok c
     /\ saved (events w') = saved (events w) ++ [frame_name "2D" 0]
     /\ read (events w') = read (events w)
     /\ files w' !! frame_name "2D" 0 = Some c
     /\ gifs w' = gifs w)
  /\ (exists w' c,
        GIF_3D rel_pos load_data gif_name data_file 0 box_dim w
        = (Raise ZeroDivisionError, w')
        /\ frame_with ThreeD (render_3D rel_pos) time pos box_dim last = Ok c
        /\ saved (events w') = saved (events w) ++ [frame_name "3D" 0]
        /\ read (events w') = read (events w)
        /\ files w' !! frame_name "3D" 0 = Some c
        /\ gifs w' = gifs w).
Proof.
  intros Hload Hwf last. split.
  - destruct (well_formed_frames_2D rel_pos time pos box_dim 0 Hwf)
      as (cs & Hcs); [left; lia|].
    change (plan_of (Z.of_nat (length time)) 0) with [last] in Hcs.
    pose proof Hcs as Hcs'.
    apply Forall2_cons_inv_l in Hcs' as (c & cs' & [Hc _] & Hnil & ->).
    apply Forall2_nil_inv_l in Hnil as ->.
    exists (after_frames "2D" [c] w), c.
    rewrite GIF_2D_with,
      (GIF_with_frames_phase _ _ _ _ _ _ 0 _ _ _ _ [c] w Hload Hcs).
    split; [apply build_gif_with_zero|]. split; [done|].
    apply after_frames_one_saved.
  - destruct (well_formed_frames_3D rel_pos time pos box_dim 0 Hwf)
      as (cs & Hcs); [left; lia|].
    change (plan_of (Z.of_nat (length time)) 0) with [last] in Hcs.
    pose proof Hcs as Hcs'.
    apply Forall2_cons_inv_l in Hcs' as (c & cs' & [Hc _] & Hnil & ->).
    apply Forall2_nil_inv_l in Hnil as ->.
    exists (after_frames "3D" [c] w), c.
    rewrite GIF_3D_with,
      (GIF_with_frames_phase _ _ _ _ _ _ 0 _ _ _ _ [c] w Hload Hcs).
    split; [apply build_gif_with_zero|]. split; [done|].
    apply after_frames_one_saved.
Qed.

Lemma zero_frames_run_witness :
  exists w' c,
    GIF_2D no_displacement (fun _ => example_2D) "out.gif" "data.csv" 0 10%Q
      empty_world = (Raise ZeroDivisionError, w')
    /\ saved (events w') = saved (events empty_world) ++ [frame_name "2D" 0]
    /\ files w' !! frame_name "2D" 0 = Some c
    /\ gifs w' = gifs empty_world.
Proof.
  destruct (zero_frames_run no_displacement (fun _ => example_2D)
              "out.gif" "data.csv" 10%Q
              (fst (fst example_2D)) (snd (fst example_2D)) (snd example_2D)
              empty_world) as [(w' & c & Hrun & _ & Hs & _ & Hf & Hg) _].
  - reflexivity.
  - split; [reflexivity | split; [discriminate | repeat constructor]].
  - exists w', c. split; [exact Hrun|]. split; [exact Hs|].
    split; [exact Hf | exact Hg].
Defined.

(** ** What a run leaves in the working directory *)

Lemma write_all_idem (keys : list string) (vs : list canvas)
    (m : gmap string canvas) :
  NoDup keys -> length keys = length vs ->
  write_all (write_all m (zip keys vs)) (zip keys vs) = write_all m (zip keys vs).
Proof.
  intros Hnd Hlen. apply map_eq. intros j.
  destruct (decide (j ∈ keys)) as [Hin|Hout].
  - apply list_elem_of_lookup in Hin as [i Hi].
    destruct (vs !! i) as [v|] eqn:Hv.
    + by rewrite !(lookup_write_all keys vs _ i j v).
    + apply lookup_ge_None in Hv. apply lookup_lt_Some in Hi. lia.
  - by rewrite !lookup_write_all_other.
Qed.


Lemma entries_after_ensure (w : world) :
  entries (after_ensure w) = {["tmp-plot"]} ∪ entries w.
Proof.
  unfold after_ensure. destruct (decide ("tmp-plot" ∈ entries w)); [|done].
  apply set_eq. intros y. rewrite elem_of_union, elem_of_singleton.
  split; [by right | intros [->|?]; done].
Qed.

Lemma entries_after_run (tag gif_name : string) (num_frames : Z)
    (cs : list canvas) (w : world) :
  entries (after_build tag gif_name num_frames cs (after_frames tag cs w))
  = {[gif_name]} ∪ ({["tmp-plot"]} ∪ entries w).
Proof.
  unfold after_build, after_frames. cbn [entries].
  by rewrite entries_after_ensure.
Qed.

Lemma files_after_run (tag gif_name : string) (num_frames : Z)
    (cs : list canvas) (w : world) :
  files (after_build tag gif_name num_frames cs (after_frames tag cs w))
  = write_all (files w) (zip (map (frame_name tag) (seq 0 (length cs))) cs).
Proof.
  unfold after_build, after_frames. cbn [files]. by rewrite after_ensure_files.
Qed.

Lemma gifs_after_run (tag gif_name : string) (num_frames : Z)
    (cs : list canvas) (w : world) :
  gifs (after_build tag gif_name num_frames cs (after_frames tag cs w))
  = <[gif_name := mk_animation cs (inject_Z 3 / inject_Z num_frames)%Q]> (gifs w).
Proof.
  unfold after_build, after_frames. cbn [gifs]. by rewrite after_ensure_gifs.
Qed.

Lemma events_after_run (tag gif_name : string) (num_frames : Z)
    (cs : list canvas) (w : world) :
  "tmp-plot" ∈ entries w ->
  events (after_build tag gif_name num_frames cs (after_frames tag cs w))
  = events w
      ++ map Ev_savefig (map (frame_name tag) (seq 0 (length cs)))
      ++ flat_map (fun name => [Ev_imread name; Ev_append gif_name])
           (map (frame_name tag) (seq 0 (length cs))).
Proof.
  intros Hdir. unfold after_build, after_frames. cbn [events].
  by rewrite (after_ensure_idem w Hdir), <- app_assoc.
Qed.

Lemma GIF_with_leaves
    (load_data : string -> list Q * list (list (list Q)) * list (list (list Q)))
    (p : projection) (render : canvas -> list (list Q) -> Q -> result canvas)
    (tag gif_name data_file : string) (num_frames : Z) (box_dim : Q)
    (time : list Q) (pos vel : list (list (list Q))) (w : world) :
  load_data data_file = (time, pos, vel) ->
  length pos = length time -> time <> [] -> 1 <= num_frames ->
  num_frames <= 2 ^ 53 \/ Z.of_nat (length time) <= 2 ^ 53 ->
  (forall pos_t, pos_t ∈ pos ->
     exists c, render (add_subplot p) pos_t box_dim = Ok c /\ proj c = p) ->
  let names := map (frame_name tag) (seq 0 (Z.to_nat num_frames)) in
  exists w1 w2,
    GIF_with load_data p render tag gif_name data_file num_frames box_dim w
    = (Ok tt, w1)
    /\ entries w1 = {[gif_name]} ∪ ({["tmp-plot"]} ∪ entries w)
    /\ (forall path, path ∉ names -> files w1 !! path = files w !! path)
    /\ (forall other, other <> gif_name -> gifs w1 !! other = gifs w !! other)
    /\ GIF_with load_data p render tag gif_name data_file num_frames box_dim w1
       = (Ok tt, w2)
    /\ entries w2 = entries w1 /\ files w2 = files w1 /\ gifs w2 = gifs w1
    /\ events w2
       = events w1
           ++ map Ev_savefig names
           ++ flat_map (fun name => [Ev_imread name; Ev_append gif_name]) names.
Proof.
  intros Hload Hlen Hne Hm Hsize Hrender names.
  destruct (frames_of_any_plan p render time pos box_dim num_frames
              Hrender Hlen Hne Hsize) as (cs & Hcs).
  assert (length cs = Z.to_nat num_frames) as Hcslen.
  { rewrite <- (Forall2_length _ _ _ Hcs). by apply length_plan_of. }
  assert (num_frames <> 0) as Hnz by lia.
  assert (names = map (frame_name tag) (seq 0 (length cs))) as Hnames.
  { unfold names. by rewrite Hcslen. }
  clearbody names. subst names.
  set (w1 := after_build tag gif_name num_frames cs (after_frames tag cs w)).
  set (w2 := after_build tag gif_name num_frames cs (after_frames tag cs w1)).
  assert ("tmp-plot" ∈ entries w1) as Hdir.
  { unfold w1. rewrite entries_after_run.
    apply elem_of_union_r, elem_of_union_l. by apply elem_of_singleton. }
  assert (gif_name ∈ entries w1) as Hgif.
  { unfold w1. rewrite entries_after_run.
    apply elem_of_union_l. by apply elem_of_singleton. }
  exists w1, w2.
  split.
  { apply (GIF_with_closed p render tag load_data gif_name data_file
             num_frames box_dim time pos vel cs _ Hload Hnz Hcs). }
  split; [apply entries_after_run|].
  split.
  { intros path Hpath. unfold w1.
    by rewrite files_after_run, lookup_write_all_other. }
  split.
  { intros other Hother. unfold w1.
    by rewrite gifs_after_run, lookup_insert_ne. }
  split.
  { apply (GIF_with_closed p render tag load_data gif_name data_file
             num_frames box_dim time pos vel cs _ Hload Hnz Hcs). }
  split.
  { unfold w2. rewrite entries_after_run. apply set_eq. intros y.
    rewrite !elem_of_union, !elem_of_singleton.
    split; [intros [->|[->|?]]; done | by right; right]. }
  split.
  { unfold w2. rewrite files_after_run. unfold w1.
    rewrite files_after_run. apply write_all_idem.
    - apply NoDup_frame_names.
    - by rewrite length_map, length_seq. }
  split.
  { unfold w2. rewrite gifs_after_run. unfold w1.
    by rewrite gifs_after_run, insert_insert_eq. }
  unfold w2. by apply events_after_run.
Qed.



(** X15.  Running a pipeline again on the directory it left, over a
    well-formed trajectory with at most [2^53] frames or at most [2^53]
    timesteps, changes nothing there: [tmp-plot] is not created a second
    time, every frame file is overwritten with the same picture and the GIF
    is rewritten with the same frames and duration. *)
Theorem run_twice
    (rel_pos : list (list Q) -> Q -> nat -> nat -> nat -> Q)
    (load_data : string -> list Q * list (list (list Q)) * list (list (list Q)))
    (gif_name data_file : string) (num_frames : Z) (box_dim : Q)
    (time : list Q) (pos vel : list (list (list Q))) (w : world) :
  load_data data_file = (time, pos, vel) ->
  well_formed time pos ->
  num_frames <= 2 ^ 53 \/ Z.of_nat (length time) <= 2 ^ 53 ->
  1 <= num_frames ->
  (exists w1 w2,
     GIF_2D rel_pos load_data gif_name data_file num_frames box_dim w
     = (Ok tt, w1)
     /\ GIF_2D rel_pos load_data gif_name data_file num_frames box_dim w1
        = (Ok tt, w2)
     /\ entries w2 = entries w1 /\ files w2 = files w1 /\ gifs w2 = gifs w1
     /\ Ev_mkdir "tmp-plot" ∉ drop (length (events w1)) (events w2))
  /\ (exists w1 w2,
        GIF_3D rel_pos load_data gif_name data_file num_frames box_dim w
        = (Ok tt, w1)
        /\ GIF_3D rel_pos load_data gif_name data_file num_frames box_dim w1
           = (Ok tt, w2)
        /\ entries w2 = entries w1 /\ files w2 = files w1 /\ gifs w2 = gifs w1
        /\ Ev_mkdir "tmp-plot" ∉ drop (length (events w1)) (events w2)).
Proof.
  assert (forall gif names,
            Ev_mkdir "tmp-plot"
            ∉ map Ev_savefig names
                ++ flat_map (fun name => [Ev_imread name; Ev_append gif]) names)
    as Hnomkdir.
  { intros gif names Hin. apply elem_of_app in Hin as [Hin|Hin].
    - apply list_elem_of_fmap in Hin as (? & ? & _). discriminate.
    - apply list_elem_of_In, in_flat_map in Hin as (name & _ & Hin).
      destruct Hin as [?|[?|[]]]; discriminate. }
  intros Hload (Hlen & Hne & Hshape) Hsize Hm. split.
  - destruct (GIF_with_leaves load_data Rectilinear (render_2D rel_pos) "2D"
                gif_name data_file num_frames box_dim time pos vel w
                Hload Hlen Hne Hm Hsize
                (render_2D_ok rel_pos pos box_dim Hshape))
      as (w1 & w2 & Hrun1 & _ & _ & _ & Hrun2 & He & Hf & Hg & Hev).
    exists w1, w2. rewrite !GIF_2D_with. do 5 (split; [done|]).
    rewrite Hev, drop_app_length. apply Hnomkdir.
  - destruct (GIF_with_leaves load_data ThreeD (render_3D rel_pos) "3D"
                gif_name data_file num_frames box_dim time pos vel w
                Hload Hlen Hne Hm Hsize
                (render_3D_ok rel_pos pos box_dim Hshape))
      as (w1 & w2 & Hrun1 & _ & _ & _ & Hrun2 & He & Hf & Hg & Hev).
    exists w1, w2. rewrite !GIF_3D_with. do 5 (split; [done|]).
    rewrite Hev, drop_app_length. apply Hnomkdir.
Qed.

Lemma run_twice_witness :
  exists w1 w2,
    GIF_3D no_displacement (fun _ => example_3D) "out.gif" "data.csv" 3 10%Q
      empty_world = (Ok tt, w1)
    /\ GIF_3D no_displacement (fun _ => example_3D) "out.gif" "data.csv" 3 10%Q
         w1 = (Ok tt, w2)
    /\ entries w2 = entries w1 /\ files w2 = files w1 /\ gifs w2 = gifs w1.
Proof.
  destruct (run_twice no_displacement (fun _ => example_3D)
              "out.gif" "data.csv" 3 10%Q
              (fst (fst example_3D)) (snd (fst example_3D)) (snd example_3D)
              empty_world) as [_ (w1 & w2 & H1 & H2 & He & Hf & Hg & _)].
  - reflexivity.
  - split; [reflexivity | split; [discriminate | repeat constructor]].
  - left. lia.
  - lia.
  - exists w1, w2. split; [exact H1|]. split; [exact H2|].
    split; [exact He|]. split; [exact Hf | exact Hg].
Defined.

(** ** The time-series charts *)

Lemma for_each_app {A S : Type} (xs ys : list A) (s : S)
    (body : S -> A -> result S) :
  for_each (xs ++ ys) s body
  = rbind (for_each xs s body) (fun s' => for_each ys s' body).
Proof.
  revert s. induction xs as [|x xs IH]; intros s; [done|].
  cbn [app for_each]. destruct (body s x) as [s'|e]; [|done].
  rewrite !rbind_ok. apply IH.
Qed.

Lemma getitem_last {A : Type} (l : list A) (x : A) :
  getitem (l ++ [x]) (-1) = Ok x.
Proof.
  unfold getitem. rewrite length_app. cbn [length].
  destruct (Z.leb_spec 0 (-1)); [lia|]. cbn [andb].
  destruct (Z.leb_spec (- Z.of_nat (length l + 1)) (-1)); [|lia].
  cbn [andb Z.ltb Z.compare].
  replace (Z.to_nat (Z.of_nat (length l + 1) + -1)) with (length l) by lia.
  by rewrite list_lookup_middle.
Qed.

Lemma at_index_lookup {A : Type} (l : list A) (k : nat) (a : A) :
  l !! k = Some a -> at_index l k = Ok a.
Proof. intros H. unfold at_index. by rewrite H. Qed.

Lemma at_index_beyond {A : Type} (l : list A) (k : nat) :
  (length l <= k)%nat -> at_index l k = Raise IndexError.
Proof.
  intros H. unfold at_index. by rewrite (proj2 (lookup_ge_None l k) H).
Qed.

Lemma lookup_within {A : Type} (l : list A) (k : nat) :
  (k < length l)%nat -> exists a, l !! k = Some a.
Proof. intros H. apply lookup_lt_is_Some_2 in H as [a Ha]. eauto. Qed.

Section Chart_loops.

Variable kinetic_energy : list (list Q) -> Q.
Variable potential_energy : list (list Q) -> Q -> Q.
Variable total_energy : list (list Q) -> list (list Q) -> Q -> Q.
Variable norm : list Q -> Q.
Variable pos vel : list (list (list Q)).
Variable box_dim : Q.

(** The energy loop after [n] iterations. *)
Lemma E_vs_t_loop (n : nat) :
  (n <= length vel)%nat -> (n <= length pos)%nat ->
  for_each (seq 0 n) ([], [], [])
    (E_vs_t_step kinetic_energy potential_energy pos vel box_dim)
  = Ok (zip_with (fun v x => (kinetic_energy v + potential_energy x box_dim)%Q)
          (take n vel) (take n pos),
        map kinetic_energy (take n vel),
        map (fun x => potential_energy x box_dim) (take n pos)).
Proof.
  induction n as [|n IH]; intros Hv Hp; [done|].
  rewrite seq_S, for_each_app, IH by lia. rewrite rbind_ok.
  destruct (lookup_within vel n) as [v Hvn]; [lia|].
  destruct (lookup_within pos n) as [x Hxn]; [lia|].
  cbn [for_each Nat.add]. unfold E_vs_t_step.
  rewrite (at_index_lookup _ _ _ Hvn), rbind_ok.
  rewrite (at_index_lookup _ _ _ Hxn), rbind_ok.
  rewrite !getitem_last, !rbind_ok.
  rewrite (take_S_r _ _ _ Hvn), (take_S_r _ _ _ Hxn), !map_app.
  rewrite zip_with_app by (rewrite !length_take; lia). done.
Qed.

Lemma E_vs_t_loop_short (n : nat) :
  (length vel < n)%nat \/ (length pos < n)%nat ->
  for_each (seq 0 n) ([], [], [])
    (E_vs_t_step kinetic_energy potential_energy pos vel box_dim)
  = Raise IndexError.
Proof.
  intros Hshort.
  set (m := Nat.min (length vel) (length pos)).
  replace n with (m + S (n - S m))%nat by lia.
  rewrite seq_app, for_each_app, E_vs_t_loop by lia. rewrite rbind_ok.
  cbn [seq for_each Nat.add]. unfold E_vs_t_step.
  destruct (Nat.le_gt_cases (length vel) m) as [Hv|Hv].
  - by rewrite (at_index_beyond vel m Hv).
  - destruct (lookup_within vel m Hv) as [v Hvm].
    rewrite (at_index_lookup _ _ _ Hvm), rbind_ok.
    rewrite (at_index_beyond pos m) by lia. done.
Qed.

Lemma E_conservation_loop (n : nat) :
  (n <= length pos)%nat -> (n <= length vel)%nat ->
  for_each (seq 0 n) [] (E_conservation_step total_energy pos vel box_dim)
  = Ok (zip_with (fun x v => total_energy x v box_dim) (take n pos) (take n vel)).
Proof.
  induction n as [|n IH]; intros Hp Hv; [done|].
  rewrite seq_S, for_each_app, IH by lia. rewrite rbind_ok.
  destruct (lookup_within vel n) as [v Hvn]; [lia|].
  destruct (lookup_within pos n) as [x Hxn]; [lia|].
  cbn [for_each Nat.add]. unfold E_conservation_step.
  rewrite (at_index_lookup _ _ _ Hxn), rbind_ok.
  rewrite (at_index_lookup _ _ _ Hvn), rbind_ok.
  rewrite (take_S_r _ _ _ Hvn), (take_S_r _ _ _ Hxn).
  rewrite zip_with_app by (rewrite !length_take; lia). done.
Qed.

Lemma E_conservation_loop_short (n : nat) :
  (length pos < n)%nat \/ (length vel < n)%nat ->
  for_each (seq 0 n) [] (E_conservation_step total_energy pos vel box_dim)
  = Raise IndexError.
Proof.
  intros Hshort.
  set (m := Nat.min (length vel) (length pos)).
  replace n with (m + S (n - S m))%nat by lia.
  rewrite seq_app, for_each_app, E_conservation_loop by lia. rewrite rbind_ok.
  cbn [seq for_each Nat.add]. unfold E_conservation_step.
  destruct (Nat.le_gt_cases (length pos) m) as [Hp|Hp].
  - by rewrite (at_index_beyond pos m Hp).
  - destruct (lookup_within pos m Hp) as [x Hxm].
    rewrite (at_index_lookup _ _ _ Hxm), rbind_ok.
    rewrite (at_index_beyond vel m) by lia. done.
Qed.

End Chart_loops.

Lemma chart_set_xlim_spanning_zero (ax : chart) (latest : Q) :
  (singular_below <= latest)%Q ->
  chart_set_xlim ax 0%Q latest
  = mk_chart (curves ax) (legend ax) (Some (0%Q, latest)) (chart_xlabel ax)
      (chart_ylabel ax) (chart_ticks_in ax) (chart_ticks_both ax).
Proof.
  intros H. unfold chart_set_xlim.
  by rewrite limits_spanning_zero by (done || apply Qle_refl).
Qed.

Lemma np_max_spec (l : list Q) :
  l <> [] ->
  exists m, np_max l = Ok m /\ m ∈ l /\ forall x, x ∈ l -> (x <= m)%Q.
Proof.
  destruct l as [|x l]; [done|]. intros _. cbn [np_max].
  eexists. split; [reflexivity|].
  revert x. induction l as [|y l IH]; intros x.
  - cbn. split; [by left|]. intros z Hz. apply list_elem_of_singleton in Hz as ->.
    apply Qle_refl.
  - cbn [fold_left]. destruct (Qle_bool x y) eqn:Hxy.
    + destruct (IH y) as [Hin Hmax]. split; [by right|].
      intros z Hz. apply elem_of_cons in Hz as [->|Hz]; [|by apply Hmax].
      apply Qle_trans with y; [by apply Qle_bool_iff|]. apply Hmax. by left.
    + destruct (IH x) as [Hin Hmax]. split.
      { apply elem_of_cons in Hin as [->|Hin]; [by left|]. right. by right. }
      intros z Hz. apply elem_of_cons in Hz as [->|Hz]; [apply Hmax; by left|].
      apply elem_of_cons in Hz as [->|Hz]; [|apply Hmax; by right].
      apply Qle_trans with x; [|apply Hmax; by left].
      apply Qlt_le_weak, Qnot_le_lt. intros Hle.
      apply Qle_bool_iff in Hle. congruence.
Qed.

Lemma getitem_in_bounds {A : Type} (l : list A) (i : Z) :
  in_bounds (length l) i = true ->
  exists a, getitem l i = Ok a /\ l !! wrap (length l) i = Some a.
Proof.
  unfold in_bounds, getitem, wrap. intros H.
  apply andb_prop in H as [H1 H2].
  apply Z.leb_le in H1. apply Z.ltb_lt in H2.
  destruct (Z.leb_spec 0 i) as [H0|H0].
  - rewrite (proj2 (Z.ltb_lt _ _) H2). cbn [andb].
    destruct (lookup_within l (Z.to_nat i)) as [a Ha]; [lia|].
    exists a. by rewrite Ha.
  - cbn [andb]. rewrite (proj2 (Z.leb_le _ _) H1), (proj2 (Z.ltb_lt i 0) H0).
    cbn [andb].
    destruct (lookup_within l (Z.to_nat (Z.of_nat (length l) + i))) as [a Ha];
      [lia|].
    exists a. by rewrite Ha.
Qed.

Lemma getitem_out_of_bounds {A : Type} (l : list A) (i : Z) :
  in_bounds (length l) i = false -> getitem l i = Raise IndexError.
Proof.
  unfold in_bounds, getitem. intros H.
  destruct (Z.leb_spec 0 i) as [H0|H0]; cbn [andb].
  - destruct (Z.ltb_spec i (Z.of_nat (length l))) as [H2|H2].
    + destruct (Z.leb_spec (- Z.of_nat (length l)) i); [done|lia].
    + destruct (Z.ltb_spec i 0); [lia|]. by rewrite andb_false_r.
  - destruct (Z.leb_spec (- Z.of_nat (length l)) i) as [H1|H1]; [|done].
    destruct (Z.ltb_spec i (Z.of_nat (length l))); [done|lia].
Qed.

Lemma getitem_particle (pos_k : list (list Q)) (i : Z) :
  in_bounds (length pos_k) i = true -> getitem pos_k i = Ok (particle pos_k i).
Proof.
  intros H. destruct (getitem_in_bounds pos_k i H) as (a & -> & Ha).
  unfold particle. by rewrite Ha.
Qed.

Section Reldist_loop.

Variable norm : list Q -> Q.
Variable pos : list (list (list Q)).
Variable N : nat.
Variable i j : Z.
Hypothesis particles : Forall (fun pos_k => length pos_k = N) pos.

Lemma reldist_vs_t_loop (n : nat) :
  (n <= length pos)%nat ->
  in_bounds N i = true -> in_bounds N j = true ->
  for_each (seq 0 n) [] (reldist_vs_t_step norm pos i j)
  = Ok (map (fun pos_k =>
               norm (zip_with Qminus (particle pos_k i) (particle pos_k j)))
          (take n pos)).
Proof.
  intros Hn Hi Hj. induction n as [|n IH]; [done|].
  rewrite seq_S, for_each_app, IH by lia. rewrite rbind_ok.
  destruct (lookup_within pos n) as [x Hxn]; [lia|].
  assert (length x = N) as Hx.
  { eapply (proj1 (Forall_lookup _ _) particles); eauto. }
  cbn [for_each Nat.add]. unfold reldist_vs_t_step.
  rewrite (at_index_lookup _ _ _ Hxn), rbind_ok.
  rewrite !getitem_particle, !rbind_ok by (by rewrite Hx).
  by rewrite (take_S_r _ _ _ Hxn), map_app.
Qed.

Lemma reldist_vs_t_loop_out (n : nat) :
  (0 < n)%nat -> pos <> [] ->
  in_bounds N i && in_bounds N j = false ->
  for_each (seq 0 n) [] (reldist_vs_t_step norm pos i j) = Raise IndexError.
Proof.
  intros Hn Hpos Hout. destruct n as [|n]; [lia|].
  destruct pos as [|x pos'] eqn:Epos; [done|].
  assert (length x = N) as Hx by (by inversion particles).
  cbn [seq for_each]. unfold reldist_vs_t_step, at_index.
  cbn [lookup list_lookup]. rewrite rbind_ok.
  destruct (in_bounds N i) eqn:Hi.
  - rewrite getitem_particle, rbind_ok by (by rewrite Hx).
    rewrite getitem_out_of_bounds by (by rewrite Hx). done.
  - rewrite getitem_out_of_bounds by (by rewrite Hx). done.
Qed.

End Reldist_loop.

(** X16.  On a trajectory with one position and one velocity array per time
    value, and a time value that is not vanishingly small (at least
    [singular_below], about 2.2e-287), [E_vs_t] shows a chart whose first
    curve is the total energy over [time], each point the kinetic energy of
    that step's velocities plus the potential energy of that step's
    positions, in black; with [kinetic_potential] the kinetic (red) and
    potential (blue) curves follow, and only then is there a legend.  The
    x range is from 0 to the largest time. *)
Theorem E_vs_t_chart
    (load_data : string -> list Q * list (list (list Q)) * list (list (list Q)))
    (kinetic_energy : list (list Q) -> Q)
    (potential_energy : list (list Q) -> Q -> Q)
    (data_file : string) (box_dim : Q) (kinetic_potential : bool)
    (time : list Q) (pos vel : list (list (list Q))) :
  load_data data_file = (time, pos, vel) ->
  (exists t, t ∈ time /\ (singular_below <= t)%Q) ->
  length pos = length time ->
  length vel = length time ->
  exists latest,
    E_vs_t load_data kinetic_energy potential_energy data_file box_dim
      kinetic_potential
    = Ok (finished_chart
              (energy_curves time
                 (zip_with
                    (fun v x => (kinetic_energy v + potential_energy x box_dim)%Q)
                    vel pos)
                 (map kinetic_energy vel)
                 (map (fun x => potential_energy x box_dim) pos)
                 kinetic_potential)
              kinetic_potential (Some (0%Q, latest)) "dimensionless energy")
    /\ latest ∈ time
    /\ forall t, t ∈ time -> (t <= latest)%Q.
Proof.
  intros Hload (t & Ht & Hbig) Hpos Hvel.
  assert (time <> []) as Htime by (intros ->; by apply elem_of_nil in Ht).
  destruct (np_max_spec time Htime) as (latest & Hmax & Hin & Hle).
  exists latest. split; [|done].
  unfold E_vs_t. rewrite Hload. cbv beta iota.
  rewrite E_vs_t_loop by lia.
  rewrite !take_ge by lia.
  rewrite rbind_ok. cbv beta iota zeta. rewrite Hmax, rbind_ok.
  rewrite chart_set_xlim_spanning_zero
    by (apply Qle_trans with t; [done | by apply Hle]).
  by destruct kinetic_potential.
Qed.

Lemma E_vs_t_chart_witness :
  exists latest,
    E_vs_t example_load_data example_kinetic_energy example_potential_energy
      "run.csv" 10 true
    = Ok (finished_chart
              (energy_curves example_time
                 (zip_with
                    (fun v x => (example_kinetic_energy v
                                 + example_potential_energy x 10)%Q)
                    example_vel example_pos)
                 (map example_kinetic_energy example_vel)
                 (map (fun x => example_potential_energy x 10) example_pos)
                 true)
              true (Some (0%Q, latest)) "dimensionless energy")
    /\ latest ∈ example_time
    /\ forall t, t ∈ example_time -> (t <= latest)%Q.
Proof.
  apply (E_vs_t_chart example_load_data example_kinetic_energy
           example_potential_energy "run.csv" 10 true
           example_time example_pos example_vel);
    [reflexivity | | reflexivity | reflexivity].
  exists (1 # 2)%Q. split.
  - apply elem_of_cons. right. apply elem_of_cons. left. reflexivity.
  - apply Qle_bool_iff. vm_compute. reflexivity.
Defined.

Lemma relative_deviation_zero (avg : option Q) (E : list Q) (k : nat) (e : Q) :
  E !! k = Some e -> (e == 0)%Q -> relative_deviation avg E !! k = Some None.
Proof.
  intros Hk He. unfold relative_deviation.
  rewrite list_lookup_fmap, Hk. cbn [fmap option_fmap option_map].
  destruct avg as [a|]; [|done].
  by rewrite (proj2 (Qeq_bool_iff e 0) He).
Qed.

(** X17.  On a trajectory with one position and one velocity array per time
    value, and a time value that is not vanishingly small (at least
    [singular_below], about 2.2e-287), [E_conservation] shows one black
    curve without label or legend, with one point per time value: the
    deviation of that step's total energy from the mean, divided by that
    energy.  A step whose total energy is zero gives a point that is not
    finite.  The x range is from 0 to the largest time. *)
Theorem E_conservation_chart
    (load_data : string -> list Q * list (list (list Q)) * list (list (list Q)))
    (total_energy : list (list Q) -> list (list Q) -> Q -> Q)
    (data_file : string) (box_dim : Q)
    (time : list Q) (pos vel : list (list (list Q))) :
  load_data data_file = (time, pos, vel) ->
  (exists t, t ∈ time /\ (singular_below <= t)%Q) ->
  length pos = length time ->
  length vel = length time ->
  let E_total := zip_with (fun x v => total_energy x v box_dim) pos vel in
  let rel_AE := relative_deviation (np_average E_total) E_total in
  exists latest,
    E_conservation load_data total_energy data_file box_dim
    = Ok (finished_chart [mk_curve time rel_AE "black" None] false
              (Some (0%Q, latest)) "relative energy difference")
    /\ length rel_AE = length time
    /\ (forall k x v, pos !! k = Some x -> vel !! k = Some v ->
          (total_energy x v box_dim == 0)%Q -> rel_AE !! k = Some None)
    /\ latest ∈ time
    /\ forall t, t ∈ time -> (t <= latest)%Q.
Proof.
  intros Hload (t & Ht & Hbig) Hpos Hvel E_total rel_AE.
  assert (time <> []) as Htime by (intros ->; by apply elem_of_nil in Ht).
  destruct (np_max_spec time Htime) as (latest & Hmax & Hin & Hle).
  exists latest. split; [|split; [|split; [|done]]].
  - unfold E_conservation. rewrite Hload. cbv beta iota.
    rewrite E_conservation_loop by lia.
    rewrite !take_ge by lia.
    rewrite rbind_ok. cbv beta zeta. rewrite Hmax, rbind_ok.
    rewrite chart_set_xlim_spanning_zero
      by (apply Qle_trans with t; [done | by apply Hle]).
    done.
  - unfold rel_AE, relative_deviation, E_total.
    rewrite length_map, length_zip_with. lia.
  - intros k x v Hx Hv Hzero. apply relative_deviation_zero with
      (e := total_energy x v box_dim); [|done].
    unfold E_total. rewrite lookup_zip_with, Hx. cbn. by rewrite Hv.
Qed.

Lemma E_conservation_chart_witness :
  let E_total :=
    zip_with (fun x v => example_total_energy x v 10) example_pos example_vel in
  let rel_AE := relative_deviation (np_average E_total) E_total in
  exists latest,
    E_conservation example_load_data example_total_energy "run.csv" 10
    = Ok (finished_chart [mk_curve example_time rel_AE "black" None] false
              (Some (0%Q, latest)) "relative energy difference")
    /\ length rel_AE = length example_time
    /\ (forall k x v, example_pos !! k = Some x -> example_vel !! k = Some v ->
          (example_total_energy x v 10 == 0)%Q -> rel_AE !! k = Some None)
    /\ latest ∈ example_time
    /\ forall t, t ∈ example_time -> (t <= latest)%Q.
Proof.
  apply (E_conservation_chart example_load_data example_total_energy
           "run.csv" 10 example_time example_pos example_vel);
    [reflexivity | | reflexivity | reflexivity].
  exists (1 # 2)%Q. split.
  - apply elem_of_cons. right. apply elem_of_cons. left. reflexivity.
  - apply Qle_bool_iff. vm_compute. reflexivity.
Defined.

(** X18.  When the
    file holds fewer position arrays or fewer velocity arrays than time
    values, both energy charts raise [IndexError] and show nothing. *)
Theorem energy_charts_short_data
    (load_data : string -> list Q * list (list (list Q)) * list (list (list Q)))
    (kinetic_energy : list (list Q) -> Q)
    (potential_energy : list (list Q) -> Q -> Q)
    (total_energy : list (list Q) -> list (list Q) -> Q -> Q)
    (data_file : string) (box_dim : Q) (kinetic_potential : bool)
    (time : list Q) (pos vel : list (list (list Q))) :
  load_data data_file = (time, pos, vel) ->
  (length pos < length time)%nat \/ (length vel < length time)%nat ->
  E_vs_t load_data kinetic_energy potential_energy data_file box_dim
    kinetic_potential
  = Raise IndexError
  /\ E_conservation load_data total_energy data_file box_dim
     = Raise IndexError.
Proof.
  intros Hload Hshort. split.
  - unfold E_vs_t. rewrite Hload. cbv beta iota.
    rewrite E_vs_t_loop_short by tauto. done.
  - unfold E_conservation. rewrite Hload. cbv beta iota.
    rewrite E_conservation_loop_short by tauto. done.
Qed.

Lemma energy_charts_short_data_witness :
  E_vs_t short_load_data example_kinetic_energy example_potential_energy
    "run.csv" 10 false
  = Raise IndexError
  /\ E_conservation short_load_data example_total_energy "run.csv" 10
     = Raise IndexError.
Proof.
  apply (energy_charts_short_data short_load_data example_kinetic_energy
           example_potential_energy example_total_energy "run.csv" 10 false
           example_time (take 1 example_pos) example_vel);
    [reflexivity | left; simpl; lia].
Defined.

(** X19.  On a file without time values the
    energy charts raise the [ValueError] of [np.max] on an empty array, while
    [reldist_vs_t], which sets no x range, shows a chart with one empty
    curve. *)
Theorem charts_empty_trajectory
    (load_data : string -> list Q * list (list (list Q)) * list (list (list Q)))
    (kinetic_energy : list (list Q) -> Q)
    (potential_energy : list (list Q) -> Q -> Q)
    (total_energy : list (list Q) -> list (list Q) -> Q -> Q)
    (norm : list Q -> Q)
    (data_file : string) (box_dim : Q) (kinetic_potential : bool) (i j : Z)
    (pos vel : list (list (list Q))) :
  load_data data_file = ([], pos, vel) ->
  E_vs_t load_data kinetic_energy potential_energy data_file box_dim
    kinetic_potential
  = Raise ValueError
  /\ E_conservation load_data total_energy data_file box_dim
     = Raise ValueError
  /\ reldist_vs_t load_data norm data_file i j box_dim
     = Ok (finished_chart [mk_curve [] [] "black" None] false None
               (reldist_label i j)).
Proof.
  intros Hload. repeat split.
  - unfold E_vs_t. rewrite Hload. by destruct kinetic_potential.
  - unfold E_conservation. by rewrite Hload.
  - unfold reldist_vs_t. by rewrite Hload.
Qed.

Lemma charts_empty_trajectory_witness :
  E_vs_t empty_load_data example_kinetic_energy example_potential_energy
    "run.csv" 10 true
  = Raise ValueError
  /\ E_conservation empty_load_data example_total_energy "run.csv" 10
     = Raise ValueError
  /\ reldist_vs_t empty_load_data example_norm "run.csv" 0 1 10
     = Ok (finished_chart [mk_curve [] [] "black" None] false None
               (reldist_label 0 1)).
Proof.
  apply (charts_empty_trajectory empty_load_data example_kinetic_energy
           example_potential_energy example_total_energy example_norm
           "run.csv" 10 true 0 1 [] []).
  reflexivity.
Defined.

(** X20.  On a trajectory with a position
    array of [N] particles for every time value, [reldist_vs_t] succeeds
    exactly when both particle numbers lie in [-N, N); a negative number
    counts from the last particle.  The chart then holds one black curve
    over [time] whose points are the norm of the plain difference of the two
    particles' positions at that step: neither the box size nor the
    velocities enter.  Otherwise the call raises [IndexError]. *)
Theorem reldist_vs_t_chart
    (load_data : string -> list Q * list (list (list Q)) * list (list (list Q)))
    (norm : list Q -> Q)
    (data_file : string) (i j : Z) (box_dim : Q) (N : nat)
    (time : list Q) (pos vel : list (list (list Q))) :
  load_data data_file = (time, pos, vel) ->
  time <> [] ->
  length pos = length time ->
  Forall (fun pos_k => length pos_k = N) pos ->
  reldist_vs_t load_data norm data_file i j box_dim
  = if in_bounds N i && in_bounds N j then
      Ok (finished_chart
              [mk_curve time
                 (map (fun pos_k =>
                         Some (norm (zip_with Qminus (particle pos_k i)
                                       (particle pos_k j))))
                    pos)
                 "black" None]
              false None (reldist_label i j))
    else Raise IndexError.
Proof.
  intros Hload Htime Hpos Hall.
  unfold reldist_vs_t. rewrite Hload. cbv beta iota.
  destruct (in_bounds N i && in_bounds N j) eqn:Hin.
  - apply andb_prop in Hin as [Hi Hj].
    rewrite (reldist_vs_t_loop norm pos N i j Hall) by (done || lia).
    rewrite take_ge by lia. rewrite rbind_ok.
    by rewrite map_map.
  - rewrite (reldist_vs_t_loop_out norm pos N i j Hall); [done| |..|done].
    + destruct time; [done|]. cbn [length]. lia.
    + intros ->. destruct time; [done|]. done.
Qed.

Lemma reldist_vs_t_chart_witness :
  reldist_vs_t example_load_data example_norm "run.csv" (-1) 0 10
  = if in_bounds 2 (-1) && in_bounds 2 0 then
      Ok (finished_chart
              [mk_curve example_time
                 (map (fun pos_k =>
                         Some (example_norm
                                 (zip_with Qminus (particle pos_k (-1))
                                    (particle pos_k 0))))
                    example_pos)
                 "black" None]
              false None (reldist_label (-1) 0))
    else Raise IndexError.
Proof.
  apply (reldist_vs_t_chart example_load_data example_norm "run.csv" (-1) 0 10
           2 example_time example_pos example_vel);
    [reflexivity | discriminate | reflexivity |].
  repeat constructor.
Defined.

Lemma getitem_raises {A : Type} (l : list A) (i : Z) (e : exn) :
  getitem l i = Raise e -> e = IndexError.
Proof.
  destruct (in_bounds (length l) i) eqn:Hin.
  - destruct (getitem_in_bounds l i Hin) as (a & -> & _). discriminate.
  - rewrite (getitem_out_of_bounds l i Hin). congruence.
Qed.

Lemma reldist_vs_t_step_raises (norm : list Q -> Q)
    (pos : list (list (list Q))) (i j : Z) (rel_dist : list Q) (k : nat)
    (e : exn) :
  reldist_vs_t_step norm pos i j rel_dist k = Raise e -> e = IndexError.
Proof.
  unfold reldist_vs_t_step, at_index.
  destruct (pos !! k) as [pos_k|]; [|cbn; congruence].
  rewrite rbind_ok.
  destruct (getitem pos_k i) as [row_i|e'] eqn:Ei.
  - rewrite rbind_ok.
    destruct (getitem pos_k j) as [row_j|e''] eqn:Ej; [done|].
    cbn. intros [= <-]. by apply getitem_raises in Ej.
  - cbn. intros [= <-]. by apply getitem_raises in Ei.
Qed.

Lemma reldist_vs_t_loop_short (norm : list Q -> Q)
    (pos : list (list (list Q))) (i j : Z) (ks : list nat) (k : nat)
    (rel_dist : list Q) :
  k ∈ ks -> (length pos <= k)%nat ->
  for_each ks rel_dist (reldist_vs_t_step norm pos i j) = Raise IndexError.
Proof.
  intros Hk Hlen. revert rel_dist.
  induction ks as [|x ks IH]; intros rel_dist; [by apply elem_of_nil in Hk|].
  cbn [for_each].
  destruct (reldist_vs_t_step norm pos i j rel_dist x) as [acc|e] eqn:Estep.
  - rewrite rbind_ok. apply elem_of_cons in Hk as [->|Hk]; [|by apply IH].
    unfold reldist_vs_t_step in Estep.
    by rewrite (at_index_beyond pos x Hlen) in Estep.
  - apply reldist_vs_t_step_raises in Estep as ->. done.
Qed.

(** X21.  When the file holds fewer position
    arrays than time values, [reldist_vs_t] raises [IndexError] whatever the
    particle numbers. *)
Theorem reldist_vs_t_short_data
    (load_data : string -> list Q * list (list (list Q)) * list (list (list Q)))
    (norm : list Q -> Q)
    (data_file : string) (i j : Z) (box_dim : Q)
    (time : list Q) (pos vel : list (list (list Q))) :
  load_data data_file = (time, pos, vel) ->
  (length pos < length time)%nat ->
  reldist_vs_t load_data norm data_file i j box_dim
  = Raise IndexError.
Proof.
  intros Hload Hshort. unfold reldist_vs_t. rewrite Hload. cbv beta iota.
  rewrite (reldist_vs_t_loop_short norm pos i j _ (length pos)); [done| |lia].
  apply list_elem_of_In, in_seq. lia.
Qed.

Lemma reldist_vs_t_short_data_witness :
  reldist_vs_t short_load_data example_norm "run.csv" 0 1 10
  = Raise IndexError.
Proof.
  apply (reldist_vs_t_short_data short_load_data example_norm "run.csv" 0 1 10
           example_time (take 1 example_pos) example_vel);
    [reflexivity | simpl; lia].
Defined.
